(* ===== verification/_CoqProject ===== *)
-Q . S2P
Prelude.v
Numeric.v
NumFloat.v
NumReal.v
Format.v
Random.v
Vec2.v
Particle.v
Firework.v
Lifecycle.v
Simulation.v
Render.v
Session.v
Scenarios.v
