(* ===== verification/Prelude.v ===== *)
(** * wxfireworks: a verification development for the particle simulation

    The program (Python, [src/fireworks/]) is a real-time fireworks toy.
    [particle.py] holds the whole simulation core: a 2D vector class [Vec2],
    the base entity [Particle] (position, velocity, base colour, optional
    lifespan, age [timer]) with its per-tick [update] and its fading
    [colour], and the two subclasses [Firework] and [SuperFirework], which
    leave a trail of sparks while they fly and are replaced by a burst of
    children on the tick their base update reports them dead.
    [__main__.py] owns the window, the per-tick driver [update(dt)] (apply
    every entity's [update], flatten, maybe launch one more firework), the
    initial population in [main] and the drawing code [on_draw], which
    hands the triangles, their colours and a text overlay to pyglet.  After
    [main] has built the window, pyglet's event loop calls [update] and
    [on_draw] back in an order the program does not choose.

    ** How the code is modelled

    - Numbers.  Python mixes [int] and [float]; every arithmetic site of the
      program is written once, over the operations of the class
      [Numeric.Num] (conversion from [int], the four operations, negation,
      square root, comparisons, truncation [int(x)], and the rounding the
      format [.0f] applies).  Two instances are
      given.  [NumFloat.float_Num] is IEEE-754 binary64 on Rocq's primitive
      floats: it is what CPython computes (on finite values) and every
      definition evaluates on it by [vm_compute].  [NumReal.R_Num] is exact
      real arithmetic: it is the reading in which the specification states
      its numeric properties (fade fractions, unit vectors, ranges of the
      random draws), and the theorems that need the laws of an ordered field
      are proved at that instance.  Theorems stated for an arbitrary
      instance hold for both.  Decimal literals such as [0.125] are
      [Numeric.dec 125 3], the quotient of two integers, which in binary64 is
      the correctly rounded literal.
    - Errors.  A Python exception is a value [Raise e] of [result]; the
      program can raise [ZeroDivisionError] ([1/other] in
      [Vec2.__truediv__], [timer / lifespan] in [Particle.colour]) and
      [TypeError] (the [isinstance] guards of the [Vec2] operators, whose
      [raise NotImplemented] is itself a [TypeError]).  Operands of the
      [Vec2] operators are values of [Vec2.operand], so both branches of each
      guard are modelled.
    - Randomness.  [random()], [randint] and [choice] come from CPython's
      [random] module, which is not under [src/]: [Random.v] models them from
      their documented contract (53 random bits over [2^53]; [a +
      randbelow(b - a + 1)]; [seq[randbelow(len seq)]]) over an abstract
      generator [Random.RandomSource] with its range laws
      [Random.RandomSourceLaws], and gives one lawful instance, a tape of
      pre-drawn integers.  Every run of the real generator is the run of
      some tape, so a theorem for all generators (or all tapes) covers all
      executions.  Code that draws is in the monad [rand G], state passing
      over the generator with errors: the order of the draws is the order of
      evaluation in the source.
    - Objects and mutation.  An object is a record; a method that mutates
      [self] returns the new record.  [Particle.update] returns the mutated
      particle and a flag which is [true] when the source returns [[self]]
      and [false] when it returns [[]].  The list the subclasses return
      holds a reference to [self], so the entity put in the list is built
      from the final state of [self] (after [last_spark] was advanced or
      reset).  [Vec2] has no in-place operators: [+=] rebinds the attribute
      to a fresh vector, so no vector is shared between two entities.
    - Callbacks.  The window is the one shared object: [update] replaces
      its collection and its [dt], [on_draw] only reads it, a resize
      changes its width and height.  All of them draw from the one
      generator of the [random] module, which the model threads through
      the callbacks in the order of the events ([Session.run_events]).
    - Text.  A string is a [string]; the replacement fields of
      [str.format] are functions from numbers to strings ([Format]).

    ** Files

    - [Prelude]: exceptions, [result], the [rand] monad with its
      Hoare-style rules ([post], [total], [raises_only]) for [bind],
      [repeatM] (a [for] loop that appends) and [mapM] (a [map] over a
      list), the exact conditions under which a sequence, a loop and a
      traversal raise, the equivalence of computations that [run] alike with the
      monad laws and the [Proper] instances that allow rewriting with it,
      [silent] (a computation that draws nothing), tactics and hints.
    - [Numeric]: the class [Num], Python-level division, [int], [min],
      decimal literals.  [NumFloat], [NumReal]: its two instances.
    - [Format]: the replacement fields [{}], [{:,}] and [{:.0f}] of the
      overlay text ([__main__.py] line 26), and the readers that invert
      them.
    - [Random]: the generator interface, [random], [randint], [choice], the
      tape instance, and [takes]: how many numbers a computation takes
      from the tape.
    - [Vec2]: class [Vec2] ([particle.py] lines 7-46) and [Window].
    - [Particle]: class [Particle] (lines 49-88): [colour], [update], and
      the pure functions [step], [offscreen], [expired], [alive] that
      [update] is proved to compute.
    - [Firework]: classes [Firework] and [SuperFirework] (lines 91-162), the
      sum type [entity] of the three classes, the class [class_of] an
      object and the dispatch of [update] and [colour] on it
      ([entity_update], [entity_colour]).
    - [Lifecycle]: the invariant [entity_ok] of an entity over the reals;
      one particle followed through many ticks ([survive], [path]); one
      rocket followed through the ticks it survives ([rocket_step],
      [flight], [coasts]), and the same for an entity of any class
      ([entity_step], [entity_flight]).
    - [Simulation]: [__main__.py] lines 9-13 and 39-53, in [Module Main]:
      the window state [World], the tick [update], the launch expression
      [new_firework], [main_world], the clock [ticks]; the reachable
      states as an inductive relation.
    - [Render]: [FireworksWindow.on_draw] (lines 15-36): the request
      [Frame] handed to [pyglet.graphics.draw], the [Label] of the overlay
      with its text [label_text], and the reader [parse_label] of that
      text.
    - [Session]: the program from [main()] on (lines 46-59): the events
      pyglet delivers ([event]), one callback ([handle]), a sequence of
      them ([run_events]) and the whole run [main].
    - [Scenarios]: the scenarios of the specification and runs of the
      driver in binary64, next to exact arithmetic.

    ** What the theorems show

    - [Vec2]: the algebra of the operators, both branches of each type
      guard, [normalised] raises exactly on the zero vector and otherwise
      returns a unit vector, the screen projection.
    - [Particle]: [update] never raises, performs semi-implicit Euler
      integration, and reports death exactly when the particle has left the
      visible area or reached its lifespan; an immortal particle never dies
      of age; [colour] raises exactly when the lifespan is zero, and
      otherwise its channels fade monotonically and stay within [0, base].
    - [Firework]: the size, classes, colour, position, age and lifespan
      range of a burst, for both classes; the trail spark and when it is
      emitted; how many entities one update returns and of which classes
      (an update never returns an object that can start more generations
      of bursts than the entity updated); the only exception is
      [ZeroDivisionError], and [update] raises it exactly when a trail
      spark is due to a rocket whose velocity has a length that tests equal
      to zero, or when the burst loop reaches a child whose direction is
      drawn as such a vector (over the reals: both draws are 0.5).
    - [Lifecycle]: every update with [dt >= 0] returns entities that
      satisfy [entity_ok] (a lifespan below 12, an age below the lifespan
      unless the entity is a trail spark born with lifespan 0, a valid base
      colour); no particle outlives its lifespan, and at a constant frame
      time it is gone after [floor((L - t) / dt) + 1] ticks; the
      update of an entity that survives returns it first, in the state the
      deterministic [entity_step] computes; two consecutive trail sparks
      are further apart than the cadence threshold.
    - [Simulation]: a tick raises nothing but [ZeroDivisionError], and
      raises it exactly when the update of one of its rockets does (the
      launch never raises); it keeps the window, stores [dt], keeps the
      order of the collection (the results of the updates in order, then
      the launched rocket) and returns at most [100 n + 1] entities; the
      first entity of the collection stays the first through all the ticks
      it survives and follows [entity_flight], whatever is drawn;
      [main] never raises and builds 5 to 20 rockets; every reachable state
      satisfies the invariant (by the rule induction
      [reachable_invariant]), so no entity stays in the collection for
      more than [floor(12 / dt) + 1] ticks.
    - [Format], [Render]: every reader inverts its writer, so the overlay
      text read back gives the count, the rounded frame rate, the width
      and the height it was written from, and two texts are equal only
      when these agree; the overlay of a frame shows the state it was
      drawn from, with [1/dt] rounded to the nearest integer; a frame's
      buffers fit their formats, its colours are bytes, and drawing raises
      exactly when a plain particle has lifespan zero, which a trail spark
      can have; drawing a frame takes exactly three random numbers per
      rocket and none per plain particle.
    - [Session]: whatever the order of ticks, redraws and resizes, the
      program raises nothing but [ZeroDivisionError], keeps the invariant
      and draws byte colours; ticks alone are [Main.ticks]; over the reals
      a resize commutes with a tick, and the state a session ends in is, up
      to the size of the window, a state the ticks alone reach (the event
      loop is simulated by the transition system [Main.reachable]); in
      binary64 a resize does not commute with a tick, and a redraw between
      two ticks changes what the second tick does, because the colour of a
      rocket is drawn from the generator of the simulation.
    - [Scenarios]: the specification's scenarios, and the tick at which a
      particle expires in binary64 against exact arithmetic.

    ** Bounds and fuel

    No definition uses fuel: every loop of the program is a [for] over a
    finite range or list and is a structural recursion ([repeatM],
    [mapM]) and the clock is a finite list of elapsed times ([ticks],
    [survive]), for lists of any length.  The event loop does not
    terminate by itself; [run_events] serves a finite list of events of
    any length, which is every prefix of a run.  Integers are unbounded as
    in Python.  Draws of the tape generator are reduced modulo the range
    asked for, so every tape is a lawful generator; an exhausted tape
    draws 0.

    ** Not modelled

    pyglet: the creation of the window, the timing of the clock, which
    events are delivered and when, the OpenGL drawing and the layout of the
    text.  The model stops at the values handed to pyglet (the [Frame])
    and takes the events as given; the attribute formats ["v2f"], ["c3B"]
    and the primitive are read as pyglet documents them.  An exception
    that leaves [update] or [on_draw] ends the model's run.  In the
    arithmetic, non-finite floats and the [OverflowError] of [pow] on huge
    floats are outside the model (only the format [.0f] prints them): the
    simulation's magnitudes stay far from the binary64 range.  [math.sqrt]
    is total in the model because its argument is always a sum of two
    squares.  The theorems over the reals say nothing of rounding; the
    theorems stated for every arithmetic hold in binary64, and beyond them
    what binary64 does is shown by evaluation at concrete inputs only (the
    [Example]s under "Runs in binary64" and in [Scenarios]), which are
    illustrations and not part of the properties. *)

From Stdlib Require Import ZArith List Lia.
From stdpp Require Import base tactics list option.

(** ** Python exceptions as values *)

Inductive PyError : Set :=
| ZeroDivisionError
| TypeError
| IndexError.

#[export] Instance PyError_eq_dec : EqDecision PyError.
Proof. solve_decision. Defined.

Inductive result (A : Type) : Type :=
| Ok (a : A)
| Raise (e : PyError).
Arguments Ok {A} a.
Arguments Raise {A} e.

#[export] Instance result_eq_dec `{EqDecision A} : EqDecision (result A).
Proof. solve_decision. Defined.

#[export] Instance result_ret : MRet result := @Ok.
#[export] Instance result_bind : MBind result := fun A B f m =>
  match m with Ok a => f a | Raise e => Raise e end.
#[export] Instance result_fmap : FMap result := fun A B f m =>
  match m with Ok a => Ok (f a) | Raise e => Raise e end.

Definition is_ok {A} (r : result A) : bool :=
  match r with Ok _ => true | Raise _ => false end.

Definition raises {A} (r : result A) (e : PyError) : Prop := r = Raise e.

(** ** Code that draws random numbers: state passing over a generator [G],
    with exceptions *)

Record rand (G A : Type) : Type := Rand { run : G -> result (A * G) }.
Arguments Rand {G A} run.
Arguments run {G A} r g.

#[export] Instance rand_ret {G} : MRet (rand G) := fun A a =>
  Rand (fun g => Ok (a, g)).
#[export] Instance rand_bind {G} : MBind (rand G) := fun A B f m =>
  Rand (fun g => match run m g with
                 | Ok (a, g') => run (f a) g'
                 | Raise e => Raise e
                 end).

(** A pure computation that may raise, used inside code that draws. *)
Definition lift {G A} (r : result A) : rand G A :=
  Rand (fun g => match r with Ok a => Ok (a, g) | Raise e => Raise e end).

(** One draw: a state transformer of the generator that cannot raise. *)
Definition draw {G A} (f : G -> A * G) : rand G A :=
  Rand (fun g => Ok (f g)).

(** [for _ in range(n): l.append(m())]: run [m] [n] times and collect the
    results in order. *)
Fixpoint repeatM {G A} (n : nat) (m : rand G A) : rand G (list A) :=
  match n with
  | O => mret []
  | S n' => a ← m; l ← repeatM n' m; mret (a :: l)
  end.

(** [[f(x) for x in l]] with effects: run [f] on every element in order. *)
Fixpoint mapM {G A B} (f : A -> rand G B) (l : list A) : rand G (list B) :=
  match l with
  | [] => mret []
  | x :: l' => b ← f x; bs ← mapM f l'; mret (b :: bs)
  end.

(** Postcondition: every value [m] can return satisfies [P], whatever the
    state of the generator. *)
Definition post {G A} (m : rand G A) (P : A -> Prop) : Prop :=
  forall g a g', run m g = Ok (a, g') -> P a.

(** Whatever [m] raises, it is the exception [E]. *)
Definition raises_only {G A} (m : rand G A) (E : PyError) : Prop :=
  forall g e, run m g = Raise e -> e = E.

(** [m] returns from every state of the generator: it never raises. *)
Definition total {G A} (m : rand G A) : Prop :=
  forall g, exists a g', run m g = Ok (a, g').

(** [m] draws nothing: when it returns, the generator is in the state
    it started from. *)
Definition silent {G A} (m : rand G A) : Prop :=
  forall g a g', run m g = Ok (a, g') -> g' = g.

(** ** Lemmas on [result] and [rand] *)

Create HintDb fw discriminated.
Create Rewrite HintDb run.

Section ResultLemmas.
Context {A B : Type}.
Implicit Types (r : result A) (f : A -> result B).

Lemma bind_Ok_inv r f b :
  r ≫= f = Ok b -> exists a, r = Ok a /\ f a = Ok b.
Proof. destruct r as [a|e]; simpl; intros H; [eauto | discriminate H]. Qed.

Lemma bind_Raise_inv r f e :
  r ≫= f = Raise e -> r = Raise e \/ exists a, r = Ok a /\ f a = Raise e.
Proof.
  destruct r as [a|e']; simpl; intros H; [right; eauto | left].
  injection H as ->. reflexivity.
Qed.

Lemma bind_Ok_l a f : Ok a ≫= f = f a.
Proof. reflexivity. Qed.

Lemma fmap_Ok_inv (h : A -> B) r b :
  h <$> r = Ok b -> exists a, r = Ok a /\ b = h a.
Proof. destruct r as [a|e]; simpl; intros H; [injection H as <-; eauto | discriminate H]. Qed.

Lemma is_ok_true r : is_ok r = true <-> exists a, r = Ok a.
Proof. destruct r; split; [eauto | done | done | intros [? ?]; done]. Qed.
End ResultLemmas.

Section RandLemmas.
Context {G A B : Type}.
Implicit Types (m : rand G A) (k : A -> rand G B) (g : G).

Lemma run_ret (a : A) g : run (mret a) g = Ok (a, g).
Proof. reflexivity. Qed.

Lemma run_bind m k g :
  run (m ≫= k) g =
  match run m g with Ok (a, g') => run (k a) g' | Raise e => Raise e end.
Proof. reflexivity. Qed.

Lemma run_lift_Ok (a : A) g : run (lift (Ok a)) g = Ok (a, g).
Proof. reflexivity. Qed.

Lemma run_lift_Raise e g : run (lift (A:=A) (Raise e)) g = Raise e.
Proof. reflexivity. Qed.

Lemma run_draw (f : G -> A * G) g : run (draw f) g = Ok (f g).
Proof. reflexivity. Qed.

Lemma run_lift_Ok_inv (r : result A) g a g' :
  run (lift r) g = Ok (a, g') -> r = Ok a /\ g' = g.
Proof. destruct r; cbn; [intros [= <- <-]; auto | discriminate]. Qed.

Lemma run_lift_Raise_inv (r : result A) g e :
  run (lift r) g = Raise e -> r = Raise e.
Proof. destruct r; cbn; [discriminate | intros [= <-]; reflexivity]. Qed.

Lemma run_bind_Ok_inv m k g b g2 :
  run (m ≫= k) g = Ok (b, g2) ->
  exists a g1, run m g = Ok (a, g1) /\ run (k a) g1 = Ok (b, g2).
Proof.
  rewrite run_bind. destruct (run m g) as [[a g1]|e]; intros H; [eauto | discriminate H].
Qed.

Lemma run_bind_Raise_inv m k g e :
  run (m ≫= k) g = Raise e ->
  run m g = Raise e \/
  exists a g1, run m g = Ok (a, g1) /\ run (k a) g1 = Raise e.
Proof.
  rewrite run_bind.
  destruct (run m g) as [[a g1]|e']; intros H; [right; eauto | left].
  injection H as ->. reflexivity.
Qed.

Lemma run_bind_Ok m k g a g1 :
  run m g = Ok (a, g1) -> run (m ≫= k) g = run (k a) g1.
Proof. intros H. rewrite run_bind, H. reflexivity. Qed.

Lemma run_bind_Raise m k g e :
  run m g = Raise e -> run (m ≫= k) g = Raise e.
Proof. intros H. rewrite run_bind, H. reflexivity. Qed.
End RandLemmas.

#[export] Hint Rewrite @run_ret @run_lift_Ok @run_lift_Raise @run_draw : run.

(** ** Rules for postconditions and totality *)

Section PostRules.
Context {G A B : Type}.
Implicit Types (m : rand G A) (k : A -> rand G B) (P Q : A -> Prop).

Lemma post_ret (a : A) P : P a -> post (mret (M:=rand G) a) P.
Proof. intros Ha g a' g'. rewrite run_ret. intros [= <- _]. exact Ha. Qed.

Lemma post_bind m k Q (R : B -> Prop) :
  post m Q -> (forall a, Q a -> post (k a) R) -> post (m ≫= k) R.
Proof.
  intros Hm Hk g b g2 (a & g1 & Ha & Hb)%run_bind_Ok_inv.
  exact (Hk a (Hm _ _ _ Ha) _ _ _ Hb).
Qed.

Lemma post_lift (r : result A) P :
  (forall a, r = Ok a -> P a) -> post (lift (G:=G) r) P.
Proof.
  intros Hr g a g'. destruct r as [a0|e]; cbn; [| discriminate].
  intros [= <- _]. auto.
Qed.

Lemma post_draw (f : G -> A * G) P :
  (forall g, P (fst (f g))) -> post (draw f) P.
Proof.
  intros Hf g a g'. rewrite run_draw. intros [= E].
  specialize (Hf g). rewrite E in Hf. exact Hf.
Qed.

Lemma post_True m : post m (fun _ => True).
Proof. intros g a g' _. exact I. Qed.

Lemma post_weaken m P Q : post m P -> (forall a, P a -> Q a) -> post m Q.
Proof. intros Hm HPQ g a g' Ha. eauto. Qed.

Lemma post_conj m P Q : post m P -> post m Q -> post m (fun a => P a /\ Q a).
Proof. intros HP HQ g a g' Ha. split; eauto. Qed.

Lemma post_if (b : bool) (m1 m2 : rand G A) P :
  (b = true -> post m1 P) -> (b = false -> post m2 P) ->
  post (if b then m1 else m2) P.
Proof. destruct b; auto. Qed.

Lemma raises_only_ret (a : A) E : raises_only (mret (M:=rand G) a) E.
Proof. intros g e. rewrite run_ret. discriminate. Qed.

Lemma raises_only_draw (f : G -> A * G) E : raises_only (draw f) E.
Proof. intros g e. rewrite run_draw. discriminate. Qed.

Lemma raises_only_lift (r : result A) E :
  (forall e, r = Raise e -> e = E) -> raises_only (lift (G:=G) r) E.
Proof. intros Hr g e He%run_lift_Raise_inv. auto. Qed.

Lemma raises_only_bind m k E :
  raises_only m E -> (forall a, raises_only (k a) E) -> raises_only (m ≫= k) E.
Proof.
  intros Hm Hk g e [He | (a & g1 & _ & He)]%run_bind_Raise_inv.
  - exact (Hm _ _ He).
  - exact (Hk _ _ _ He).
Qed.

Lemma raises_only_if (b : bool) (m1 m2 : rand G A) E :
  raises_only m1 E -> raises_only m2 E -> raises_only (if b then m1 else m2) E.
Proof. destruct b; auto. Qed.

Lemma total_ret (a : A) : total (mret (M:=rand G) a).
Proof. intros g. rewrite run_ret. eauto. Qed.

Lemma total_bind m k : total m -> (forall a, total (k a)) -> total (m ≫= k).
Proof.
  intros Hm Hk g. destruct (Hm g) as (a & g1 & Ha).
  destruct (Hk a g1) as (b & g2 & Hb).
  exists b, g2. rewrite (run_bind_Ok _ _ _ _ _ Ha). exact Hb.
Qed.

Lemma total_bind_post m k Q :
  total m -> post m Q -> (forall a, Q a -> total (k a)) -> total (m ≫= k).
Proof.
  intros Hm HQ Hk g. destruct (Hm g) as (a & g1 & Ha).
  destruct (Hk a (HQ _ _ _ Ha) g1) as (b & g2 & Hb).
  exists b, g2. rewrite (run_bind_Ok _ _ _ _ _ Ha). exact Hb.
Qed.

Lemma total_draw (f : G -> A * G) : total (draw f).
Proof. intros g. rewrite run_draw. destruct (f g). eauto. Qed.

(** A computation that never raises raises only what one likes. *)
Lemma total_raises_only m E : total m -> raises_only m E.
Proof. intros Hm g e He. destruct (Hm g) as (a & g' & Ha). congruence. Qed.

Lemma total_if (b : bool) (m1 m2 : rand G A) :
  total m1 -> total m2 -> total (if b then m1 else m2).
Proof. destruct b; auto. Qed.

Lemma total_lift_Ok (a : A) : total (lift (G:=G) (Ok a)).
Proof. intros g. rewrite run_lift_Ok. eauto. Qed.

End PostRules.

Section RepeatRules.
Context {G A : Type}.
Implicit Types (m : rand G A) (P : A -> Prop).

Lemma post_repeatM n m P :
  post m P -> post (repeatM n m) (Forall P).
Proof.
  intros Hm. induction n as [|n IH]; cbn [repeatM].
  - apply post_ret. constructor.
  - eapply post_bind; [exact Hm |]. intros a Ha.
    eapply post_bind; [exact IH |]. intros l Hl.
    apply post_ret. constructor; assumption.
Qed.

Lemma post_repeatM_length n m :
  post (repeatM n m) (fun l => length l = n).
Proof.
  induction n as [|n IH]; cbn [repeatM].
  - apply post_ret. reflexivity.
  - eapply post_bind; [intros ? ? ? _; exact I |]. intros a _.
    eapply post_bind; [exact IH |]. intros l Hl.
    apply post_ret. cbn. congruence.
Qed.

Lemma raises_only_repeatM n m E :
  raises_only m E -> raises_only (repeatM n m) E.
Proof.
  intros Hm. induction n as [|n IH]; cbn [repeatM].
  - apply raises_only_ret.
  - apply raises_only_bind; [exact Hm |]. intros a.
    apply raises_only_bind; [exact IH |]. intros l. apply raises_only_ret.
Qed.

Lemma total_repeatM n m : total m -> total (repeatM n m).
Proof.
  intros Hm. induction n as [|n IH]; cbn [repeatM].
  - apply total_ret.
  - apply total_bind; [exact Hm |]. intros a.
    apply total_bind; [exact IH |]. intros l. apply total_ret.
Qed.
End RepeatRules.

Section MapRules.
Context {G A B : Type}.
Implicit Types (f : A -> rand G B) (l : list A).

Lemma post_mapM f l (Q : A -> B -> Prop) :
  (forall x, x ∈ l -> post (f x) (Q x)) ->
  post (mapM f l) (fun bs => Forall2 Q l bs).
Proof.
  induction l as [|x l IH]; intros Hf; cbn [mapM].
  - apply post_ret. constructor.
  - eapply post_bind; [apply Hf; left |]. intros b Hb.
    eapply post_bind; [apply IH; intros y Hy; apply Hf; right; exact Hy |].
    intros bs Hbs. apply post_ret. constructor; assumption.
Qed.

Lemma raises_only_mapM f l E :
  (forall x, raises_only (f x) E) -> raises_only (mapM f l) E.
Proof.
  intros Hf. induction l as [|x l IH]; cbn [mapM].
  - apply raises_only_ret.
  - apply raises_only_bind; [apply Hf |]. intros b.
    apply raises_only_bind; [exact IH |]. intros bs. apply raises_only_ret.
Qed.

Lemma total_mapM f l : (forall x, x ∈ l -> total (f x)) -> total (mapM f l).
Proof.
  induction l as [|x l IH]; intros Hf; cbn [mapM].
  - apply total_ret.
  - apply total_bind; [apply Hf; left |]. intros b.
    apply total_bind; [apply IH; intros y Hy; apply Hf; right; exact Hy |].
    intros bs. apply total_ret.
Qed.

Lemma post_mapM_each f l (P : B -> Prop) :
  (forall x, x ∈ l -> post (f x) P) -> post (mapM f l) (Forall P).
Proof.
  intros Hf g bs g' Hrun.
  apply (post_mapM f l (fun _ => P) Hf) in Hrun.
  clear Hf. induction Hrun; [apply Forall_nil_2 | apply Forall_cons_2; assumption].
Qed.

Lemma post_mapM_length f l : post (mapM f l) (fun bs => length bs = length l).
Proof.
  intros g bs g' Hrun.
  apply (post_mapM f l (fun _ _ => True)) in Hrun; [| intros; apply post_True].
  symmetry. eapply Forall2_length, Hrun.
Qed.

(** When the whole traversal returns, every element's computation has
    returned from some state of the generator. *)
Lemma mapM_Ok_each f l g bs g' :
  run (mapM f l) g = Ok (bs, g') ->
  Forall (fun x => exists g1 b g2, run (f x) g1 = Ok (b, g2)) l.
Proof.
  intros Hrun.
  apply (post_mapM f l (fun x b => exists g1 g2, run (f x) g1 = Ok (b, g2)))
    in Hrun; [| intros x _ g1 b g2 Hx; eauto].
  induction Hrun as [|x b l bs (g1 & g2 & Hx) _ IH];
    [apply Forall_nil_2 | apply Forall_cons_2; eauto].
Qed.
End MapRules.

Section SilentRules.
Context {G A B : Type}.
Implicit Types (m : rand G A) (k : A -> rand G B).

Lemma silent_ret (a : A) : silent (mret (M:=rand G) a).
Proof. intros g a' g'. rewrite run_ret. congruence. Qed.

Lemma silent_lift (r : result A) : silent (lift (G:=G) r).
Proof. intros g a g' [_ ->]%run_lift_Ok_inv. reflexivity. Qed.

Lemma silent_bind m k : silent m -> (forall a, silent (k a)) -> silent (m ≫= k).
Proof.
  intros Hm Hk g b g2 (a & g1 & Ha & Hb)%run_bind_Ok_inv.
  apply Hm in Ha as ->. exact (Hk a _ _ _ Hb).
Qed.

Lemma silent_if (b : bool) (m1 m2 : rand G A) :
  silent m1 -> silent m2 -> silent (if b then m1 else m2).
Proof. destruct b; auto. Qed.

(** The run of a computation that draws nothing, with the state it ends
    in written out. *)
Lemma silent_run m g a g' : silent m -> run m g = Ok (a, g') -> run m g = Ok (a, g).
Proof. intros Hm Hrun. rewrite Hrun, (Hm _ _ _ Hrun). reflexivity. Qed.
End SilentRules.

Lemma silent_mapM {G A B} (f : A -> rand G B) (l : list A) :
  (forall x, x ∈ l -> silent (f x)) -> silent (mapM f l).
Proof.
  induction l as [|x l IH]; intros Hf; cbn [mapM]; [apply silent_ret |].
  apply silent_bind; [apply Hf; left |]. intros b.
  apply silent_bind; [apply IH; intros y Hy; apply Hf; right; exact Hy |].
  intros bs. apply silent_ret.
Qed.

(** ** When a computation raises

    The exact condition under which a composed computation raises: a
    continuation that never raises adds nothing to it, and a loop raises
    exactly when one of its iterations does, the iterations before it
    having returned. *)
Lemma total_not_Raise {G A} (m : rand G A) g e : total m -> run m g <> Raise e.
Proof. intros Hm Hr. destruct (Hm g) as (a & g' & Ha). congruence. Qed.

Section RaiseRules.
Context {G A B : Type}.
Implicit Types (m : rand G A) (k : A -> rand G B).

Lemma run_bind_Raise_iff m k g e :
  (forall a, total (k a)) ->
  run (m ≫= k) g = Raise e <-> run m g = Raise e.
Proof.
  intros Hk. split; [| apply run_bind_Raise].
  intros [Hm | (a & g1 & _ & Hr)]%run_bind_Raise_inv; [exact Hm |].
  destruct (total_not_Raise _ _ _ (Hk a) Hr).
Qed.

Lemma run_repeatM_S n m g :
  run (repeatM (S n) m) g =
  match run m g with
  | Ok (a, g1) =>
      match run (repeatM n m) g1 with
      | Ok (l, g2) => Ok (a :: l, g2)
      | Raise e => Raise e
      end
  | Raise e => Raise e
  end.
Proof.
  cbn [repeatM]. rewrite run_bind. destruct (run m g) as [[a g1]|e]; [| reflexivity].
  rewrite run_bind. destruct (run (repeatM n m) g1) as [[l g2]|e]; reflexivity.
Qed.

Lemma repeatM_Raise_iff n m g e :
  run (repeatM n m) g = Raise e <->
  exists i l gi, (i < n)%nat /\ run (repeatM i m) g = Ok (l, gi) /\
                 run m gi = Raise e.
Proof.
  revert g. induction n as [|n IH]; intros g.
  - split; [discriminate | intros (i & _ & _ & Hi & _); lia].
  - rewrite run_repeatM_S. split.
    + destruct (run m g) as [[a g1]|e'] eqn:Hm.
      * destruct (run (repeatM n m) g1) as [[l g2]|e'] eqn:Hn; [discriminate |].
        intros [= ->]. apply IH in Hn as (i & l & gi & Hi & Hl & Hr).
        exists (S i), (a :: l), gi. rewrite run_repeatM_S, Hm, Hl.
        split; [lia | auto].
      * intros [= ->]. exists 0%nat, [], g. split; [lia | auto].
    + intros ([|i] & l & gi & Hi & Hl & Hr).
      * injection Hl as _ <-. rewrite Hr. reflexivity.
      * rewrite run_repeatM_S in Hl.
        destruct (run m g) as [[a g1]|e']; [| discriminate].
        assert (run (repeatM n m) g1 = Raise e) as ->; [| reflexivity].
        apply IH. destruct (run (repeatM i m) g1) as [[l' g2]|] eqn:Hi';
          [| discriminate].
        injection Hl as _ <-. exists i, l', g2. split; [lia | auto].
Qed.

Lemma run_mapM_cons (f : A -> rand G B) x l g :
  run (mapM f (x :: l)) g =
  match run (f x) g with
  | Ok (b, g1) =>
      match run (mapM f l) g1 with
      | Ok (bs, g2) => Ok (b :: bs, g2)
      | Raise e => Raise e
      end
  | Raise e => Raise e
  end.
Proof.
  cbn [mapM]. rewrite run_bind. destruct (run (f x) g) as [[b g1]|e]; [| reflexivity].
  rewrite run_bind. destruct (run (mapM f l) g1) as [[bs g2]|e]; reflexivity.
Qed.

(** A traversal raises exactly when the computation of one of the
    elements does, those of the elements before it having returned. *)
Lemma mapM_Raise_iff (f : A -> rand G B) l g e :
  run (mapM f l) g = Raise e <->
  exists l1 x l2 bs gi, l = l1 ++ x :: l2 /\
    run (mapM f l1) g = Ok (bs, gi) /\ run (f x) gi = Raise e.
Proof.
  revert g. induction l as [|y l IH]; intros g.
  - split; [discriminate | intros ([|] & ? & ? & ? & ? & [=] & _)].
  - rewrite run_mapM_cons. split.
    + destruct (run (f y) g) as [[b g1]|e'] eqn:Hy.
      * destruct (run (mapM f l) g1) as [[bs g2]|e'] eqn:Hl; [discriminate |].
        intros [= ->]. apply IH in Hl as (l1 & x & l2 & bs & gi & -> & Hl1 & Hx).
        exists (y :: l1), x, l2, (b :: bs), gi. rewrite run_mapM_cons, Hy, Hl1. auto.
      * intros [= ->]. exists [], y, l, [], g. auto.
    + intros ([|z l1] & x & l2 & bs & gi & Hl & Hl1 & Hx).
      * injection Hl as -> ->. injection Hl1 as _ <-. rewrite Hx. reflexivity.
      * injection Hl as -> ->. rewrite run_mapM_cons in Hl1.
        destruct (run (f z) g) as [[b g1]|e']; [| discriminate].
        assert (run (mapM f (l1 ++ x :: l2)) g1 = Raise e) as ->; [| reflexivity].
        apply IH. destruct (run (mapM f l1) g1) as [[bs' g2]|] eqn:Hl1';
          [| discriminate].
        injection Hl1 as _ <-. eexists l1, x, l2, bs', g2. auto.
Qed.
End RaiseRules.

(** ** Equivalent computations

    Two computations are equivalent when they return the same result and
    leave the generator in the same state, from every state of the
    generator.  The monad laws hold up to this equivalence, and [run],
    [bind], [post], [total] and [raises_only] respect it, so a computation
    can be rewritten by an equivalent one wherever it occurs. *)

#[export] Instance rand_equiv {G A} : Equiv (rand G A) :=
  fun m1 m2 => forall g, run m1 g = run m2 g.

#[export] Instance rand_equivalence {G A} : Equivalence (@equiv (rand G A) _).
Proof.
  split.
  - intros m g. reflexivity.
  - intros m1 m2 H12 g. symmetry. apply H12.
  - intros m1 m2 m3 H12 H23 g. rewrite H12. apply H23.
Qed.

#[export] Instance run_proper {G A} :
  Proper (equiv ==> eq ==> eq) (@run G A).
Proof. intros m1 m2 Hm g ? <-. apply Hm. Qed.

#[export] Instance rand_bind_proper {G A B} :
  Proper (pointwise_relation A equiv ==> equiv ==> equiv)
         (mbind (M:=rand G) (A:=A) (B:=B)).
Proof.
  intros k1 k2 Hk m1 m2 Hm g. rewrite !run_bind, (Hm g).
  destruct (run m2 g) as [[a g1]|e]; [apply Hk | reflexivity].
Qed.

#[export] Instance post_proper {G A} :
  Proper (equiv ==> pointwise_relation A iff ==> iff) (@post G A).
Proof.
  intros m1 m2 Hm P Q HPQ. unfold post.
  split; intros Hp g a g' Hrun; apply (HPQ a), (Hp g a g'); [rewrite Hm | rewrite <- Hm];
    exact Hrun.
Qed.

#[export] Instance total_proper {G A} : Proper (equiv ==> iff) (@total G A).
Proof.
  intros m1 m2 Hm. unfold total.
  split; intros Ht g; destruct (Ht g) as (a & g' & Ha); exists a, g';
    [rewrite <- Hm | rewrite Hm]; exact Ha.
Qed.

#[export] Instance raises_only_proper {G A} :
  Proper (equiv ==> eq ==> iff) (@raises_only G A).
Proof.
  intros m1 m2 Hm E ? <-. unfold raises_only.
  split; intros Hr g e He; apply (Hr g); [rewrite Hm | rewrite <- Hm]; exact He.
Qed.

#[export] Instance silent_proper {G A} : Proper (equiv ==> iff) (@silent G A).
Proof.
  intros m1 m2 Hm. unfold silent.
  split; intros Hs g a g' Hrun; apply (Hs g a); [rewrite Hm | rewrite <- Hm]; exact Hrun.
Qed.

Section MonadLaws.
Context {G A B C : Type}.
Implicit Types (m : rand G A) (k : A -> rand G B) (h : B -> rand G C).

Lemma rand_bind_ret_l (a : A) k : mret a ≫= k ≡ k a.
Proof. intros g. reflexivity. Qed.

Lemma rand_bind_ret_r m : m ≫= mret ≡ m.
Proof. intros g. rewrite run_bind. destruct (run m g) as [[a g1]|e]; reflexivity. Qed.

Lemma rand_bind_assoc m k h : (m ≫= k) ≫= h ≡ m ≫= (fun a => k a ≫= h).
Proof.
  intros g. rewrite !run_bind. destruct (run m g) as [[a g1]|e]; reflexivity.
Qed.

(** A pure step that returns is no step at all. *)
Lemma rand_bind_lift_Ok (a : A) k : lift (Ok a) ≫= k ≡ k a.
Proof. intros g. reflexivity. Qed.

(** A pure step that raises ends the computation. *)
Lemma rand_bind_lift_Raise e k : lift (Raise e) ≫= k ≡ lift (Raise e).
Proof. intros g. reflexivity. Qed.

(** Two continuations that agree on every value agree after any
    computation. *)
Lemma rand_bind_ext m k k' : (forall a, k a ≡ k' a) -> m ≫= k ≡ m ≫= k'.
Proof. intros Hk. apply rand_bind_proper; [exact Hk | reflexivity]. Qed.
End MonadLaws.

#[export] Hint Resolve post_ret post_lift post_draw post_repeatM
  total_ret total_draw total_lift_Ok total_repeatM
  raises_only_ret raises_only_draw raises_only_repeatM
  silent_ret silent_lift : fw.

(** Walk through a computation bind by bind to bound what it can raise;
    the pure steps that can raise are left as goals. *)
Ltac raises_steps :=
  repeat first
    [ solve [auto with fw]
    | apply raises_only_ret
    | apply raises_only_draw
    | apply raises_only_repeatM
    | apply raises_only_mapM; intros ?
    | apply raises_only_if
    | apply raises_only_bind; [| intros ?]
    | apply raises_only_lift; intros ? ? ].

(** ** Tactics *)

(** Break an equation [_ ≫= _ = Ok _] of the context into its steps. *)
Ltac inv_bind :=
  repeat match goal with
  | H : Ok _ = Ok _ |- _ => injection H as H; try subst
  | H : Raise _ = Ok _ |- _ => discriminate H
  | H : Ok _ = Raise _ |- _ => discriminate H
  | H : mbind (M:=result) _ _ = Ok _ |- _ =>
      let a := fresh "a" in let Ha := fresh "Ha" in
      apply bind_Ok_inv in H as (a & Ha & H)
  | H : run (mbind _ _) _ = Ok _ |- _ =>
      let a := fresh "a" in let g := fresh "g" in let Ha := fresh "Ha" in
      apply run_bind_Ok_inv in H as (a & g & Ha & H)
  | H : run (mret _) _ = Ok _ |- _ => rewrite run_ret in H
  | H : run (draw _) _ = Ok _ |- _ => rewrite run_draw in H
  | H : run (lift _) _ = Ok _ |- _ =>
      let E := fresh "E" in apply run_lift_Ok_inv in H as [E ->]
  | H : (_, _) = (_, _) |- _ => injection H as H; try subst
  end.

(** Case analysis on the first [if] or [match] of the goal, keeping the
    equation. *)
Ltac case_if :=
  match goal with
  | |- context [if ?b then _ else _] =>
      let E := fresh "E" in destruct b eqn:E
  end.

(** Prove a property of every member of a list written out. *)
Ltac each_member := repeat first [apply Forall_nil_2 | apply Forall_cons_2].

Tactic Notation "case_if" "in" hyp(H) :=
  match type of H with
  | context [if ?b then _ else _] =>
      let E := fresh "E" in destruct b eqn:E
  end.

(** ** Lists *)
Lemma sum_list_scale {A} (k : nat) (f : A -> nat) (l : list A) :
  sum_list ((fun x => k * f x)%nat <$> l) = (k * sum_list (f <$> l))%nat.
Proof.
  induction l as [|x l IH]; [cbn; lia |].
  rewrite !fmap_cons. change (sum_list (?a :: ?t)) with (a + sum_list t)%nat.
  rewrite IH. lia.
Qed.
Lemma Forall_concat_intro {A} (P : A -> Prop) (ls : list (list A)) :
  Forall (Forall P) ls -> Forall P (concat ls).
Proof. induction 1; simpl; [constructor | apply Forall_app; auto]. Qed.

Lemma length_concat_le {A} (ls : list (list A)) (n : nat) :
  Forall (fun l => length l <= n)%nat ls ->
  (length (concat ls) <= n * length ls)%nat.
Proof. induction 1; simpl; [lia | rewrite length_app; lia]. Qed.

Lemma length_concat_eq {A} (ls : list (list A)) (n : nat) :
  Forall (fun l => length l = n) ls ->
  length (concat ls) = (n * length ls)%nat.
Proof. induction 1; simpl; [lia | rewrite length_app; lia]. Qed.
