(* ===== verification/Numeric.v ===== *)
(** * Numeric: the arithmetic the program uses, as an interface

    [Num F] lists the operations [particle.py] and [__main__.py] apply to
    numbers.  The program is written once over this class ([Vec2],
    [Particle], [Firework], [Simulation]); [NumFloat] instantiates it with
    binary64 and [NumReal] with the real numbers.  On top of the raw
    operations this file defines what Python adds to them: [/] raises
    [ZeroDivisionError] on a zero divisor, [min] keeps its first argument
    unless the second is smaller, [int] truncates, and a decimal literal is
    the quotient of two integers.  [fixed0] is what the format
    specification [.0f] reads off a number before it prints it. *)

From Stdlib Require Import ZArith NArith.
From stdpp Require Import base decidable numbers.
From S2P Require Import Prelude.

Declare Scope num_scope.
Delimit Scope num_scope with num.

(** What ['{:.0f}'.format(x)] prints of [x]: the integer nearest to [|x|]
    (ties go to the even one) under the sign of [x], or [inf] under its
    sign, or [nan]. *)
Inductive fixed0 : Set :=
  | Fixed (negative : bool) (magnitude : N)
  | Infinite (negative : bool)
  | NotANumber.

#[export] Instance fixed0_eq_dec : EqDecision fixed0.
Proof. solve_decision. Defined.

Class Num (F : Type) : Type := {
  (** the [float] an [int] becomes in mixed arithmetic *)
  flt : Z -> F;
  nadd : F -> F -> F;
  nsub : F -> F -> F;
  nmul : F -> F -> F;
  (** division by a divisor already known to be non-zero *)
  ndiv : F -> F -> F;
  nneg : F -> F;
  (** [math.sqrt] on a non-negative argument *)
  nsqrt : F -> F;
  nltb : F -> F -> bool;
  nleb : F -> F -> bool;
  neqb : F -> F -> bool;
  (** [int(x)]: rounding toward zero *)
  ntrunc : F -> Z;
  (** the sign and the rounded magnitude the format [.0f] prints *)
  nfix0 : F -> fixed0
}.

Infix "+" := nadd : num_scope.
Infix "-" := nsub : num_scope.
Infix "*" := nmul : num_scope.
Notation "- x" := (nneg x) : num_scope.
Infix "<?" := nltb : num_scope.
Infix "<=?" := nleb : num_scope.
Infix "=?" := neqb : num_scope.
Notation "x >? y" := (nltb y x) (only parsing) : num_scope.
Notation "x >=? y" := (nleb y x) (only parsing) : num_scope.

Section PythonArithmetic.
Context {F : Type} `{Num F}.
Local Open Scope num_scope.

(** A decimal literal [m * 10^-e], e.g. [0.125 = dec 125 3]. *)
Definition dec (m : Z) (e : nat) : F :=
  ndiv (flt m) (flt (10 ^ Z.of_nat e)).

(** Python's [a / b] on numbers. *)
Definition py_truediv (a b : F) : result F :=
  if b =? flt 0 then Raise ZeroDivisionError else Ok (ndiv a b).

(** Python's [min(a, b)]: the first argument unless the second is
    strictly smaller. *)
Definition py_min (a b : F) : F := if b <? a then b else a.

(** Python's [int(x)] on a float. *)
Definition py_int (x : F) : Z := ntrunc x.

(** [pow(x, 2)]. *)
Definition pow2 (x : F) : F := x * x.

(** ** Facts that hold in every instance *)
Lemma truediv_Ok a b : (b =? flt 0) = false -> py_truediv a b = Ok (ndiv a b).
Proof. unfold py_truediv. intros ->. reflexivity. Qed.

Lemma truediv_Raise a b : (b =? flt 0) = true -> py_truediv a b = Raise ZeroDivisionError.
Proof. unfold py_truediv. intros ->. reflexivity. Qed.

Lemma truediv_Ok_inv a b q :
  py_truediv a b = Ok q -> (b =? flt 0) = false /\ q = ndiv a b.
Proof. unfold py_truediv. destruct (b =? flt 0); [discriminate | injection 1 as <-; auto]. Qed.

Lemma truediv_Raise_inv a b e :
  py_truediv a b = Raise e -> (b =? flt 0) = true /\ e = ZeroDivisionError.
Proof. unfold py_truediv. destruct (b =? flt 0); [injection 1 as <-; auto | discriminate]. Qed.

Lemma py_min_cases a b :
  ((b <? a) = true /\ py_min a b = b) \/ ((b <? a) = false /\ py_min a b = a).
Proof. unfold py_min. destruct (b <? a); auto. Qed.
End PythonArithmetic.

#[export] Hint Rewrite @truediv_Ok @truediv_Raise using assumption : run.
