(* ===== verification/NumFloat.v ===== *)
(** * NumFloat: binary64, the arithmetic CPython runs

    The instance of [Numeric.Num] on Rocq's primitive floats, which are
    IEEE-754 binary64 with round-to-nearest-even, as CPython's [float] is.
    [flt] converts an integer with one rounding (exact below [2^53]);
    [ntrunc] reads the integer part off the decoded mantissa and exponent,
    and [nfix0] the nearest integer, ties to even.
    Every definition of the development evaluates on this instance by
    [vm_compute]; the examples at the end fix the 13 decimal literals of the
    source and the conversions the colour code relies on. *)

From Stdlib Require Import ZArith Floats.
From stdpp Require Import base.
From S2P Require Import Prelude Numeric.

(** [float(z)]: the nearest binary64 value. *)
Definition float_of_Z (z : Z) : float :=
  SF2Prim (binary_normalize prec emax z 0 false).

(** [int(f)] for a finite [f]: the mantissa shifted by the exponent, the
    sign put back.  (Python raises on NaN and infinities; they are outside
    the model and mapped to 0.) *)
Definition float_trunc (f : float) : Z :=
  match Prim2SF f with
  | S754_finite s m e =>
      let a := if (0 <=? e)%Z then (Z.pos m * 2 ^ e)%Z
               else (Z.pos m / 2 ^ (- e))%Z in
      if s then (- a)%Z else a
  | _ => 0%Z
  end.

(** The integer nearest to [m * 2^e], ties to even. *)
Definition nearest_even (m : positive) (e : Z) : N :=
  if (0 <=? e)%Z then Z.to_N (Z.pos m * 2 ^ e)
  else
    let d := (2 ^ (- e))%Z in
    let q := (Z.pos m / d)%Z in
    let r := (Z.pos m mod d)%Z in
    Z.to_N (match (2 * r ?= d)%Z with
            | Lt => q
            | Gt => q + 1
            | Eq => if Z.even q then q else q + 1
            end).

(** What [.0f] prints of a binary64 number: read off the decoded sign,
    mantissa and exponent.  [-0.0] keeps its sign. *)
Definition float_fixed0 (f : float) : fixed0 :=
  match Prim2SF f with
  | S754_zero s => Fixed s 0
  | S754_infinity s => Infinite s
  | S754_nan => NotANumber
  | S754_finite s m e => Fixed s (nearest_even m e)
  end.

#[export] Instance float_Num : Num float := {|
  flt := float_of_Z;
  nadd := PrimFloat.add;
  nsub := PrimFloat.sub;
  nmul := PrimFloat.mul;
  ndiv := PrimFloat.div;
  nneg := PrimFloat.opp;
  nsqrt := PrimFloat.sqrt;
  nltb := PrimFloat.ltb;
  nleb := PrimFloat.leb;
  neqb := PrimFloat.eqb;
  ntrunc := float_trunc;
  nfix0 := float_fixed0
|}.

(** ** The instance computes what Python computes *)
Example float_of_Z_small :
  (float_of_Z 0, float_of_Z 3, float_of_Z (-7), float_of_Z 255)
  = (0%float, 3%float, (-7)%float, 255%float).
Proof. vm_compute. reflexivity. Qed.

(** Above [2^53] the conversion rounds, as [float(2**53 + 1)] does. *)
Example float_of_Z_rounds :
  float_of_Z (2 ^ 53 + 1) = float_of_Z (2 ^ 53).
Proof. vm_compute. reflexivity. Qed.

(** [int] rounds toward zero on both sides. *)
Example float_trunc_toward_zero :
  (float_trunc (PrimFloat.div 37 10), float_trunc (PrimFloat.div (-37) 10),
   float_trunc (PrimFloat.div 1 2), float_trunc 250) = (3, -3, 0, 250)%Z.
Proof. vm_compute. reflexivity. Qed.

(** A literal of the source is the correctly rounded decimal: [dec] agrees
    with the parser of float literals on the source's constants. *)
Example dec_literals :
  (dec 125 3 : float) = 0x1p-3%float /\
  (dec 1 1 : float) = 0x1.999999999999ap-4%float /\
  (dec 2 1 : float) = 0x1.999999999999ap-3%float /\
  (dec 25 4 : float) = 0x1.47ae147ae147bp-9%float /\
  (dec 9 1 : float) = 0x1.ccccccccccccdp-1%float.
Proof. vm_compute. repeat split; reflexivity. Qed.

(** [.0f] rounds to the nearest integer and breaks ties toward the even
    one, as [format(0.5, '.0f') = '0'], [format(1.5, '.0f') = '2'] and
    [format(2.5, '.0f') = '2'] do; a negative number that rounds to zero
    keeps its sign. *)
Example float_fixed0_half_even :
  (float_fixed0 0x1p-1%float, float_fixed0 0x1.8p0%float, float_fixed0 0x1.4p1%float,
   float_fixed0 (PrimFloat.div 377 100), float_fixed0 (PrimFloat.div (-3) 10),
   float_fixed0 (PrimFloat.opp 0), float_fixed0 (float_of_Z 999))
  = (Fixed false 0, Fixed false 2, Fixed false 2,
     Fixed false 4, Fixed true 0, Fixed true 0, Fixed false 999).
Proof. vm_compute. reflexivity. Qed.

(** Infinities and NaN are printed as words. *)
Example float_fixed0_special :
  (float_fixed0 infinity, float_fixed0 neg_infinity, float_fixed0 nan)
  = (Infinite false, Infinite true, NotANumber).
Proof. vm_compute. reflexivity. Qed.

(** Division by zero is an exception, not an infinity. *)
Example float_truediv_zero :
  py_truediv (flt 1 : float) (flt 0) = Raise ZeroDivisionError.
Proof. vm_compute. reflexivity. Qed.

(** [-0.0] is a zero divisor too: [1 / -0.0] raises in Python. *)
Example float_truediv_neg_zero :
  py_truediv (flt 1 : float) (PrimFloat.opp 0) = Raise ZeroDivisionError.
Proof. vm_compute. reflexivity. Qed.
