(* ===== verification/NumReal.v ===== *)
(** * NumReal: exact real arithmetic

    The instance of [Numeric.Num] on the real numbers: the arithmetic in
    which the specification states fade fractions, unit vectors and the
    ranges of random draws.  Comparisons are the decisions of the order of
    [R]; [int(x)] is the floor of a non-negative number and the ceiling of a
    negative one; the format [.0f] prints the nearest integer, the even one
    on a tie.  The file gives the bridge lemmas from the boolean tests
    of the program to propositions of [R] (rewrite database [real]), the
    tactic [real] that unfolds the class operations so that [lra] and [nra]
    apply, and the lemmas on truncation and square root the components
    share. *)

From Stdlib Require Import ZArith Reals Lia Lra Zfloor.
From stdpp Require Import base decidable.
From S2P Require Import Prelude Numeric.

#[export] Instance Rlt_decision (x y : R) : Decision (x < y)%R := Rlt_dec x y.
#[export] Instance Rle_decision (x y : R) : Decision (x <= y)%R := Rle_dec x y.
#[export] Instance R_eq_decision : EqDecision R := Req_dec_T.

(** [int(x)] on a real: rounding toward zero. *)
Definition Rtrunc (x : R) : Z :=
  if decide (0 <= x)%R then Zfloor x else Zceil x.

(** The integer nearest to [x], the even one of the two when [x] lies
    half way. *)
Definition Rnearest_even (x : R) : Z :=
  let f := Zfloor x in
  if decide (x - IZR f < 1 / 2)%R then f
  else if decide (1 / 2 < x - IZR f)%R then (f + 1)%Z
  else if Z.even f then f else (f + 1)%Z.

(** What [.0f] prints of a real number: never a word. *)
Definition Rfixed0 (x : R) : fixed0 :=
  Fixed (bool_decide (x < 0)%R) (Z.to_N (Rnearest_even (Rabs x))).

#[export] Instance R_Num : Num R := {|
  flt := IZR;
  nadd := Rplus;
  nsub := Rminus;
  nmul := Rmult;
  ndiv := Rdiv;
  nneg := Ropp;
  nsqrt := sqrt;
  nltb := fun x y => bool_decide (x < y)%R;
  nleb := fun x y => bool_decide (x <= y)%R;
  neqb := fun x y => bool_decide (x = y);
  ntrunc := Rtrunc;
  nfix0 := Rfixed0
|}.

Create Rewrite HintDb real.

Section Bridge.
Local Open Scope R_scope.
Implicit Types x y : R.

Lemma nltb_true x y : nltb x y = true <-> x < y.
Proof. apply bool_decide_eq_true. Qed.

Lemma nltb_false x y : nltb x y = false <-> y <= x.
Proof. cbn. rewrite bool_decide_eq_false. lra. Qed.

Lemma nleb_true x y : nleb x y = true <-> x <= y.
Proof. apply bool_decide_eq_true. Qed.

Lemma nleb_false x y : nleb x y = false <-> y < x.
Proof. cbn. rewrite bool_decide_eq_false. lra. Qed.

Lemma neqb_true x y : neqb x y = true <-> x = y.
Proof. apply bool_decide_eq_true. Qed.

Lemma neqb_false x y : neqb x y = false <-> x <> y.
Proof. apply bool_decide_eq_false. Qed.

Lemma dec_real m e : dec m e = IZR m / IZR (10 ^ Z.of_nat e).
Proof. reflexivity. Qed.

Lemma truediv_real x y : y <> 0 -> py_truediv x y = Ok (x / y).
Proof.
  intros Hy. unfold py_truediv. cbn.
  rewrite bool_decide_eq_false_2 by assumption. reflexivity.
Qed.

Lemma truediv_real_zero x : py_truediv x 0 = Raise ZeroDivisionError.
Proof.
  unfold py_truediv. cbn. rewrite bool_decide_eq_true_2 by reflexivity. reflexivity.
Qed.

Lemma py_min_real x y : py_min x y = Rmin y x.
Proof.
  unfold py_min, Rmin. cbn. case_bool_decide; destruct (Rle_dec y x); lra.
Qed.

(** ** Division *)
Lemma Rdiv_between k c lo hi :
  0 < c -> lo * c <= k < hi * c -> lo <= k / c < hi.
Proof.
  intros Hc [Hlo Hhi].
  assert (E : k / c * c = k) by (field; lra).
  set (q := k / c) in *. clearbody q. subst k. split; nra.
Qed.

Lemma Rdiv_le_between k c lo hi :
  0 < c -> lo * c <= k <= hi * c -> lo <= k / c <= hi.
Proof.
  intros Hc [Hlo Hhi].
  assert (E : k / c * c = k) by (field; lra).
  set (q := k / c) in *. clearbody q. subst k. split; nra.
Qed.

Lemma Rmult_le_iff a b w : 0 < w -> (a * w <= b * w <-> a <= b).
Proof.
  intros Hw. split; [apply Rmult_le_reg_r, Hw |].
  intros Hab. apply Rmult_le_compat_r; lra.
Qed.

Lemma Rmult_lt_iff a b w : 0 < w -> (a * w < b * w <-> a < b).
Proof.
  intros Hw. split; [apply Rmult_lt_reg_r, Hw |].
  intros Hab. apply Rmult_lt_compat_r; lra.
Qed.

(** ** Truncation *)
Lemma Rtrunc_nonneg x : 0 <= x -> Rtrunc x = Zfloor x.
Proof. intros Hx. unfold Rtrunc. case_decide; [reflexivity | lra]. Qed.

Lemma Rtrunc_IZR z : Rtrunc (IZR z) = z.
Proof.
  unfold Rtrunc. case_decide; [apply ZfloorZ |].
  apply Zceil_eq. lra.
Qed.

Lemma Rtrunc_eq (z : Z) x : 0 <= IZR z <= x -> x < IZR z + 1 -> Rtrunc x = z.
Proof.
  intros Hz Hx. rewrite Rtrunc_nonneg by lra. apply Zfloor_eq. lra.
Qed.

Lemma Rtrunc_mono x y : x <= y -> (Rtrunc x <= Rtrunc y)%Z.
Proof.
  intros Hxy. unfold Rtrunc.
  destruct (decide (0 <= x)) as [Hx|Hx], (decide (0 <= y)) as [Hy|Hy].
  - apply Zfloor_le, Hxy.
  - exfalso. lra.
  - pose proof (Zceil_bound x) as Hc.
    assert (Zceil x < 1)%Z by (apply lt_IZR; lra).
    assert (0 <= Zfloor y)%Z by (apply Zfloor_lub; assumption).
    lia.
  - apply Zceil_le, Hxy.
Qed.

Lemma Rtrunc_lower x (n : Z) : 0 <= IZR n <= x -> (n <= Rtrunc x)%Z.
Proof.
  intros [Hn Hx]. rewrite Rtrunc_nonneg by lra. apply Zfloor_lub, Hx.
Qed.

Lemma Rtrunc_upper x (n : Z) : 0 <= x <= IZR n -> (Rtrunc x <= n)%Z.
Proof.
  intros [H0 Hx]. rewrite <- (Rtrunc_IZR n). apply Rtrunc_mono, Hx.
Qed.

Lemma Rtrunc_between x (lo hi : Z) :
  0 <= IZR lo <= x -> x < IZR hi + 1 -> (lo <= Rtrunc x <= hi)%Z.
Proof.
  intros Hlo Hhi. split; [apply Rtrunc_lower, Hlo |].
  rewrite Rtrunc_nonneg by lra. pose proof (Zfloor_bound x) as [Hf _].
  assert (Zfloor x < hi + 1)%Z; [| lia].
  apply lt_IZR. rewrite plus_IZR. lra.
Qed.

Lemma Rtrunc_bounds x (n : Z) : 0 <= x <= IZR n -> (0 <= Rtrunc x <= n)%Z.
Proof.
  intros Hx. split; [apply (Rtrunc_lower x 0); lra | apply Rtrunc_upper, Hx].
Qed.

(** ** Rounding to the nearest integer *)
Lemma Rnearest_even_close x : Rabs (IZR (Rnearest_even x) - x) <= 1 / 2.
Proof.
  unfold Rnearest_even. pose proof (Zfloor_bound x) as [Hlo Hhi].
  repeat case_decide; [| | destruct (Z.even _)]; rewrite ?plus_IZR;
    apply Rabs_le; lra.
Qed.

Lemma Rnearest_even_IZR z : Rnearest_even (IZR z) = z.
Proof.
  unfold Rnearest_even. rewrite ZfloorZ.
  case_decide; [reflexivity | lra].
Qed.

Lemma Rnearest_even_nonneg x : 0 <= x -> (0 <= Rnearest_even x)%Z.
Proof.
  intros Hx. assert (0 <= Zfloor x)%Z by (apply Zfloor_lub; exact Hx).
  unfold Rnearest_even. repeat case_decide; [| | destruct (Z.even _)]; lia.
Qed.

(** An integer is printed as it is. *)
Lemma Rfixed0_IZR z : Rfixed0 (IZR z) = Fixed (z <? 0)%Z (Z.abs_N z).
Proof.
  unfold Rfixed0. rewrite <- abs_IZR, Rnearest_even_IZR. f_equal; [| lia].
  destruct (Z.ltb_spec z 0).
  - apply bool_decide_eq_true_2, IZR_lt. assumption.
  - apply bool_decide_eq_false_2, Rle_not_lt, IZR_le. assumption.
Qed.

(** ** Square root *)
Lemma sqrt_sum_squares_pos x y : x <> 0 \/ y <> 0 -> 0 < sqrt (x * x + y * y).
Proof. intros Hxy. apply sqrt_lt_R0. nra. Qed.

Lemma sqrt_sum_squares_zero x y : sqrt (x * x + y * y) = 0 <-> x = 0 /\ y = 0.
Proof.
  split.
  - intros H0. apply sqrt_eq_0 in H0; nra.
  - intros [-> ->]. rewrite Rmult_0_l, Rplus_0_l. apply sqrt_0.
Qed.

Lemma sqrt_scaled x y k :
  0 <= k -> sqrt ((x * k) * (x * k) + (y * k) * (y * k)) = sqrt (x * x + y * y) * k.
Proof.
  intros Hk. replace ((x * k) * (x * k) + (y * k) * (y * k))
    with ((x * x + y * y) * (k * k)) by ring.
  rewrite sqrt_mult by nra. rewrite sqrt_square by assumption. reflexivity.
Qed.
End Bridge.

#[export] Hint Rewrite nltb_true nltb_false nleb_true nleb_false
  neqb_true neqb_false : real.

(** ** The tactic [real]

    Unfolds the Python-level operations and the class projections at the
    instance [R_Num], evaluates the powers of ten of decimal literals, and
    turns the boolean tests of the context into propositions of [R]. *)

Ltac real_literals :=
  repeat match goal with
  | |- context [IZR (10 ^ Z.of_nat ?n)] =>
      let v := eval vm_compute in (10 ^ Z.of_nat n)%Z in
      change (10 ^ Z.of_nat n)%Z with v
  | H : context [IZR (10 ^ Z.of_nat ?n)] |- _ =>
      let v := eval vm_compute in (10 ^ Z.of_nat n)%Z in
      change (10 ^ Z.of_nat n)%Z with v in H
  end.

Ltac real_tests :=
  repeat match goal with
  | H : nltb _ _ = true |- _ => apply nltb_true in H
  | H : nltb _ _ = false |- _ => apply nltb_false in H
  | H : nleb _ _ = true |- _ => apply nleb_true in H
  | H : nleb _ _ = false |- _ => apply nleb_false in H
  | H : neqb _ _ = true |- _ => apply neqb_true in H
  | H : neqb _ _ = false |- _ => apply neqb_false in H
  end.

Ltac real :=
  real_tests;
  unfold dec, pow2, py_int in *;
  cbn [flt nadd nsub nmul ndiv nneg nsqrt ntrunc nfix0 R_Num] in *;
  real_literals.
