(* ===== verification/Format.v ===== *)
(** * Format: the format specifications of the overlay text

    [on_draw] builds its text with
    ['{:,} particles, {:.0f}fps, {}x{}'.format(...)].  This file models the
    three replacement fields: [{}] on an [int] ([format_int]: the decimal
    digits, a minus sign in front of a negative number), [{:,}] on an [int]
    ([format_grouped]: the same digits with a comma before every group of
    three counted from the right) and [{:.0f}] on a number ([format_fixed0]:
    the nearest integer, ties to even, under the sign of the number, or
    [inf], [-inf], [nan]).

    The readers ([read_int], [read_fixed0], [expect]) are not code of the
    program: they are the inverse the round-trip theorems are stated with.
    Each reader consumes what its writer printed and stops at the first
    character that cannot continue the field, so the fields of a text can
    be read back one after the other. *)

From Stdlib Require Import ZArith NArith Lia Ascii DecimalString DecimalN Floats.
From stdpp Require Import base option strings.
From S2P Require Import Prelude Numeric NumFloat.

(** Appending to a literal text evaluates in this file. *)
#[local] Arguments String.append !_ _ / : simpl nomatch.

(** ** Writers *)

(** The decimal digits of a natural number, most significant first. *)
Definition str_N (n : N) : string := NilEmpty.string_of_uint (N.to_uint n).

Definition sign (negative : bool) : string := if negative then "-" else "".

(** [{}] on an [int]. *)
Definition format_int (n : Z) : string := sign (n <? 0)%Z +:+ str_N (Z.abs_N n).

(** A comma after every character that is followed by a positive multiple
    of three characters. *)
Fixpoint group3 (digits : string) : string :=
  match digits with
  | EmptyString => EmptyString
  | String c rest =>
      let n := String.length rest in
      String c (if bool_decide (n ≠ 0 ∧ n `mod` 3 = 0)%nat
                then String ","%char (group3 rest) else group3 rest)
  end.

(** [{:,}] on an [int]. *)
Definition format_grouped (n : Z) : string :=
  sign (n <? 0)%Z +:+ group3 (str_N (Z.abs_N n)).

(** The text of a number already rounded for [.0f]. *)
Definition str_fixed0 (x : fixed0) : string :=
  match x with
  | Fixed s m => sign s +:+ str_N m
  | Infinite s => sign s +:+ "inf"
  | NotANumber => "nan"
  end.

(** [{:.0f}] on a number. *)
Definition format_fixed0 {F : Type} `{Num F} (x : F) : string := str_fixed0 (nfix0 x).

(** ** Readers *)

Definition is_digit (c : ascii) : bool :=
  match c with
  | "0" | "1" | "2" | "3" | "4" | "5" | "6" | "7" | "8" | "9" => true
  | _ => false
  end%char.

Definition is_comma (c : ascii) : bool := Ascii.eqb c ","%char.

(** The characters a number of the given kind is written with. *)
Definition in_number (grouped : bool) (c : ascii) : bool :=
  is_digit c || (grouped && is_comma c).

(** The longest prefix of characters satisfying [p], and the rest. *)
Fixpoint span (p : ascii -> bool) (s : string) : string * string :=
  match s with
  | String c s' =>
      if p c then let '(a, b) := span p s' in (String c a, b)
      else (EmptyString, s)
  | EmptyString => (EmptyString, EmptyString)
  end.

(** Removes the commas. *)
Fixpoint ungroup (s : string) : string :=
  match s with
  | String c s' => if is_comma c then ungroup s' else String c (ungroup s')
  | EmptyString => EmptyString
  end.

(** Reads a natural number: at least one digit. *)
Definition read_N (grouped : bool) (s : string) : option (N * string) :=
  let '(field, rest) := span (in_number grouped) s in
  match ungroup field with
  | EmptyString => None
  | digits => d ← NilEmpty.uint_of_string digits; Some (N.of_uint d, rest)
  end.

Definition read_sign (s : string) : bool * string :=
  match s with
  | String c s' => if Ascii.eqb c "-"%char then (true, s') else (false, s)
  | EmptyString => (false, s)
  end.

Definition read_int (grouped : bool) (s : string) : option (Z * string) :=
  let '(negative, s1) := read_sign s in
  '(n, rest) ← read_N grouped s1;
  Some (if negative then (- Z.of_N n)%Z else Z.of_N n, rest).

(** Reads the given literal text. *)
Fixpoint expect (literal s : string) : option string :=
  match literal, s with
  | EmptyString, _ => Some s
  | String c literal', String c' s' =>
      if Ascii.eqb c c' then expect literal' s' else None
  | String _ _, EmptyString => None
  end.

Definition read_fixed0 (s : string) : option (fixed0 * string) :=
  match expect "nan" s with
  | Some rest => Some (NotANumber, rest)
  | None =>
      let '(negative, s1) := read_sign s in
      match expect "inf" s1 with
      | Some rest => Some (Infinite negative, rest)
      | None => '(m, rest) ← read_N false s1; Some (Fixed negative m, rest)
      end
  end.

(** ** Digit strings *)

Section Digits.
Implicit Types (s rest : string) (c : ascii) (p : ascii -> bool) (n : N).

(** Every character of [s] satisfies [p]. *)
Fixpoint all p s : bool :=
  match s with
  | String c s' => p c && all p s'
  | EmptyString => true
  end.

(** [rest] cannot continue a field written with the characters [p]. *)
Definition stops p rest : bool :=
  match rest with
  | String c _ => negb (p c)
  | EmptyString => true
  end.

Lemma digit_not_comma c : is_digit c = true -> is_comma c = false.
Proof. destruct c as [[] [] [] [] [] [] [] []]; first [discriminate | reflexivity]. Qed.

Lemma digit_not_letter c :
  is_digit c = true ->
  Ascii.eqb c "-"%char = false /\ Ascii.eqb "n"%char c = false /\ Ascii.eqb "i"%char c = false.
Proof. destruct c as [[] [] [] [] [] [] [] []]; first [discriminate | repeat split]. Qed.

Lemma string_of_uint_digits d : all is_digit (NilEmpty.string_of_uint d) = true.
Proof. induction d; cbn; auto. Qed.

Lemma to_uint_nonnil n : N.to_uint n ≠ Decimal.Nil.
Proof.
  intros Hn. pose proof (Unsigned.of_to n) as Hof. rewrite Hn in Hof.
  subst n. discriminate Hn.
Qed.

(** The digits of a number: a digit followed by digits. *)
Lemma str_N_digits n :
  exists c s, str_N n = String c s /\ is_digit c = true /\ all is_digit s = true.
Proof.
  unfold str_N. pose proof (string_of_uint_digits (N.to_uint n)) as Hall.
  pose proof (to_uint_nonnil n) as Hnil.
  destruct (N.to_uint n); try congruence; cbn in *; eauto.
Qed.

Lemma str_N_all n : all is_digit (str_N n) = true.
Proof. apply string_of_uint_digits. Qed.

(** Reading the digits back gives the number. *)
Lemma uint_of_str_N n :
  N.of_uint <$> NilEmpty.uint_of_string (str_N n) = Some n.
Proof. unfold str_N. rewrite NilEmpty.usu. cbn. f_equal. apply Unsigned.of_to. Qed.

Lemma span_app p s rest :
  all p s = true -> stops p rest = true -> span p (s +:+ rest) = (s, rest).
Proof.
  intros Hs Hr. induction s as [|c s IH]; cbn in *.
  - destruct rest as [|c r]; cbn in *; [reflexivity |].
    destruct (p c); [discriminate | reflexivity].
  - apply andb_prop in Hs as [-> Hs]. rewrite (IH Hs). reflexivity.
Qed.

Lemma all_weaken p q s :
  (forall c, p c = true -> q c = true) -> all p s = true -> all q s = true.
Proof.
  intros Hpq. induction s as [|c s IH]; cbn; [reflexivity |].
  intros [Hc Hs]%andb_prop. rewrite (Hpq c Hc). auto.
Qed.

(** Grouping adds commas only, and removing them gives the digits back. *)
Lemma group3_in_number s :
  all is_digit s = true -> all (in_number true) (group3 s) = true.
Proof.
  induction s as [|c s IH]; cbn; [reflexivity |].
  intros [Hc Hs]%andb_prop. unfold in_number at 1. rewrite Hc. cbn.
  case_bool_decide; cbn; auto.
Qed.

Lemma ungroup_group3 s : all is_digit s = true -> ungroup (group3 s) = s.
Proof.
  induction s as [|c s IH]; cbn; [reflexivity |].
  intros [Hc Hs]%andb_prop. rewrite (digit_not_comma c Hc).
  case_bool_decide; cbn; rewrite (IH Hs); reflexivity.
Qed.

Lemma ungroup_digits s : all is_digit s = true -> ungroup s = s.
Proof.
  induction s as [|c s IH]; cbn; [reflexivity |].
  intros [Hc Hs]%andb_prop. rewrite (digit_not_comma c Hc), (IH Hs). reflexivity.
Qed.
End Digits.

(** ** Every reader inverts its writer *)

Section RoundTrips.
Implicit Types (s rest : string) (n : N) (z : Z) (x : fixed0).

(** A field written as [field], whose characters are those of a number
    and which is the digits of [n] once the commas are removed, is read
    back as [n]. *)
Lemma read_N_field grouped field n rest :
  all (in_number grouped) field = true -> ungroup field = str_N n ->
  stops (in_number grouped) rest = true ->
  read_N grouped (field +:+ rest) = Some (n, rest).
Proof.
  intros Hall Hun Hr. unfold read_N. rewrite (span_app _ _ _ Hall Hr), Hun.
  pose proof (uint_of_str_N n) as Hn.
  destruct (str_N_digits n) as (c & s & Hs & _). rewrite Hs in *.
  destruct (NilEmpty.uint_of_string _); [| discriminate].
  cbn in *. congruence.
Qed.

Lemma read_N_str n rest :
  stops (in_number false) rest = true ->
  read_N false (str_N n +:+ rest) = Some (n, rest).
Proof.
  apply read_N_field; [| apply ungroup_digits, str_N_all].
  eapply all_weaken, str_N_all. intros c Hc. unfold in_number. rewrite Hc. reflexivity.
Qed.

Lemma read_N_grouped n rest :
  stops (in_number true) rest = true ->
  read_N true (group3 (str_N n) +:+ rest) = Some (n, rest).
Proof.
  apply read_N_field; [apply group3_in_number | apply ungroup_group3]; apply str_N_all.
Qed.

(** Reading the sign in front of a field that starts with a digit. *)
Lemma read_sign_field b c s :
  is_digit c = true -> read_sign (sign b +:+ String c s) = (b, String c s).
Proof.
  intros Hc. destruct b; [reflexivity |]. cbn.
  destruct (digit_not_letter c Hc) as [-> _]. reflexivity.
Qed.

Lemma group3_head c s : exists s', group3 (String c s) = String c s'.
Proof. cbn. eauto. Qed.

Lemma sign_abs z : (if (z <? 0)%Z then (- Z.of_N (Z.abs_N z))%Z else Z.of_N (Z.abs_N z)) = z.
Proof. destruct (Z.ltb_spec z 0); lia. Qed.

Lemma app_assoc_sign b s rest : (sign b +:+ s) +:+ rest = sign b +:+ (s +:+ rest).
Proof. destruct b; reflexivity. Qed.

Lemma read_int_format z rest :
  stops (in_number false) rest = true ->
  read_int false (format_int z +:+ rest) = Some (z, rest).
Proof.
  intros Hr. unfold read_int, format_int. rewrite app_assoc_sign.
  destruct (str_N_digits (Z.abs_N z)) as (c & s & Hs & Hc & _).
  pose proof (read_N_str (Z.abs_N z) rest Hr) as Hread. rewrite Hs in *. cbn [String.append].
  rewrite (read_sign_field _ c _ Hc). cbn [String.append] in Hread. rewrite Hread.
  cbn. rewrite sign_abs. reflexivity.
Qed.

Lemma app_empty s : s +:+ "" = s.
Proof. induction s as [|c s IH]; cbn; [| rewrite IH]; reflexivity. Qed.

Lemma read_int_format_end z : read_int false (format_int z) = Some (z, "").
Proof. rewrite <- (app_empty (format_int z)) at 1. apply read_int_format. reflexivity. Qed.

Lemma read_int_grouped z rest :
  stops (in_number true) rest = true ->
  read_int true (format_grouped z +:+ rest) = Some (z, rest).
Proof.
  intros Hr. unfold read_int, format_grouped. rewrite app_assoc_sign.
  destruct (str_N_digits (Z.abs_N z)) as (c & s & Hs & Hc & _).
  pose proof (read_N_grouped (Z.abs_N z) rest Hr) as Hread. rewrite Hs in *.
  destruct (group3_head c s) as [s' Hg]. rewrite Hg in *. cbn [String.append] in *.
  rewrite (read_sign_field _ c _ Hc), Hread.
  cbn. rewrite sign_abs. reflexivity.
Qed.

Lemma expect_app literal rest : expect literal (literal +:+ rest) = Some rest.
Proof.
  induction literal as [|c l IH]; cbn; [destruct rest; reflexivity |].
  rewrite Ascii.eqb_refl. exact IH.
Qed.

Lemma expect_mismatch c literal c' s :
  Ascii.eqb c c' = false -> expect (String c literal) (String c' s) = None.
Proof. cbn [expect]. intros ->. reflexivity. Qed.

Lemma read_fixed0_str x rest :
  stops (in_number false) rest = true ->
  read_fixed0 (str_fixed0 x +:+ rest) = Some (x, rest).
Proof.
  intros Hr. destruct x as [b m | [] |]; try reflexivity.
  unfold read_fixed0, str_fixed0. rewrite app_assoc_sign.
  destruct (str_N_digits m) as (c & s & Hs & Hc & _).
  pose proof (read_N_str m rest Hr) as Hread. rewrite Hs in *. cbn [String.append] in *.
  destruct (digit_not_letter c Hc) as (Hm & Hn & Hi).
  replace (expect "nan" (sign b +:+ String c (s +:+ rest))) with (@None string)
    by (symmetry; destruct b; apply expect_mismatch; [reflexivity | exact Hn]).
  rewrite (read_sign_field _ c _ Hc), (expect_mismatch _ _ _ _ Hi), Hread. reflexivity.
Qed.
End RoundTrips.

(** ** The writers on concrete numbers *)

(** The grouping of [{:,}]: no comma up to 999, one from 1,000 on, and a
    minus sign stays in front. *)
Example format_grouped_examples :
  (format_grouped 0, format_grouped 999, format_grouped 1000,
   format_grouped 29, format_grouped 1234567, format_grouped (-1234))
  = ("0", "999", "1,000", "29", "1,234,567", "-1,234").
Proof. vm_compute. reflexivity. Qed.

Example format_int_examples :
  (format_int 0, format_int 800, format_int 1280, format_int (-5))
  = ("0", "800", "1280", "-5").
Proof. vm_compute. reflexivity. Qed.

(** [.0f] in binary64: [1 / 0.016] is exactly 62.5 and is printed as 62,
    the even neighbour; a sixtieth of a second gives 60; the number 999
    shown for a zero frame time is printed as it is. *)
Example format_fixed0_examples :
  (format_fixed0 (ndiv (flt 1) (dec 16 3) : float),
   format_fixed0 (ndiv (flt 1) (ndiv (flt 1) (flt 60)) : float),
   format_fixed0 (flt 999 : float),
   format_fixed0 (ndiv (flt 1) (dec 1 2) : float),
   format_fixed0 (nneg (dec 3 1) : float))
  = ("62", "60", "999", "100", "-0").
Proof. vm_compute. reflexivity. Qed.
