(* ===== verification/Random.v ===== *)
(** * Random: the draws of Python's [random] module

    [particle.py] and [__main__.py] call [random()], [randint(a, b)] and
    [choice(seq)].  The module is CPython's, not the repository's, so it is
    modelled from its contract: [random()] is 53 random bits divided by
    [2^53]; [randint(a, b)] is [a + _randbelow(b - a + 1)], both ends
    included; [choice(seq)] is [seq[_randbelow(len(seq))]].  The generator
    is abstract: [RandomSource G] gives the two primitive draws on a state
    [G] and [RandomSourceLaws] their ranges.  [tape] is a lawful generator
    that replays a list of integers; every run of the real generator is the
    run of some tape.  On the tape, [takes m n] says that the computation
    [m] makes [n] primitive draws. *)

From Stdlib Require Import ZArith Reals Lia Lra.
From stdpp Require Import base list.
From S2P Require Import Prelude Numeric NumReal.

Class RandomSource (G : Type) : Type := {
  (** the 53 bits [random()] consumes *)
  getrandbits53 : G -> Z * G;
  (** [_randbelow(n)] for [n > 0] *)
  randbelow : Z -> G -> Z * G
}.

Class RandomSourceLaws (G : Type) `{RandomSource G} : Prop := {
  getrandbits53_range : forall g, (0 <= fst (getrandbits53 g) < 2 ^ 53)%Z;
  randbelow_range : forall n g, (0 < n)%Z -> (0 <= fst (randbelow n g) < n)%Z
}.

Section Draws.
Context {F : Type} `{Num F} {G : Type} `{RandomSource G}.

(** [random()]: a float in [[0, 1)]. *)
Definition random : rand G F :=
  draw (fun g => let '(k, g') := getrandbits53 g in
                 (ndiv (flt k) (flt (2 ^ 53)), g')).

(** [randint(a, b)]: an integer in [[a, b]], both ends included. *)
Definition randint (a b : Z) : rand G Z :=
  draw (fun g => let '(k, g') := randbelow (b - a + 1) g in ((a + k)%Z, g')).

(** [choice(seq)]: [IndexError] on an empty sequence. *)
Definition choice {A} (seq : list A) : rand G A :=
  if decide (seq = []) then lift (Raise IndexError)
  else k ← draw (randbelow (Z.of_nat (length seq)));
       match seq !! Z.to_nat k with
       | Some x => mret x
       | None => lift (Raise IndexError)
       end.
End Draws.

(** ** A generator that replays a tape *)

Definition tape : Type := list Z.

Definition tape_next (t : tape) : Z * tape :=
  match t with
  | [] => (0%Z, [])
  | k :: t' => (k, t')
  end.

#[export] Instance tape_source : RandomSource tape := {|
  getrandbits53 t := let '(k, t') := tape_next t in ((k mod 2 ^ 53)%Z, t');
  randbelow n t := let '(k, t') := tape_next t in ((k mod n)%Z, t')
|}.

#[export] Instance tape_laws : RandomSourceLaws tape.
Proof.
  split.
  - intros g. cbn. destruct (tape_next g) as [k t']. cbn.
    apply Z.mod_pos_bound. lia.
  - intros n g Hn. cbn. destruct (tape_next g) as [k t']. cbn.
    apply Z.mod_pos_bound, Hn.
Qed.

(** ** The draws never raise and stay in range *)

Section DrawFacts.
Context {F : Type} `{Num F} {G : Type} `{RandomSourceLaws G}.
Implicit Types (g : G) (a b : Z).

Lemma random_total g :
  run (random (F:=F)) g =
  Ok (ndiv (flt (fst (getrandbits53 g))) (flt (2 ^ 53)), snd (getrandbits53 g)).
Proof. unfold random. rewrite run_draw. destruct (getrandbits53 g); reflexivity. Qed.

Lemma randint_total a b g :
  run (randint a b) g =
  Ok ((a + fst (randbelow (b - a + 1) g))%Z, snd (randbelow (b - a + 1) g)).
Proof. unfold randint. rewrite run_draw. destruct (randbelow _ g); reflexivity. Qed.

Lemma random_raises_only E : raises_only (random (F:=F) (G:=G)) E.
Proof. apply raises_only_draw. Qed.

Lemma randint_raises_only a b E : raises_only (randint (G:=G) a b) E.
Proof. apply raises_only_draw. Qed.

Lemma random_is_total : total (random (F:=F) (G:=G)).
Proof. apply total_draw. Qed.

Lemma randint_is_total a b : total (randint (G:=G) a b).
Proof. apply total_draw. Qed.

Lemma randint_range a b g n g' :
  (a <= b)%Z -> run (randint a b) g = Ok (n, g') -> (a <= n <= b)%Z.
Proof.
  intros Hab. rewrite randint_total. intros [= <- _].
  pose proof (randbelow_range (b - a + 1) g ltac:(lia)). lia.
Qed.

Lemma choice_In {A} (seq : list A) g x g' :
  run (choice seq) g = Ok (x, g') -> x ∈ seq.
Proof.
  unfold choice. case_decide; [discriminate |].
  rewrite run_bind, run_draw. destruct (randbelow _ g) as [k g1].
  destruct (seq !! Z.to_nat k) as [y|] eqn:Hk; [| discriminate].
  rewrite run_ret. intros [= <- _]. eapply list_elem_of_lookup_2, Hk.
Qed.

Lemma choice_total {A} (seq : list A) g :
  seq <> [] -> exists x g', run (choice seq) g = Ok (x, g').
Proof.
  intros Hne. unfold choice. case_decide; [done |].
  rewrite run_bind, run_draw.
  pose proof (randbelow_range (Z.of_nat (length seq)) g) as Hr.
  destruct (randbelow _ g) as [k g1]. cbn in Hr.
  assert (0 < length seq)%nat by (destruct seq; [done | cbn; lia]).
  destruct (lookup_lt_is_Some_2 seq (Z.to_nat k)) as [x Hx]; [lia |].
  rewrite Hx, run_ret. eauto.
Qed.
End DrawFacts.

#[export] Hint Resolve random_raises_only randint_raises_only
  random_is_total randint_is_total : fw.

(** Replace every successful [randint] draw of the context by its range. *)
Ltac randint_ranges :=
  repeat match goal with
  | H : run (randint ?a ?b) ?g = Ok (?n, ?g') |- _ =>
      let R := fresh "R" in
      assert (R : (a <= n <= b)%Z)
        by (apply (randint_range a b g n g'); [lia | exact H]);
      clear H
  end.

(** ** [random()] over the reals lies in [[0, 1)] *)

Section RealDraws.
Context {G : Type} `{RandomSourceLaws G}.
Local Open Scope R_scope.

Lemma random_range (g g' : G) (x : R) :
  run random g = Ok (x, g') -> 0 <= x < 1.
Proof.
  rewrite random_total. intros [= <- _].
  pose proof (getrandbits53_range g) as [Hlo Hhi].
  apply IZR_le in Hlo. apply IZR_lt in Hhi. real.
  apply Rdiv_between; [apply IZR_lt; lia | lra].
Qed.

Lemma random_post : post (random (F:=R) (G:=G)) (fun x => 0 <= x < 1).
Proof. intros g x g'. apply random_range. Qed.
End RealDraws.

(** Replace every successful [random()] draw of the context by its range,
    over the reals. *)
Ltac random_ranges :=
  repeat match goal with
  | H : run random ?g = Ok (?x, ?g') |- _ =>
      apply random_range in H
  end.

(** ** Every value of the range is drawn by some tape *)
Lemma randint_tape (a b k : Z) (t : tape) :
  run (randint a b) (k :: t) = Ok ((a + k mod (b - a + 1))%Z, t).
Proof. reflexivity. Qed.

Lemma randint_onto (a b n : Z) :
  (a <= n <= b)%Z -> exists t : tape, run (randint a b) t = Ok (n, []).
Proof.
  intros Hn. exists [(n - a)%Z]. rewrite randint_tape.
  rewrite Z.mod_small by lia. do 2 f_equal. lia.
Qed.

Lemma random_tape {F} `{Num F} (k : Z) (t : tape) :
  run (random (F:=F)) (k :: t) = Ok (ndiv (flt (k mod 2 ^ 53)) (flt (2 ^ 53)), t).
Proof. reflexivity. Qed.

(** ** How many numbers a computation takes from the tape

    On the tape every primitive draw takes one number (an exhausted tape
    stays exhausted), so the state a computation leaves the generator in
    says how many draws it made. *)

Definition takes {A} (m : rand tape A) (n : nat) : Prop :=
  forall g a g', run m g = Ok (a, g') -> g' = drop n g.

Section Takes.
Context {F : Type} `{Num F}.

Lemma tape_next_drop (g : tape) : snd (tape_next g) = drop 1 g.
Proof. destruct g; reflexivity. Qed.

Lemma takes_ret {A} (a : A) : takes (mret a) 0.
Proof. intros g a' g'. rewrite run_ret. intros [= _ <-]. reflexivity. Qed.

Lemma takes_silent {A} (m : rand tape A) : silent m -> takes m 0.
Proof. intros Hm g a g' Hrun. rewrite (Hm _ _ _ Hrun). reflexivity. Qed.

Lemma takes_random : takes (random (F:=F)) 1.
Proof.
  intros g x g'. unfold random. rewrite run_draw. cbn.
  rewrite <- tape_next_drop. destruct (tape_next g). intros [= _ <-]. reflexivity.
Qed.

Lemma takes_randint a b : takes (randint a b) 1.
Proof.
  intros g x g'. unfold randint. rewrite run_draw. cbn.
  rewrite <- tape_next_drop. destruct (tape_next g). intros [= _ <-]. reflexivity.
Qed.

Lemma takes_bind {A B} (m : rand tape A) (k : A -> rand tape B) n1 n2 :
  takes m n1 -> (forall a, takes (k a) n2) -> takes (m ≫= k) (n1 + n2).
Proof.
  intros Hm Hk g b g2 (a & g1 & Ha & Hb)%run_bind_Ok_inv.
  rewrite (Hk a _ _ _ Hb), (Hm _ _ _ Ha), drop_drop. reflexivity.
Qed.

Lemma takes_choice {A} (seq : list A) : takes (choice seq) 1.
Proof.
  intros g x g'. unfold choice. case_decide; [discriminate |].
  rewrite run_bind, run_draw. cbn. rewrite <- tape_next_drop.
  destruct (tape_next g) as [k g1]. cbn.
  destruct (seq !! _); [| discriminate]. rewrite run_ret. intros [= _ <-]. reflexivity.
Qed.

(** A traversal takes what its steps take, added up. *)
Lemma takes_mapM {A B} (f : A -> rand tape B) (c : A -> nat) (l : list A) :
  (forall x, takes (f x) (c x)) -> takes (mapM f l) (sum_list (c <$> l)).
Proof.
  intros Hf. induction l as [|x l IH]; cbn [mapM fmap list_fmap sum_list];
    [apply takes_ret |].
  apply takes_bind; [apply Hf | intros b].
  rewrite <- (Nat.add_0_r (sum_list _)).
  apply takes_bind; [exact IH | intros bs; apply takes_ret].
Qed.

Lemma takes_repeatM {A} (m : rand tape A) (c n : nat) :
  takes m c -> takes (repeatM n m) (n * c).
Proof.
  intros Hm. induction n as [|n IH]; cbn [repeatM Nat.mul]; [apply takes_ret |].
  apply takes_bind; [exact Hm | intros a].
  rewrite <- (Nat.add_0_r (n * c)).
  apply takes_bind; [exact IH | intros l; apply takes_ret].
Qed.
End Takes.
