(* ===== verification/Vec2.v ===== *)
(** * Vec2: the 2D vector class ([particle.py], class [Vec2])

    A vector is a record of two numbers.  Each operator of the class is one
    definition of [Module Vec2]; the right operand of a binary operator is a
    value of [operand], the three kinds of object the [isinstance] guards
    tell apart, so that the [TypeError] branch of each guard is part of the
    model.  [truediv] inherits [ZeroDivisionError] from [1/other].
    Division by the literals [2] and [3] in [screen_space] cannot fail and is
    written with [ndiv].  [Window] is the part of the pyglet window the
    simulation reads: its integer width and height.

    The first section holds what is true in every arithmetic (which branch
    is taken, what is raised, shapes); the section [Real] holds the algebra
    and geometry of the operators over the real numbers. *)

From Stdlib Require Import ZArith Reals Lia Lra Floats.
From stdpp Require Import base list.
From S2P Require Import Prelude Numeric NumReal NumFloat.

(** The window as the simulation sees it: pyglet's [width] and [height],
    which are integers (pixels). *)
Record Window : Set := { width : Z; height : Z }.

(** [fireworks.util.flatten]: one level of nesting removed. *)
Definition flatten {A} (l : list (list A)) : list A := concat l.

Module Vec2.
Section Generic.
Context {F : Type} `{Num F}.
Local Open Scope num_scope.

Record t : Type := mk { x : F; y : F }.

(** What a right operand can be: a number ([int] or [float]), a [Vec2], or
    any other object. *)
Inductive operand : Type :=
| ONum (k : F)
| OVec (v : t)
| OOther.

(** [__add__] *)
Definition add (self : t) (other : operand) : result t :=
  match other with
  | OVec o => Ok (mk (x self + x o) (y self + y o))
  | _ => Raise TypeError
  end.

(** [__neg__] *)
Definition neg (self : t) : t := mk (- x self) (- y self).

(** [__sub__] *)
Definition sub (self : t) (other : operand) : result t :=
  match other with
  | OVec o => add self (OVec (neg o))
  | _ => Raise TypeError
  end.

(** [__mul__] *)
Definition mul (self : t) (other : operand) : result t :=
  match other with
  | ONum k => Ok (mk (x self * k) (y self * k))
  | _ => Raise TypeError
  end.

(** [__truediv__]: [self * (1/other)].  [1/other] is a [TypeError] unless
    [other] is a number, and a [ZeroDivisionError] when it is zero. *)
Definition truediv (self : t) (other : operand) : result t :=
  match other with
  | ONum k => inv ← py_truediv (flt 1) k; mul self (ONum inv)
  | _ => Raise TypeError
  end.

(** [length] *)
Definition length (self : t) : F :=
  nsqrt (pow2 (x self) + pow2 (y self)).

(** [normalised] *)
Definition normalised (self : t) : result t :=
  truediv self (ONum (length self)).

(** [clone] *)
Definition clone (self : t) : t := mk (x self) (y self).

(** [screen_space]: the pair of pixel coordinates. *)
Definition screen_space (self : t) (window : Window) : F * F :=
  let w := flt (width window) in
  (ndiv (x self * w) (flt 2) + ndiv w (flt 2),
   y self * (ndiv w (flt 3) * flt 2)).

(** The default of [as_tri]'s parameter [size]. *)
Definition default_size : F := dec 25 4.

(** [as_tri]: the six coordinates of the triangle drawn for a point. *)
Definition as_tri (self : t) (window : Window) (size : F) : result (list F) :=
  a ← add self (OVec (mk (flt 0) size));
  b ← add self (OVec (mk size (- size)));
  c ← add self (OVec (mk (- size) (- size)));
  let pair '(u, v) := [u; v] in
  Ok (flatten [pair (screen_space a window);
               pair (screen_space b window);
               pair (screen_space c window)]).

(** ** Branches and exceptions, in every arithmetic *)

Implicit Types (v w : t) (o : operand) (k : F).

Lemma eta v : mk (x v) (y v) = v.
Proof. destruct v; reflexivity. Qed.

Lemma clone_eq v : clone v = v.
Proof. apply eta. Qed.

Lemma add_Ok_inv v o r :
  add v o = Ok r -> exists w, o = OVec w /\ r = mk (x v + x w) (y v + y w).
Proof. destruct o; simpl; intros [= <-] || intros [=]; eauto. Qed.

Lemma add_raises v o e :
  add v o = Raise e <-> e = TypeError /\ forall w, o <> OVec w.
Proof.
  destruct o; simpl; split; try (intros [= <-]; split; [done | congruence]);
    try (intros [-> _]; done); try discriminate.
  intros [_ Hw]. destruct (Hw _ eq_refl).
Qed.

Lemma mul_raises v o e :
  mul v o = Raise e <-> e = TypeError /\ forall k, o <> ONum k.
Proof.
  destruct o; simpl; split; try (intros [= <-]; split; [done | congruence]);
    try (intros [-> _]; done); try discriminate.
  intros [_ Hk]. destruct (Hk _ eq_refl).
Qed.

Lemma sub_add_neg v w : sub v (OVec w) = add v (OVec (neg w)).
Proof. reflexivity. Qed.

Lemma truediv_num v k :
  truediv v (ONum k) =
  if k =? flt 0 then Raise ZeroDivisionError
  else Ok (mk (x v * ndiv (flt 1) k) (y v * ndiv (flt 1) k)).
Proof. unfold truediv, py_truediv. destruct (k =? flt 0); reflexivity. Qed.

(** [normalised] raises exactly when the length tests equal to zero, and
    what it raises is [ZeroDivisionError]. *)
Lemma normalised_raises v e :
  normalised v = Raise e <->
  (length v =? flt 0) = true /\ e = ZeroDivisionError.
Proof.
  unfold normalised. rewrite truediv_num.
  destruct (length v =? flt 0); split; try discriminate.
  - intros [= <-]. auto.
  - intros [_ ->]. reflexivity.
  - intros [[=] _].
Qed.

Lemma normalised_Ok v :
  (length v =? flt 0) = false ->
  normalised v =
  Ok (mk (x v * ndiv (flt 1) (length v)) (y v * ndiv (flt 1) (length v))).
Proof. intros Hl. unfold normalised. rewrite truediv_num, Hl. reflexivity. Qed.

(** [as_tri] never raises and yields six coordinates: apex, right base
    corner, left base corner. *)
Lemma as_tri_Ok v win size :
  as_tri v win size =
  Ok [fst (screen_space (mk (x v + flt 0) (y v + size)) win);
      snd (screen_space (mk (x v + flt 0) (y v + size)) win);
      fst (screen_space (mk (x v + size) (y v + - size)) win);
      snd (screen_space (mk (x v + size) (y v + - size)) win);
      fst (screen_space (mk (x v + - size) (y v + - size)) win);
      snd (screen_space (mk (x v + - size) (y v + - size)) win)].
Proof. reflexivity. Qed.
End Generic.

Arguments t F : clear implicits.
Arguments operand F : clear implicits.

(** ** Algebra and geometry over the real numbers *)

Section Real.
Local Open Scope R_scope.
Implicit Types (v w u : t R) (k : R) (win : Window).

(** Unfold the vector operations down to real arithmetic. *)
Ltac vec :=
  unfold normalised, truediv, length, screen_space, neg, clone in *;
  cbn [add sub mul x y fst snd] in *; real.

Lemma ext v w : x v = x w -> y v = y w -> v = w.
Proof. destruct v, w; cbn; intros -> ->; reflexivity. Qed.

Lemma length_eq v : length v = R_sqrt.sqrt (x v * x v + y v * y v).
Proof. reflexivity. Qed.

Lemma length_nonneg v : 0 <= length v.
Proof. rewrite length_eq. apply sqrt_pos. Qed.

Lemma length_le v b : 0 <= b -> x v * x v + y v * y v <= b * b -> length v <= b.
Proof.
  intros Hb Hs. rewrite length_eq, <- (sqrt_square b Hb).
  apply sqrt_le_1_alt, Hs.
Qed.

Lemma length_zero_iff v : length v = 0 <-> x v = 0 /\ y v = 0.
Proof. rewrite length_eq. apply sqrt_sum_squares_zero. Qed.

Lemma length_pos v : x v <> 0 \/ y v <> 0 -> 0 < length v.
Proof. rewrite length_eq. apply sqrt_sum_squares_pos. Qed.

Lemma length_mul v k :
  0 <= k -> length (mk (x v * k) (y v * k)) = length v * k.
Proof. intros Hk. rewrite !length_eq. cbn [x y]. apply sqrt_scaled, Hk. Qed.

Lemma length_neg v : length (neg v) = length v.
Proof. rewrite !length_eq. cbn. f_equal. ring. Qed.

Lemma length_mul_neg v k :
  0 <= k -> length (mk (- x v * k) (- y v * k)) = length v * k.
Proof. intros Hk. rewrite <- (length_neg v). exact (length_mul (neg v) k Hk). Qed.

Lemma add_comm v w : add v (OVec w) = add w (OVec v).
Proof. cbn. f_equal. apply ext; cbn; ring. Qed.

Lemma add_neg_cancel v : add v (OVec (neg v)) = Ok (mk 0 0).
Proof. cbn. f_equal. apply ext; cbn; ring. Qed.

Lemma sub_self v : sub v (OVec v) = Ok (mk 0 0).
Proof. apply add_neg_cancel. Qed.

Lemma neg_involutive v : neg (neg v) = v.
Proof. apply ext; cbn; ring. Qed.

Lemma truediv_real_num v k :
  k <> 0 -> truediv v (ONum k) = Ok (mk (x v / k) (y v / k)).
Proof.
  intros Hk. rewrite truediv_num.
  destruct (k =? flt 0)%num eqn:E; real; [contradiction |].
  f_equal. apply ext; cbn; field; assumption.
Qed.

Lemma normalised_real v :
  x v <> 0 \/ y v <> 0 ->
  normalised v = Ok (mk (x v / length v) (y v / length v)).
Proof.
  intros Hv. apply truediv_real_num.
  pose proof (length_pos v Hv). lra.
Qed.

Lemma normalised_zero : normalised (mk 0 0) = Raise ZeroDivisionError.
Proof.
  apply normalised_raises. split; [| reflexivity].
  apply neqb_true, length_zero_iff. auto.
Qed.

Lemma normalised_Ok_inv v r :
  normalised v = Ok r ->
  (x v <> 0 \/ y v <> 0) /\ r = mk (x v / length v) (y v / length v).
Proof.
  intros Hr.
  destruct (Req_dec_T (x v) 0) as [Hx|Hx], (Req_dec_T (y v) 0) as [Hy|Hy];
    try (rewrite normalised_real in Hr by auto; injection Hr as <-; auto).
  destruct v as [a b]; cbn in Hx, Hy; subst.
  rewrite normalised_zero in Hr. discriminate.
Qed.

(** Over the reals, [normalised] raises [ZeroDivisionError] exactly on the
    zero vector (and raises nothing else). *)
Lemma normalised_raises_iff v e :
  normalised v = Raise e <-> v = mk 0 0 /\ e = ZeroDivisionError.
Proof.
  rewrite normalised_raises, neqb_true.
  change (flt 0) with 0. rewrite length_zero_iff.
  split; intros [Hv ->]; (split; [| reflexivity]).
  - apply ext; cbn; tauto.
  - subst v. cbn. auto.
Qed.

(** Whenever [normalised] returns, the vector it returns has length 1 and
    the original is that vector scaled by the original length. *)
Lemma normalised_unit v r :
  normalised v = Ok r ->
  length r = 1 /\ x v = x r * length v /\ y v = y r * length v.
Proof.
  intros [Hv ->]%normalised_Ok_inv.
  pose proof (length_pos v Hv) as Hl.
  assert (Hi : 0 <= / length v) by (apply Rlt_le, Rinv_0_lt_compat, Hl).
  split; [| cbn [x y]; split; field; lra].
  unfold Rdiv. rewrite length_mul by exact Hi. field. lra.
Qed.

(** C19: over the reals, [normalised] has exactly two outcomes: on the zero
    vector it raises [ZeroDivisionError]; on any other vector it returns
    the vector of length 1 with the same direction. *)
Theorem normalised_spec v :
  (v = mk 0 0 /\ normalised v = Raise ZeroDivisionError) \/
  (v <> mk 0 0 /\ exists r, normalised v = Ok r /\ length r = 1 /\
     0 < length v /\ x v = x r * length v /\ y v = y r * length v).
Proof.
  destruct (normalised v) as [r|e] eqn:Hn.
  - right. pose proof (normalised_unit v r Hn) as Hu.
    apply normalised_Ok_inv in Hn as [Hv ->].
    split; [intros ->; cbn in Hv; tauto |].
    eexists; split; [reflexivity |]. pose proof (length_pos v Hv). tauto.
  - left. apply normalised_raises_iff in Hn as [-> ->]. auto.
Qed.

(** ** The screen projection *)
Lemma screen_space_real v win :
  screen_space v win =
  ((x v + 1) * IZR (width win) / 2, y v * IZR (width win) * 2 / 3).
Proof. unfold screen_space. real. f_equal; field. Qed.

(** For a window of positive width, a point projects inside the horizontal
    extent of the window and on or above its bottom edge exactly when its
    world coordinates satisfy [-1 <= x <= 1] and [0 <= y]; the window's
    height plays no part. *)
Lemma screen_space_visible v win :
  (0 < width win)%Z ->
  (0 <= fst (screen_space v win) <= IZR (width win) /\
   0 <= snd (screen_space v win)) <->
  (-1 <= x v <= 1 /\ 0 <= y v).
Proof.
  intros Hw%IZR_lt. rewrite screen_space_real. cbn [fst snd].
  set (w := IZR (width win)) in *.
  pose proof (Rmult_le_iff (-1) (x v) w Hw) as H1.
  pose proof (Rmult_le_iff (x v) 1 w Hw) as H2.
  pose proof (Rmult_le_iff 0 (y v) w Hw) as H3.
  split; intros [[A B] C].
  - repeat split; [apply H1 | apply H2 | apply H3]; lra.
  - apply H1 in A. apply H2 in B. apply H3 in C. lra.
Qed.

(** The triangle drawn for a point: its apex is [size] above the point and
    its base corners [size] below, [size] to the right and to the left. *)
Lemma as_tri_real v win size :
  let sx := fst (screen_space v win) in
  let sy := snd (screen_space v win) in
  let dx := size * IZR (width win) / 2 in
  let dy := size * IZR (width win) * 2 / 3 in
  as_tri v win size =
  Ok [sx; sy + dy; sx + dx; sy - dy; sx - dx; sy - dy].
Proof.
  cbv zeta. rewrite as_tri_Ok, !screen_space_real. cbn [fst snd x y]. real.
  repeat f_equal; field.
Qed.
End Real.

(** ** The theorems at concrete inputs: the vector (3, 4) *)

Section Witnesses.

Lemma length_3_4 : length (mk 3%R 4%R) = 5%R.
Proof.
  rewrite length_eq. cbn [x y].
  replace (3 * 3 + 4 * 4)%R with (5 * 5)%R by ring. apply sqrt_square. lra.
Qed.

Lemma normalised_3_4 :
  normalised (mk 3%R 4%R) = Ok (mk (3 / 5)%R (4 / 5)%R).
Proof.
  rewrite normalised_real by (cbn; lra). rewrite length_3_4. reflexivity.
Qed.

(** In binary64 the length of (3, 4) is exactly 5.0. *)
Example length_3_4_float : length (mk 3%float 4%float) = 5%float.
Proof. vm_compute. reflexivity. Qed.

(** In binary64, [Vec2(3, 4).normalised()] is not [(0.6, 0.8)]: the
    method multiplies by the rounded reciprocal [1/5.0], and [3 * 0.2]
    rounds to the float above [0.6].  Over the reals the result is
    [(3/5, 4/5)]. *)
Example normalised_3_4_float :
  normalised (mk 3%float 4%float)
    = Ok (mk 0x1.3333333333334p-1%float 0x1.999999999999ap-1%float) /\
  PrimFloat.eqb 0x1.3333333333334p-1%float (dec 6 1) = false /\
  PrimFloat.eqb 0x1.999999999999ap-1%float (dec 8 1) = true /\
  normalised (mk 3%R 4%R) = Ok (mk (3 / 5)%R (4 / 5)%R).
Proof.
  split; [vm_compute; reflexivity |].
  split; [vm_compute; reflexivity |].
  split; [vm_compute; reflexivity | exact normalised_3_4].
Qed.
End Witnesses.
End Vec2.
