(* ===== verification/Particle.v ===== *)
(** * Particle: the base entity ([particle.py], class [Particle])

    A particle is a record of the five slots of the class.  [init] is
    [__init__], [colour] the property of that name, [update] the per-tick
    method.  [update] mutates [self] and returns [[]] or [[self]]: the model
    returns the mutated record together with a boolean, [true] for
    [[self]], because the subclasses read the mutated fields after the base
    method reported the particle dead.

    An immortal particle ([lifespan = None]) is [lifespan = None] here; the
    age [timer] starts at the integer [0].

    The section [Generic] proves, for every arithmetic, that [update] never
    raises, what it computes (semi-implicit Euler integration) and when it
    reports death; [step], [offscreen] and [expired] give the same
    behaviour as three plain functions, the specification the method is
    shown to refine.  The section [Real] proves the fade of [colour] over
    the real numbers. *)

From Stdlib Require Import ZArith Reals Lia Lra Floats.
From stdpp Require Import base list.
From S2P Require Import Prelude Numeric NumReal NumFloat Vec2.

(** A colour: the triple of integers the source passes around. *)
Definition rgb : Set := (Z * Z * Z)%type.

(** Every channel fits the byte the renderer stores it in. *)
Definition rgb_valid (c : rgb) : Prop :=
  let '(r, g, b) := c in
  (0 <= r <= 255 /\ 0 <= g <= 255 /\ 0 <= b <= 255)%Z.

(** Channel-wise order: [c1] is at most as bright as [c2]. *)
Definition rgb_le (c1 c2 : rgb) : Prop :=
  let '(r1, g1, b1) := c1 in
  let '(r2, g2, b2) := c2 in
  (r1 <= r2 /\ g1 <= g2 /\ b1 <= b2)%Z.

#[export] Instance rgb_valid_dec c : Decision (rgb_valid c).
Proof. destruct c as [[r g] b]. cbn. apply _. Defined.

#[export] Instance rgb_le_dec c1 c2 : Decision (rgb_le c1 c2).
Proof. destruct c1 as [[r1 g1] b1], c2 as [[r2 g2] b2]. cbn. apply _. Defined.

#[export] Instance rgb_le_preorder : PreOrder rgb_le.
Proof.
  split.
  - intros [[r g] b]. cbn. lia.
  - intros [[r1 g1] b1] [[r2 g2] b2] [[r3 g3] b3]. cbn. lia.
Qed.

Module Particle.
Import Vec2.
Section Generic.
Context {F : Type} `{Num F}.
Local Open Scope num_scope.

Record t : Type := mk {
  position : Vec2.t F;
  velocity : Vec2.t F;
  _colour : rgb;
  lifespan : option F;
  timer : F
}.

(** [__init__] *)
Definition init (position speed : Vec2.t F) (colour : rgb)
    (lifespan : option F) : t :=
  mk position speed colour lifespan (flt 0).

(** The property [colour]: the base colour scaled by the fraction of life
    left, each channel truncated to an integer. *)
Definition colour (self : t) : result rgb :=
  let '(r, g, b) := _colour self in
  match lifespan self with
  | Some ls =>
      q ← py_truediv (timer self) ls;
      let l := flt 1 - q in
      Ok (py_int (flt r * l), py_int (flt g * l), py_int (flt b * l))
  | None => Ok (r, g, b)
  end.

(** [update]: age, integrate, then the two survival checks. *)
Definition update (self : t) (dt : F) (acceleration : Vec2.t F)
    (window : Window) : result (t * bool) :=
  let timer' := timer self + dt in
  adt ← Vec2.mul acceleration (ONum dt);
  velocity' ← Vec2.add (velocity self) (OVec adt);
  vdt ← Vec2.mul velocity' (ONum dt);
  position' ← Vec2.add (position self) (OVec vdt);
  let self' := mk position' velocity' (_colour self) (lifespan self) timer' in
  let '(sx, sy) := Vec2.screen_space position' window in
  if (sx <? flt 0) || (sx >? flt (width window)) || (sy <? flt 0)
  then Ok (self', false)
  else match lifespan self with
       | Some ls => if timer' >=? ls then Ok (self', false) else Ok (self', true)
       | None => Ok (self', true)
       end.

(** ** What [update] promises, as plain functions *)

(** The state after one tick: semi-implicit Euler integration. *)
Definition step (self : t) (dt : F) (a : Vec2.t F) : t :=
  let vx := Vec2.x (velocity self) + Vec2.x a * dt in
  let vy := Vec2.y (velocity self) + Vec2.y a * dt in
  mk (Vec2.mk (Vec2.x (position self) + vx * dt)
              (Vec2.y (position self) + vy * dt))
     (Vec2.mk vx vy) (_colour self) (lifespan self) (timer self + dt).

(** The particle has left the visible area. *)
Definition offscreen (self : t) (window : Window) : bool :=
  let '(sx, sy) := Vec2.screen_space (position self) window in
  (sx <? flt 0) || (sx >? flt (width window)) || (sy <? flt 0).

(** The particle has reached its lifespan. *)
Definition expired (self : t) : bool :=
  match lifespan self with
  | Some ls => timer self >=? ls
  | None => false
  end.

Definition alive (self : t) (window : Window) : bool :=
  negb (offscreen self window) && negb (expired self).

(** One channel scaled by the fraction of life left: [int(r * l)]. *)
Definition scale (l : F) (c : Z) : Z := py_int (flt c * l).

Implicit Types (p : t) (dt : F) (a : Vec2.t F) (win : Window).

(** [update] refines [step] and [alive]: it never raises, the record it
    leaves is [step], and it returns [[self]] exactly when the stepped
    particle is on screen and not expired. *)
Lemma update_spec p dt a win :
  update p dt a win = Ok (step p dt a, alive (step p dt a) win).
Proof.
  unfold update, alive, offscreen, expired, step, Vec2.screen_space. cbn.
  destruct (_ || _ || _); cbn; [reflexivity |].
  destruct (lifespan p) as [ls|]; [| reflexivity].
  destruct (ls <=? timer p + dt); reflexivity.
Qed.

Lemma update_Ok_inv p dt a win p' b :
  update p dt a win = Ok (p', b) ->
  p' = step p dt a /\ b = alive p' win.
Proof. rewrite update_spec. intros [= <- <-]. auto. Qed.

Lemma alive_true p win :
  alive p win = true <-> offscreen p win = false /\ expired p = false.
Proof.
  unfold alive. rewrite andb_true_iff, !negb_true_iff. reflexivity.
Qed.

Lemma alive_false p win :
  alive p win = false <-> offscreen p win = true \/ expired p = true.
Proof.
  unfold alive. rewrite andb_false_iff, !negb_false_iff. reflexivity.
Qed.

Lemma expired_immortal p : lifespan p = None -> expired p = false.
Proof. unfold expired. intros ->. reflexivity. Qed.

Lemma expired_Some p ls :
  lifespan p = Some ls -> expired p = (timer p >=? ls).
Proof. unfold expired. intros ->. reflexivity. Qed.

Lemma init_fields pos v c ls :
  position (init pos v c ls) = pos /\ velocity (init pos v c ls) = v /\
  _colour (init pos v c ls) = c /\ lifespan (init pos v c ls) = ls /\
  timer (init pos v c ls) = flt 0.
Proof. repeat split. Qed.

(** C1: [update] never raises and performs semi-implicit Euler
    integration: the velocity is advanced by [acceleration * dt] first, the
    position by the new velocity times [dt], the age by [dt]; the base
    colour and the lifespan are left alone. *)
Theorem update_euler p dt a win :
  exists p' b, update p dt a win = Ok (p', b) /\
    Vec2.x (velocity p') = Vec2.x (velocity p) + Vec2.x a * dt /\
    Vec2.y (velocity p') = Vec2.y (velocity p) + Vec2.y a * dt /\
    Vec2.x (position p') = Vec2.x (position p) + Vec2.x (velocity p') * dt /\
    Vec2.y (position p') = Vec2.y (position p) + Vec2.y (velocity p') * dt /\
    timer p' = timer p + dt /\
    _colour p' = _colour p /\ lifespan p' = lifespan p.
Proof.
  exists (step p dt a), (alive (step p dt a) win).
  rewrite update_spec. repeat split.
Qed.

(** C2: [update] returns the empty list exactly when the moved particle
    projects left of the window, right of it or below it, or when it has a
    lifespan and its new age has reached it. *)
Theorem update_dies_iff p dt a win p' b :
  update p dt a win = Ok (p', b) ->
  b = false <->
    offscreen p' win = true \/
    exists ls, lifespan p = Some ls /\ (timer p + dt >=? ls) = true.
Proof.
  intros [-> ->]%update_Ok_inv. rewrite alive_false.
  apply or_iff_compat_l. unfold expired, step; cbn.
  destruct (lifespan p) as [ls|]; split;
    [eauto | intros (? & [= <-] & ?); done | done | intros (? & [=] & _)].
Qed.

(** A particle without lifespan never dies of age: whatever its age,
    [update] keeps it whenever it is still on screen. *)
Theorem update_immortal p dt a win p' b :
  lifespan p = None ->
  update p dt a win = Ok (p', b) ->
  lifespan p' = None /\ b = negb (offscreen p' win).
Proof.
  intros Hl [-> ->]%update_Ok_inv. split; [exact Hl |].
  unfold alive. rewrite expired_immortal by exact Hl. apply andb_true_r.
Qed.

(** ** [colour] in every arithmetic *)
Lemma colour_immortal p : lifespan p = None -> colour p = Ok (_colour p).
Proof. unfold colour. destruct (_colour p) as [[r g] b]. intros ->. reflexivity. Qed.

Lemma colour_Some p ls :
  lifespan p = Some ls ->
  colour p =
  (q ← py_truediv (timer p) ls;
   let l := flt 1 - q in
   Ok (scale l (_colour p).1.1, scale l (_colour p).1.2, scale l (_colour p).2)).
Proof. unfold colour. destruct (_colour p) as [[r g] b]. intros ->. reflexivity. Qed.

(** C18: reading [colour] raises exactly when the particle has a lifespan
    that tests equal to zero, and the exception is [ZeroDivisionError]; an
    immortal particle's colour is its base colour. *)
Theorem colour_raises_iff p e :
  colour p = Raise e <->
  exists ls, lifespan p = Some ls /\ (ls =? flt 0) = true /\
             e = ZeroDivisionError.
Proof.
  destruct (lifespan p) as [ls|] eqn:Hl.
  - rewrite (colour_Some p ls Hl). unfold py_truediv.
    destruct (ls =? flt 0) eqn:Hz; cbn; split.
    + intros [= <-]. eauto.
    + intros (? & [= <-] & _ & ->). reflexivity.
    + discriminate.
    + intros (? & [= <-] & Hz' & _). congruence.
  - rewrite (colour_immortal p Hl). split; [discriminate |].
    intros (? & [=] & _).
Qed.
End Generic.

Arguments t F : clear implicits.

(** ** The fade of [colour] over the real numbers *)

Section Real.
Local Open Scope R_scope.
Implicit Types (p q : t R) (l : R) (c : Z).

(** The fraction of life left. *)
Definition life_left (p : t R) (L : R) : R := 1 - timer p / L.

Lemma scale_real l c : scale l c = Rtrunc (IZR c * l).
Proof. reflexivity. Qed.

Lemma scale_bounds l c : 0 <= l <= 1 -> (0 <= c)%Z -> (0 <= scale l c <= c)%Z.
Proof.
  intros Hl Hc%IZR_le. rewrite scale_real. apply Rtrunc_bounds. nra.
Qed.

Lemma scale_mono l1 l2 c :
  l1 <= l2 -> (0 <= c)%Z -> (scale l1 c <= scale l2 c)%Z.
Proof.
  intros Hl Hc%IZR_le. rewrite !scale_real. apply Rtrunc_mono. nra.
Qed.

Lemma scale_one c : scale 1 c = c.
Proof. rewrite scale_real, Rmult_1_r. apply Rtrunc_IZR. Qed.

Lemma scale_floor l c : 0 <= l -> (0 <= c)%Z -> scale l c = Zfloor (IZR c * l).
Proof.
  intros Hl Hc%IZR_le. rewrite scale_real. apply Rtrunc_nonneg. nra.
Qed.

Lemma life_left_bounds p L :
  0 < L -> 0 <= timer p <= L -> 0 <= life_left p L <= 1.
Proof.
  intros HL Ht. unfold life_left.
  enough (0 <= timer p / L <= 1) by lra.
  apply Rdiv_le_between; lra.
Qed.

Lemma life_left_mono p q L :
  0 < L -> timer p <= timer q -> life_left q L <= life_left p L.
Proof.
  intros HL Ht. unfold life_left, Rdiv.
  assert (0 < / L) by (apply Rinv_0_lt_compat, HL). nra.
Qed.

Lemma colour_real p L :
  lifespan p = Some L -> L <> 0 ->
  colour p = Ok (scale (life_left p L) (_colour p).1.1,
                 scale (life_left p L) (_colour p).1.2,
                 scale (life_left p L) (_colour p).2).
Proof.
  intros Hl HL. rewrite (colour_Some p L Hl), truediv_real by exact HL.
  reflexivity.
Qed.

(** C6: while a particle with a positive lifespan [L] has an age in
    [[0, L]], its colour is defined, every channel is the floor of the base
    channel times [1 - age/L], and the colour is a valid colour no brighter
    than the base colour. *)
Theorem colour_fade p L :
  lifespan p = Some L -> 0 < L -> 0 <= timer p <= L ->
  rgb_valid (_colour p) ->
  exists col, colour p = Ok col /\ rgb_valid col /\ rgb_le col (_colour p) /\
    col = (Zfloor (IZR (_colour p).1.1 * (1 - timer p / L)),
         Zfloor (IZR (_colour p).1.2 * (1 - timer p / L)),
         Zfloor (IZR (_colour p).2 * (1 - timer p / L))).
Proof.
  intros Hl HL Ht Hv. rewrite (colour_real p L Hl) by lra.
  pose proof (life_left_bounds p L HL Ht) as Hf.
  destruct (_colour p) as [[r g] b].
  unfold rgb_valid, rgb_le in *; cbn [fst snd] in *.
  eexists; split; [reflexivity |].
  pose proof (scale_bounds _ r Hf). pose proof (scale_bounds _ g Hf).
  pose proof (scale_bounds _ b Hf).
  repeat split; try lia.
  rewrite !scale_floor by (lra || lia). reflexivity.
Qed.

(** C15: the fade is monotone: of two particles with the same base colour
    and lifespan, the older one is no brighter in any channel. *)
Theorem colour_monotone p q L cp cq :
  lifespan p = Some L -> lifespan q = Some L -> _colour p = _colour q ->
  rgb_valid (_colour p) ->
  0 < L -> timer p <= timer q ->
  colour p = Ok cp -> colour q = Ok cq ->
  rgb_le cq cp.
Proof.
  intros Hp Hq Hc Hv HL Ht.
  rewrite (colour_real p L Hp), (colour_real q L Hq) by lra.
  intros [= <-] [= <-]. rewrite <- Hc.
  pose proof (life_left_mono p q L HL Ht) as Hm.
  destruct (_colour p) as [[r g] b].
  unfold rgb_valid, rgb_le in *; cbn [fst snd] in *.
  repeat split; apply scale_mono; lia || exact Hm.
Qed.

(** ** Survival over the real numbers *)
Lemma offscreen_real p win :
  offscreen p win = false <->
  0 <= fst (Vec2.screen_space (position p) win) <= IZR (width win) /\
  0 <= snd (Vec2.screen_space (position p) win).
Proof.
  unfold offscreen. destruct (Vec2.screen_space _ _) as [sx sy]. cbn [fst snd].
  rewrite !orb_false_iff, !nltb_false. change (flt ?z) with (IZR z). lra.
Qed.

Lemma expired_real p :
  expired p = false <->
  match lifespan p with Some L => timer p < L | None => True end.
Proof.
  unfold expired. destruct (lifespan p) as [L|]; [| tauto].
  rewrite nleb_false. reflexivity.
Qed.

(** C20: in a window of positive width, a particle is kept by [update]
    exactly when its new position lies in the strip [-1 <= x <= 1],
    [0 <= y] and, if it has a lifespan, its new age is still below it.
    There is no upper limit on [y]: a particle above the window's top edge
    is kept. *)
Theorem update_survives_iff p dt a win :
  (0 < width win)%Z ->
  update p dt a win = Ok (step p dt a, true) <->
  (-1 <= Vec2.x (position (step p dt a)) <= 1 /\
   0 <= Vec2.y (position (step p dt a))) /\
  match lifespan p with Some L => timer p + dt < L | None => True end.
Proof.
  intros Hw. rewrite update_spec.
  rewrite <- (Vec2.screen_space_visible _ win Hw), <- offscreen_real.
  change (match lifespan p with Some L => timer p + dt < L | None => True end)
    with (match lifespan (step p dt a) with
          | Some L => timer (step p dt a) < L | None => True end).
  rewrite <- expired_real, <- alive_true.
  split; [intros [= ->]; reflexivity | intros ->; reflexivity].
Qed.

(** In a window of positive width, whether a particle is off screen
    depends on its position only: the strip [-1 <= x <= 1], [0 <= y] is
    the same for every window. *)
Lemma offscreen_strip p win :
  (0 < width win)%Z ->
  offscreen p win = false <->
  -1 <= Vec2.x (position p) <= 1 /\ 0 <= Vec2.y (position p).
Proof. intros Hw. rewrite offscreen_real. apply Vec2.screen_space_visible, Hw. Qed.

Lemma offscreen_window p win win' :
  (0 < width win)%Z -> (0 < width win')%Z -> offscreen p win = offscreen p win'.
Proof.
  intros Hw Hw'. pose proof (offscreen_strip p win Hw) as H1.
  pose proof (offscreen_strip p win' Hw') as H2.
  destruct (offscreen p win), (offscreen p win'); try reflexivity;
    [pose proof (proj2 H1 (proj1 H2 eq_refl)) | pose proof (proj2 H2 (proj1 H1 eq_refl))];
    discriminate.
Qed.

(** A window of width 0 is the boundary case: every point projects to the
    origin of the screen, so nothing is ever off screen. *)
Lemma offscreen_zero_width p win : width win = 0%Z -> offscreen p win = false.
Proof.
  intros Hw. apply offscreen_real. rewrite Vec2.screen_space_real, Hw. cbn [fst snd]. lra.
Qed.

(** So the result of [update] is the same in every window of positive
    width. *)
Lemma update_window p dt a win win' :
  (0 < width win)%Z -> (0 < width win')%Z -> update p dt a win = update p dt a win'.
Proof.
  intros Hw Hw'. rewrite !update_spec. unfold alive.
  rewrite (offscreen_window _ win win' Hw Hw'). reflexivity.
Qed.

(** A particle that has not aged shows its base colour. *)
Lemma colour_fresh p L :
  lifespan p = Some L -> L <> 0 -> timer p = 0 -> colour p = Ok (_colour p).
Proof.
  intros Hl HL Ht. rewrite (colour_real p L Hl HL).
  unfold life_left. rewrite Ht.
  replace (1 - 0 / L) with 1 by (field; exact HL).
  rewrite !scale_one. destruct (_colour p) as [[r g] b]. reflexivity.
Qed.
End Real.

(** ** The theorems at concrete inputs *)

Section Witnesses.

(** The scenario of the specification: at rest at the origin, immortal,
    one tick of one second under gravity in a 2x2 window, in binary64. *)
Definition rest : t float :=
  init (Vec2.mk 0%float 0%float) (Vec2.mk 0%float 0%float) (255, 255, 255)%Z None.
Definition gravity : Vec2.t float := Vec2.mk (flt 0) (- dec 1 1)%num.
Definition win2 : Window := {| width := 2; height := 2 |}.

(** A red-orange particle of lifespan 4 at ages 1 and 2, over the reals. *)
Definition ember (age : R) : t R :=
  mk (Vec2.mk 0%R 1%R) (Vec2.mk 0%R 0%R) (255, 128, 0)%Z (Some 4%R) age.

Lemma update_dies_iff_witness :
  false = false <->
    offscreen (step rest 1%float gravity) win2 = true \/
    exists ls, lifespan rest = Some ls /\
               (timer rest + 1%float >=? ls)%num = true.
Proof.
  apply (update_dies_iff rest 1%float gravity win2).
  vm_compute. reflexivity.
Defined.

Lemma update_immortal_witness :
  lifespan (step rest 1%float gravity) = None /\
  false = negb (offscreen (step rest 1%float gravity) win2).
Proof.
  apply (update_immortal rest 1%float gravity win2);
    vm_compute; reflexivity.
Defined.

Lemma update_survives_iff_witness :
  update (ember 1) (1 / 10)%R (Vec2.mk 0 (-1 / 10))%R win2
    = Ok (step (ember 1) (1 / 10)%R (Vec2.mk 0 (-1 / 10))%R, true) <->
  ((-1 <= 0 + (0 + 0 * (1 / 10)) * (1 / 10) <= 1 /\
    0 <= 1 + (0 + -1 / 10 * (1 / 10)) * (1 / 10)) /\ 1 + 1 / 10 < 4)%R.
Proof.
  apply (update_survives_iff (ember 1) (1 / 10)%R (Vec2.mk 0 (-1 / 10))%R win2).
  cbn. lia.
Defined.

Lemma ember_colour_1 : colour (ember 1) = Ok (191, 96, 0)%Z.
Proof.
  rewrite (colour_real (ember 1) 4) by (reflexivity || lra).
  unfold life_left. cbn [timer ember _colour fst snd]. rewrite !scale_real.
  rewrite (Rtrunc_eq 191), (Rtrunc_eq 96), (Rtrunc_eq 0) by lra. reflexivity.
Qed.

Lemma ember_colour_2 : colour (ember 2) = Ok (127, 64, 0)%Z.
Proof.
  rewrite (colour_real (ember 2) 4) by (reflexivity || lra).
  unfold life_left. cbn [timer ember _colour fst snd]. rewrite !scale_real.
  rewrite (Rtrunc_eq 127), (Rtrunc_eq 64), (Rtrunc_eq 0) by lra. reflexivity.
Qed.

Lemma colour_fade_witness :
  exists col, colour (ember 1) = Ok col /\ rgb_valid col /\
    rgb_le col (255, 128, 0)%Z /\
    col = (Zfloor (255 * (1 - 1 / 4)), Zfloor (128 * (1 - 1 / 4)),
           Zfloor (0 * (1 - 1 / 4))).
Proof.
  apply (colour_fade (ember 1) 4%R);
    [reflexivity | lra | cbn; lra | cbn; lia].
Defined.

Lemma colour_monotone_witness : rgb_le (127, 64, 0)%Z (191, 96, 0)%Z.
Proof.
  apply (colour_monotone (ember 1) (ember 2) 4%R);
    [reflexivity | reflexivity | reflexivity | cbn; lia | lra | cbn; lra
    | exact ember_colour_1 | exact ember_colour_2].
Defined.
End Witnesses.
End Particle.
