(* ===== verification/Firework.v ===== *)
(** * Firework: the classes [Firework] and [SuperFirework]

    Both classes extend [Particle] with one slot, [last_spark]; [rocket] is
    that record.  An object of the simulation is an [entity]: a plain
    particle, a firework or a super-firework, the tag standing for the
    Python class.  Each class has its [Module] with [init], the randomised
    property [colour] and [update].

    [update] first runs the base method, then advances [last_spark].  If the
    base method returned [[]] the rocket detonates: the list is filled with
    a burst and the rocket itself is not in it.  Otherwise the list holds
    the rocket, and a trail spark after it when [last_spark] exceeds the
    cadence threshold (in which case [last_spark] is reset to [0]; the list
    holds a reference to the rocket, so the entity in the list shows the
    reset).  The helper definitions [diff], [burst_particle] /
    [burst_firework] and [spark] are the right-hand sides of the
    corresponding source lines; random draws happen in the order in which
    Python evaluates the sub-expressions.

    The code of [colour], [diff] and [spark] is duplicated between the two
    classes in the source and so it is here; the lemmas [colour_eq],
    [diff_eq] and [spark_eq] let the proofs be shared.

    [aim] and [burst_draws] name two sub-expressions of [update] (the
    vector a child's direction is normalised from, and the draws that
    precede the burst loop), so that the conditions under which [update]
    raises can be stated; [diff_aim] and [update_dead_draws] show that
    they are these sub-expressions. *)

From Stdlib Require Import ZArith Reals Lia Lra Floats.
From stdpp Require Import base list.
From S2P Require Import Prelude Numeric NumReal NumFloat Random Vec2 Particle.

(** The three classes of [particle.py]. *)
Inductive class : Set := CParticle | CFirework | CSuperFirework.

#[export] Instance class_eq_dec : EqDecision class.
Proof. solve_decision. Defined.

(** The classes whose constructor the [update] of a class calls: a
    firework appends plain particles (its burst and its trail), a
    super-firework appends fireworks (its burst) and plain particles (its
    trail), a plain particle constructs nothing. *)
Definition constructs (c : class) : list class :=
  match c with
  | CParticle => []
  | CFirework => [CParticle]
  | CSuperFirework => [CFirework; CParticle]
  end.

(** How many generations of bursts an object of the class can start. *)
Definition generations (c : class) : nat :=
  match c with CParticle => 0 | CFirework => 1 | CSuperFirework => 2 end.

Section Slots.
Context {F : Type} `{Num F}.

(** The slots of a [Firework] or [SuperFirework]: those of [Particle] and
    [last_spark]. *)
Record rocket : Type := mk_rocket {
  base : Particle.t F;
  last_spark : F
}.

(** An object of the particle collection, tagged with its class. *)
Inductive entity : Type :=
| EParticle (p : Particle.t F)
| EFirework (r : rocket)
| ESuperFirework (r : rocket).

(** [type(e)] *)
Definition class_of (e : entity) : class :=
  match e with
  | EParticle _ => CParticle
  | EFirework _ => CFirework
  | ESuperFirework _ => CSuperFirework
  end.

Definition is_particle (e : entity) : bool :=
  match e with EParticle _ => true | _ => false end.

Definition is_firework (e : entity) : bool :=
  match e with EFirework _ => true | _ => false end.

(** The [Particle] slots of an entity, whatever its class. *)
Definition slots (e : entity) : Particle.t F :=
  match e with
  | EParticle p => p
  | EFirework r | ESuperFirework r => base r
  end.
End Slots.

Arguments rocket F : clear implicits.
Arguments entity F : clear implicits.

(** Proof steps the two classes share.  [enter_update upd Ha] runs the base
    update inside [upd] and selects the branch the survival flag [Ha]
    dictates; [child_post body] executes one child constructor
    symbolically. *)
Tactic Notation "enter_update" reference(upd) "with" hyp(Ha) :=
  unfold upd;
  rewrite run_bind, Particle.update_spec, run_lift_Ok, Ha; cbn [negb].

Ltac raises_finish :=
  match goal with
  | H : Vec2.normalised _ = Raise _ |- _ =>
      apply Vec2.normalised_raises in H; tauto
  | H : Particle.update _ _ _ _ = Raise _ |- _ =>
      rewrite Particle.update_spec in H; discriminate H
  end.

(** Read the slots of a freshly constructed object. *)
Ltac fields :=
  cbn [Particle.init Particle.position Particle.timer Particle.lifespan
       Particle.velocity Particle._colour base last_spark] in *;
  rewrite ?Vec2.clone_eq in *.

(** Use what is known of the steps a run went through. *)
Ltac unit_direction Hu Hx Hy :=
  match goal with
  | H : Vec2.normalised _ = Ok _ |- _ =>
      apply Vec2.normalised_unit in H as (Hu & Hx & Hy)
  end.

Ltac scaled :=
  match goal with
  | H : Vec2.mul _ (Vec2.ONum _) = Ok _ |- _ =>
      cbn [Vec2.mul] in H; injection H as <-
  end.

Tactic Notation "child_post" reference(body) :=
  let Hrun := fresh "Hrun" in
  intros ? ? ? Hrun; unfold body in Hrun; inv_bind;
  eexists; split; [reflexivity |]; cbn; rewrite ?Vec2.clone_eq; eauto.

Module Firework.
Section Generic.
Context {F : Type} `{Num F} {G : Type} `{RandomSource G}.
Local Open Scope num_scope.

(** An object of class [Firework]: the five slots of [Particle] and
    [last_spark]. *)
Definition t : Type := rocket F.

(** [__init__].  The parameter [lifespan] has no default here, unlike in
    [Particle.__init__]: every call gives it.  It is passed on to the base
    constructor as it is, so [None] remains a value it can take. *)
Definition init (position speed : Vec2.t F) (colour : rgb)
    (lifespan : option F) : t :=
  mk_rocket (Particle.init position speed colour lifespan) (flt 0).

(** The property [colour]: flickering gold, drawn afresh at every read. *)
Definition colour (self : rocket F) : rand G rgb :=
  u ← random;
  let f := u * dec 4 1 + dec 8 1 in
  mret (py_int (py_min (flt 255) (flt 250 * f)),
        py_int (py_min (flt 255) (flt 209 * f)),
        py_int (py_min (flt 255) (flt 70 * f))).

(** The random offset added to a child's velocity:
    [Vec2(random()*2-1, random()*2-1).normalised() * (random()*0.15+0.05)]. *)
Definition diff : rand G (Vec2.t F) :=
  rx ← random;
  ry ← random;
  dir ← lift (Vec2.normalised (Vec2.mk (rx * flt 2 - flt 1) (ry * flt 2 - flt 1)));
  rm ← random;
  lift (Vec2.mul dir (Vec2.ONum (rm * dec 15 2 + dec 5 2))).

(** [Vec2(random() * 2 - 1, random() * 2 - 1)]: the direction of a child
    before it is normalised, a point of the square of side 2 around the
    origin. *)
Definition aim : rand G (Vec2.t F) :=
  rx ← random;
  ry ← random;
  mret (Vec2.mk (rx * flt 2 - flt 1) (ry * flt 2 - flt 1)).

(** From the state [g] of the generator the next child is thrown in no
    direction: the vector drawn has a length that tests equal to zero. *)
Definition centred (g : G) : Prop :=
  exists v g', run aim g = Ok (v, g') /\ (Vec2.length v =? flt 0) = true.

(** One iteration of the burst loop: a plain particle at the firework's
    position, with the burst colour and a lifespan in [[2, 12)]. *)
Definition burst_particle (self : Particle.t F) (colour : rgb) : rand G (entity F) :=
  d ← diff;
  v ← lift (Vec2.add (Particle.velocity self) (Vec2.OVec d));
  rl ← random;
  mret (EParticle (Particle.init (Vec2.clone (Particle.position self)) v colour
                                 (Some (rl * flt 10 + flt 2)))).

(** The trail spark: a short-lived particle thrown backwards. *)
Definition spark (self : rocket F) : rand G (entity F) :=
  dir ← lift (Vec2.normalised (Particle.velocity (base self)));
  v ← lift (Vec2.mul (Vec2.neg dir) (Vec2.ONum (dec 2 1)));
  c ← colour self;
  rl ← random;
  mret (EParticle (Particle.init (Vec2.clone (Particle.position (base self))) v c
                                 (Some (rl * flt 2)))).

(** The cadence test: [last_spark > 0.125 * (velocity.length() / 100)]. *)
Definition spark_due (self : rocket F) : bool :=
  last_spark self >?
    dec 125 3 * ndiv (Vec2.length (Particle.velocity (base self))) (flt 100).

(** The draws that precede the burst loop: the colour
    [(randint(0, 255), randint(0, 255), randint(0, 255))] and the number of
    children [randint(25, 100)]. *)
Definition burst_draws : rand G (rgb * Z) :=
  r ← randint 0 255;
  g ← randint 0 255;
  b ← randint 0 255;
  n ← randint 25 100;
  mret ((r, g, b), n).

(** [update] *)
Definition update (self : rocket F) (dt : F) (acceleration : Vec2.t F)
    (window : Window) : rand G (list (entity F)) :=
  '(base', survived) ← lift (Particle.update (base self) dt acceleration window);
  let self1 := mk_rocket base' (last_spark self + dt) in
  if negb survived then
    r ← randint 0 255;
    g ← randint 0 255;
    b ← randint 0 255;
    n ← randint 25 100;
    repeatM (Z.to_nat n) (burst_particle base' (r, g, b))
  else if spark_due self1 then
    let self2 := mk_rocket base' (flt 0) in
    s ← spark self2;
    mret [EFirework self2; s]
  else mret [EFirework self1].
End Generic.

Arguments t F : clear implicits.

(** ** The three branches of [update], in every arithmetic *)

Section Facts.
Context {F : Type} `{Num F} {G : Type} `{RandomSourceLaws G}.
Local Open Scope num_scope.
Implicit Types (r : rocket F) (dt : F) (a : Vec2.t F) (win : Window) (g : G).

(** The base slots after the tick, and the rocket with its spark timer
    advanced. *)
Abbreviation stepped r dt a := (Particle.step (base r) dt a).
Abbreviation aged r dt a := (mk_rocket (stepped r dt a) (last_spark r + dt)).
Abbreviation reset r dt a := (mk_rocket (stepped r dt a) (flt 0)).

Lemma update_dead r dt a win :
  Particle.alive (stepped r dt a) win = false ->
  update (G:=G) r dt a win ≡
  (cr ← randint 0 255; cg ← randint 0 255; cb ← randint 0 255;
   n ← randint 25 100;
   repeatM (Z.to_nat n) (burst_particle (stepped r dt a) (cr, cg, cb))).
Proof. intros Ha g. enter_update update with Ha. reflexivity. Qed.

Lemma update_sparking r dt a win :
  Particle.alive (stepped r dt a) win = true ->
  spark_due (aged r dt a) = true ->
  update (G:=G) r dt a win ≡
  (s ← spark (reset r dt a); mret [EFirework (reset r dt a); s]).
Proof. intros Ha Hs g. enter_update update with Ha. rewrite Hs. reflexivity. Qed.

Lemma update_coasting r dt a win :
  Particle.alive (stepped r dt a) win = true ->
  spark_due (aged r dt a) = false ->
  update (G:=G) r dt a win ≡ mret [EFirework (aged r dt a)].
Proof. intros Ha Hs g. enter_update update with Ha. rewrite Hs. reflexivity. Qed.

(** What one iteration of the burst loop appends. *)
Definition burst_child (parent : Particle.t F) (c : rgb) (e : entity F) : Prop :=
  exists p, e = EParticle p /\
    Particle._colour p = c /\
    Particle.position p = Particle.position parent /\
    Particle.timer p = flt 0 /\
    is_Some (Particle.lifespan p).

Lemma burst_particle_post parent c :
  post (burst_particle parent c) (burst_child parent c).
Proof. child_post burst_particle. Qed.

(** What the trail branch appends. *)
Definition trail_spark (r : rocket F) (e : entity F) : Prop :=
  exists p, e = EParticle p /\
    Particle.position p = Particle.position (base r) /\
    Particle.timer p = flt 0 /\
    is_Some (Particle.lifespan p).

Lemma spark_post r : post (spark r) (trail_spark r).
Proof. child_post spark. Qed.

(** C3: when the base update reports the firework dead, the list it
    returns is a burst of between 25 and 100 plain particles (both bounds
    included), all of one colour whose channels lie in [[0, 255]], all at
    the firework's last position with age 0 and a lifespan; the firework
    itself is not in the list. *)
Theorem update_detonates r dt a win :
  Particle.alive (stepped r dt a) win = false ->
  post (update r dt a win) (fun l =>
    (25 <= length l <= 100)%nat /\
    exists c, rgb_valid c /\ Forall (burst_child (stepped r dt a) c) l).
Proof.
  intros Ha g l g' Hrun. rewrite (update_dead r dt a win Ha) in Hrun.
  inv_bind. randint_ranges.
  split.
  - rewrite (post_repeatM_length _ _ _ _ _ Hrun). lia.
  - eexists. split; [| exact (post_repeatM _ _ _ (burst_particle_post _ _) _ _ _ Hrun)].
    cbn. lia.
Qed.

(** C5: while the base update keeps the firework, the list it returns
    starts with the firework itself, moved by one Euler step; it is
    followed by exactly one trail spark when the advanced spark timer
    exceeds the cadence threshold, and then the timer is reset to 0;
    otherwise the firework is alone and its timer has advanced by [dt]. *)
Theorem update_ascends r dt a win :
  Particle.alive (stepped r dt a) win = true ->
  post (update r dt a win) (fun l =>
    if spark_due (aged r dt a)
    then exists s, l = [EFirework (reset r dt a); s] /\ trail_spark (reset r dt a) s
    else l = [EFirework (aged r dt a)]).
Proof.
  intros Ha g l g' Hrun. destruct (spark_due (aged r dt a)) eqn:Hs.
  - rewrite (update_sparking r dt a win Ha Hs) in Hrun. inv_bind.
    eexists. split; [reflexivity |]. exact (spark_post _ _ _ _ Ha0).
  - rewrite (update_coasting r dt a win Ha Hs) in Hrun. inv_bind.
    reflexivity.
Qed.

Lemma diff_raises_only : raises_only (diff (F:=F) (G:=G)) ZeroDivisionError.
Proof. unfold diff. raises_steps; raises_finish. Qed.

Lemma burst_particle_raises_only parent c :
  raises_only (burst_particle (G:=G) parent c) ZeroDivisionError.
Proof. unfold burst_particle. raises_steps; raises_finish. Qed.

Lemma spark_raises_only r : raises_only (spark (G:=G) r) ZeroDivisionError.
Proof. unfold spark, colour. raises_steps; raises_finish. Qed.

(** The only exception [Firework.update] can raise is
    [ZeroDivisionError]. *)
Lemma update_raises_only r dt a win :
  raises_only (update (G:=G) r dt a win) ZeroDivisionError.
Proof.
  unfold update. apply raises_only_bind; [raises_steps; raises_finish |].
  intros [b' survived]. raises_steps; raises_finish.
Qed.

(** ** When [update] raises, in every arithmetic *)
Lemma colour_total r : total (colour (G:=G) r).
Proof.
  unfold colour. apply total_bind; [auto with fw | intros u; apply total_ret].
Qed.

(** [diff] raises exactly when the vector the two draws give has a length
    that tests equal to zero. *)
Lemma aim_total : total (aim (F:=F) (G:=G)).
Proof.
  unfold aim. repeat (apply total_bind; [auto with fw | intros ?]). apply total_ret.
Qed.

(** [diff] normalises what [aim] draws. *)
Lemma diff_aim :
  diff (F:=F) (G:=G) ≡
  (v ← aim; dir ← lift (Vec2.normalised v); rm ← random;
   lift (Vec2.mul dir (Vec2.ONum (rm * dec 15 2 + dec 5 2)))).
Proof.
  intros g. unfold diff, aim.
  repeat first [rewrite run_bind | rewrite random_total | rewrite run_ret].
  reflexivity.
Qed.

Lemma diff_raises_iff g e :
  run (diff (F:=F)) g = Raise e <-> centred g /\ e = ZeroDivisionError.
Proof.
  rewrite (diff_aim g), run_bind. unfold centred.
  destruct (aim_total g) as (v & g1 & ->).
  rewrite run_bind_Raise_iff.
  - destruct (Vec2.normalised v) eqn:Hn;
      [rewrite run_lift_Ok | rewrite run_lift_Raise].
    + split; [discriminate |]. intros [(? & ? & [= <- _] & Hz) ->].
      assert (Vec2.normalised v = Raise ZeroDivisionError) as Hr
        by (apply Vec2.normalised_raises; auto).
      congruence.
    + apply Vec2.normalised_raises in Hn as [Hz ->].
      split; [intros [= <-]; eauto 6 | intros [_ ->]; reflexivity].
  - intros dir. apply total_bind; [auto with fw |]. intros rm g'.
    cbn [Vec2.mul]. rewrite run_lift_Ok. eauto.
Qed.

Lemma burst_particle_raises_iff parent c g e :
  run (burst_particle parent c) g = Raise e <->
  centred g /\ e = ZeroDivisionError.
Proof.
  unfold burst_particle. rewrite run_bind_Raise_iff; [apply diff_raises_iff |].
  intros d. cbn [Vec2.add]. apply total_bind; [apply total_lift_Ok |]. intros v.
  apply total_bind; [auto with fw | intros rl; apply total_ret].
Qed.

(** [spark] raises exactly when the length of the rocket's velocity tests
    equal to zero. *)
Lemma spark_raises_iff r g e :
  run (spark r) g = Raise e <->
  (Vec2.length (Particle.velocity (base r)) =? flt 0) = true /\
  e = ZeroDivisionError.
Proof.
  unfold spark. rewrite run_bind.
  destruct (Vec2.normalised _) as [dir|e'] eqn:Hn;
    [rewrite run_lift_Ok | rewrite run_lift_Raise];
    rewrite <- Vec2.normalised_raises, Hn; [| split; congruence].
  split; [| discriminate]. intros Hr. exfalso. revert Hr.
  apply total_not_Raise. cbn [Vec2.mul]. apply total_bind; [apply total_lift_Ok |].
  intros v. apply total_bind; [apply colour_total |]. intros c.
  apply total_bind; [auto with fw | intros rl; apply total_ret].
Qed.

(** C33: a rocket that stalls stops the program.  While the base update
    keeps the firework, [update] raises exactly when the cadence test
    asks for a trail spark and the length of the new velocity tests equal
    to zero: the spark's direction is the normalised velocity.  The
    exception is [ZeroDivisionError]. *)
Theorem ascent_raises_iff r dt a win g e :
  Particle.alive (stepped r dt a) win = true ->
  run (update r dt a win) g = Raise e <->
  spark_due (aged r dt a) = true /\
  (Vec2.length (Particle.velocity (stepped r dt a)) =? flt 0) = true /\
  e = ZeroDivisionError.
Proof.
  intros Ha. destruct (spark_due (aged r dt a)) eqn:Hd.
  - rewrite (update_sparking r dt a win Ha Hd g).
    rewrite run_bind_Raise_iff by (intros s; apply total_ret).
    rewrite spark_raises_iff. cbn [base]. tauto.
  - rewrite (update_coasting r dt a win Ha Hd g), run_ret.
    split; [discriminate | intros [[=] _]].
Qed.

Lemma burst_draws_total : total (burst_draws (G:=G)).
Proof.
  unfold burst_draws.
  repeat (apply total_bind; [auto with fw | intros ?]). apply total_ret.
Qed.

(** The burst branch is the four draws followed by the loop. *)
Lemma update_dead_draws r dt a win :
  Particle.alive (stepped r dt a) win = false ->
  update (G:=G) r dt a win ≡
  ('(c, n) ← burst_draws;
   repeatM (Z.to_nat n) (burst_particle (stepped r dt a) c)).
Proof.
  intros Ha g. rewrite (update_dead r dt a win Ha g). unfold burst_draws.
  repeat first [rewrite run_bind | rewrite randint_total | rewrite run_ret].
  reflexivity.
Qed.

(** C34: a child thrown in no direction stops the program.  When the
    base update reports the firework dead, [update] raises exactly when
    the burst loop reaches an iteration at which the two draws of the
    child's direction give a vector whose length tests equal to zero: the
    four draws of the colour and the size are made, [i] children are built,
    and the next child cannot be.  The exception is
    [ZeroDivisionError]. *)
Theorem burst_raises_iff r dt a win g e :
  Particle.alive (stepped r dt a) win = false ->
  run (update r dt a win) g = Raise e <->
  e = ZeroDivisionError /\
  exists c n g0 i l gi,
    run burst_draws g = Ok ((c, n), g0) /\ (i < Z.to_nat n)%nat /\
    run (repeatM i (burst_particle (stepped r dt a) c)) g0 = Ok (l, gi) /\
    centred gi.
Proof.
  intros Ha. rewrite (update_dead_draws r dt a win Ha g), run_bind.
  destruct (burst_draws_total g) as ([c n] & g0 & ->).
  rewrite repeatM_Raise_iff. split.
  - intros (i & l & gi & Hi & Hl & [Hz ->]%burst_particle_raises_iff).
    split; [reflexivity |]. eexists c, n, g0, i, l, gi. auto.
  - intros (-> & c' & n' & g0' & i & l & gi & [= <- <- <-] & Hi & Hl & Hz).
    exists i, l, gi. rewrite burst_particle_raises_iff. auto.
Qed.
End Facts.

(** ** Ranges of the random quantities, over the real numbers *)

Section Real.
Context {G : Type} `{RandomSourceLaws G}.
Local Open Scope R_scope.
Implicit Types (r : rocket R) (parent : Particle.t R) (c : rgb).

(** The flicker colour stays in a band of gold and is a valid colour. *)
Lemma colour_gold r :
  post (colour (G:=G) r) (fun c =>
    rgb_le (200, 167, 56)%Z c /\ rgb_le c (255, 250, 83)%Z).
Proof.
  intros g c g' Hrun. unfold colour in Hrun. inv_bind. random_ranges.
  unfold rgb_le. rewrite !py_min_real. real.
  enough (forall k lo hi : Z,
    0 <= IZR lo <= IZR k * (8 / 10) -> IZR lo <= 255 ->
    IZR k * (12 / 10) <= IZR hi + 1 \/ 255 < IZR hi + 1 -> 0 < IZR k ->
    (lo <= Rtrunc (Rmin (IZR k * (a * (4 / 10) + 8 / 10)) 255) <= hi)%Z) as B.
  { pose proof (B 250 200 255 ltac:(lra) ltac:(lra) ltac:(lra) ltac:(lra))%Z.
    pose proof (B 209 167 250 ltac:(lra) ltac:(lra) ltac:(lra) ltac:(lra))%Z.
    pose proof (B 70 56 83 ltac:(lra) ltac:(lra) ltac:(lra) ltac:(lra))%Z.
    lia. }
  intros k lo hi Hlo Hcap Hhi Hk. apply Rtrunc_between.
  - apply Rmin_case_strong; intros; nra.
  - apply Rmin_case_strong; intros; nra.
Qed.

(** The random offset has a magnitude in [[0.05, 0.2)]. *)
Lemma diff_magnitude :
  post (diff (G:=G)) (fun d => 5 / 100 <= Vec2.length d < 20 / 100).
Proof.
  intros g d g' Hrun. unfold diff in Hrun. inv_bind. random_ranges.
  unit_direction Hu Hx Hy. scaled.
  rewrite Vec2.length_mul, Hu by (real; lra). real. lra.
Qed.

(** A child of the burst, with the ranges of its random slots. *)
Definition burst_child_real parent c (e : entity R) : Prop :=
  exists p d L, e = EParticle p /\
    Particle._colour p = c /\
    Particle.position p = Particle.position parent /\
    Particle.timer p = 0 /\
    Particle.lifespan p = Some L /\ 2 <= L < 12 /\
    Vec2.add (Particle.velocity parent) (Vec2.OVec d) = Ok (Particle.velocity p) /\
    5 / 100 <= Vec2.length d < 20 / 100.

Lemma burst_particle_real parent c :
  post (burst_particle (G:=G) parent c) (burst_child_real parent c).
Proof.
  intros g e g' Hrun. unfold burst_particle in Hrun. inv_bind.
  match goal with Hd : run diff _ = Ok (?d, _) |- _ =>
    apply diff_magnitude in Hd; eexists _, d, _ end.
  random_ranges. split; [reflexivity |]. fields.
  do 4 (split; [reflexivity |]). split; [real; lra |].
  split; assumption.
Qed.

(** The trail spark, with the ranges of its random slots: it lives less
    than 2 time units, flies at speed 0.2 against the rocket's velocity and
    has a valid colour. *)
Definition trail_spark_real r (e : entity R) : Prop :=
  exists p L, e = EParticle p /\
    Particle.position p = Particle.position (base r) /\
    Particle.timer p = 0 /\
    Particle.lifespan p = Some L /\ 0 <= L < 2 /\
    Vec2.length (Particle.velocity p) = 2 / 10 /\
    (let v := Particle.velocity (base r) in
     Vec2.x (Particle.velocity p) * Vec2.length v = - Vec2.x v * (2 / 10) /\
     Vec2.y (Particle.velocity p) * Vec2.length v = - Vec2.y v * (2 / 10)) /\
    rgb_valid (Particle._colour p).

Lemma spark_real r : post (spark (G:=G) r) (trail_spark_real r).
Proof.
  intros g e g' Hrun. unfold spark in Hrun. inv_bind.
  match goal with Hc : run (colour _) _ = Ok (?c, _) |- _ =>
    apply colour_gold in Hc as [Hlo Hhi]; destruct c as [[cr cg] cb] end.
  random_ranges. unit_direction Hu Hx Hy. scaled.
  eexists _, _. split; [reflexivity |]. fields.
  do 3 (split; [reflexivity |]).
  split; [real; lra |]. split; [| split].
  - real. rewrite Vec2.length_mul_neg, Hu by lra. lra.
  - cbv zeta. rewrite Hx, Hy at 1. cbn [Vec2.x Vec2.y Vec2.neg]. real.
    split; ring.
  - unfold rgb_le, rgb_valid in *. lia.
Qed.

(** The cadence threshold over the reals: a spark is due when the spark
    timer exceeds one eight-hundredth of the speed. *)
Lemma spark_due_real r :
  spark_due r = true <->
  Vec2.length (Particle.velocity (base r)) / 800 < last_spark r.
Proof. unfold spark_due. rewrite nltb_true. real. split; lra. Qed.

(** Over the reals the direction of a child is the zero vector exactly
    when both draws are [2^52] of the [2^53] equally likely values, that
    is when both calls of [random()] return [0.5]. *)
Lemma centred_real g :
  centred (F:=R) g <->
  fst (getrandbits53 g) = (2 ^ 52)%Z /\
  fst (getrandbits53 (snd (getrandbits53 g))) = (2 ^ 52)%Z.
Proof.
  unfold centred, aim.
  repeat first [rewrite run_bind | rewrite random_total | rewrite run_ret].
  transitivity (Vec2.length
    (Vec2.mk (IZR (fst (getrandbits53 g)) / IZR (2 ^ 53) * 2 - 1)
             (IZR (fst (getrandbits53 (snd (getrandbits53 g)))) / IZR (2 ^ 53) * 2 - 1))
    = 0).
  { rewrite <- neqb_true. split; [intros (v & g' & [= <- _] & Hz); exact Hz | eauto]. }
  rewrite Vec2.length_zero_iff. cbn [Vec2.x Vec2.y].
  assert (forall k, IZR k / IZR (2 ^ 53) * 2 - 1 = 0 <-> k = (2 ^ 52)%Z) as Hk.
  { intros k. change (2 ^ 53)%Z with (2 * 2 ^ 52)%Z. rewrite mult_IZR.
    assert (0 < IZR (2 ^ 52)) by (apply IZR_lt; lia).
    split; [intros Hq; apply eq_IZR | intros ->]; [| field; lra].
    apply (Rmult_eq_compat_r (IZR (2 ^ 52))) in Hq. field_simplify in Hq; lra. }
  rewrite !Hk. reflexivity.
Qed.

(** Over the reals a rocket stalls when the tick leaves its velocity at
    the zero vector; the cadence test then holds as soon as the spark timer
    is positive, and the update raises. *)
Lemma stall_raises_real r dt a win g :
  Particle.alive (Particle.step (base r) dt a) win = true ->
  Particle.velocity (Particle.step (base r) dt a) = Vec2.mk 0 0 ->
  0 < last_spark r + dt ->
  run (update r dt a win) g = Raise ZeroDivisionError.
Proof.
  intros Ha Hv Ht.
  assert (Vec2.length (Particle.velocity (Particle.step (base r) dt a)) = 0) as Hl
    by (apply Vec2.length_zero_iff; rewrite Hv; auto).
  rewrite (update_sparking r dt a win Ha)
    by (apply spark_due_real; cbn [base last_spark]; rewrite Hl; real; lra).
  apply run_bind_Raise, spark_raises_iff.
  split; [apply neqb_true; exact Hl | reflexivity].
Qed.

(** C22: over the reals, every particle of a firework's burst lives for a
    time in [[2, 12)] and leaves with the firework's last velocity plus an
    offset of magnitude in [[0.05, 0.2)]. *)
Theorem update_detonates_real r dt a win :
  Particle.alive (Particle.step (base r) dt a) win = false ->
  post (update (G:=G) r dt a win) (fun l =>
    exists c, Forall (burst_child_real (Particle.step (base r) dt a) c) l).
Proof.
  intros Ha g l g' Hrun. rewrite (update_dead r dt a win Ha) in Hrun.
  inv_bind. eexists.
  exact (post_repeatM _ _ _ (burst_particle_real _ _) _ _ _ Hrun).
Qed.

(** C23: over the reals, the trail spark lives less than 2 time units
    (possibly 0), flies at speed 0.2 straight against the rocket and is
    coloured a valid gold; it is emitted only when the spark timer exceeds
    one eight-hundredth of the rocket's speed. *)
Theorem update_spark_real r dt a win :
  Particle.alive (Particle.step (base r) dt a) win = true ->
  post (update (G:=G) r dt a win) (fun l =>
    forall s, l !! 1%nat = Some s ->
      let r' := mk_rocket (Particle.step (base r) dt a) 0 in
      l = [EFirework r'; s] /\ trail_spark_real r' s /\
      Vec2.length (Particle.velocity (base r')) / 800 < last_spark r + dt).
Proof.
  intros Ha g l g' Hrun s Hs.
  destruct (spark_due (mk_rocket (Particle.step (base r) dt a) (last_spark r + dt)%num))
    eqn:Hd.
  - rewrite (update_sparking r dt a win Ha Hd) in Hrun. inv_bind.
    cbn in Hs. injection Hs as <-.
    split; [reflexivity |]. split; [exact (spark_real _ _ _ _ Ha0) |].
    apply spark_due_real in Hd. exact Hd.
  - rewrite (update_coasting r dt a win Ha Hd) in Hrun. inv_bind.
    discriminate Hs.
Qed.
(** C39: the cadence threshold is one eight-hundredth of the speed, so a
    rocket that is kept by a tick longer than that emits a trail spark at
    this very tick, whatever its spark timer was (provided it was not
    negative), and its spark timer is back to 0. *)
Theorem spark_every_tick r dt a win :
  0 <= last_spark r ->
  Particle.alive (Particle.step (base r) dt a) win = true ->
  Vec2.length (Particle.velocity (Particle.step (base r) dt a)) / 800 < dt ->
  post (update (G:=G) r dt a win) (fun l =>
    exists s, l = [EFirework (mk_rocket (Particle.step (base r) dt a) 0); s] /\
              trail_spark_real
                (mk_rocket (Particle.step (base r) dt a) 0) s).
Proof.
  intros Hs Ha Hv g l g' Hrun.
  assert (spark_due
            (mk_rocket (Particle.step (base r) dt a) (last_spark r + dt)%num) = true)
    as Hd by (apply spark_due_real; cbn [base last_spark]; real; lra).
  rewrite (update_sparking r dt a win Ha Hd) in Hrun. inv_bind.
  eexists. split; [reflexivity |]. eapply spark_real; eassumption.
Qed.
End Real.
End Firework.

Module SuperFirework.
Section Generic.
Context {F : Type} `{Num F} {G : Type} `{RandomSource G}.
Local Open Scope num_scope.

(** An object of class [SuperFirework]: the same six slots. *)
Definition t : Type := rocket F.

(** [__init__] *)
Definition init (position speed : Vec2.t F) (colour : rgb)
    (lifespan : option F) : t :=
  mk_rocket (Particle.init position speed colour lifespan) (flt 0).

(** The property [colour]: the same flickering gold as [Firework]'s. *)
Definition colour (self : rocket F) : rand G rgb :=
  u ← random;
  let f := u * dec 4 1 + dec 8 1 in
  mret (py_int (py_min (flt 255) (flt 250 * f)),
        py_int (py_min (flt 255) (flt 209 * f)),
        py_int (py_min (flt 255) (flt 70 * f))).

(** The random offset added to a child's velocity. *)
Definition diff : rand G (Vec2.t F) :=
  rx ← random;
  ry ← random;
  dir ← lift (Vec2.normalised (Vec2.mk (rx * flt 2 - flt 1) (ry * flt 2 - flt 1)));
  rm ← random;
  lift (Vec2.mul dir (Vec2.ONum (rm * dec 15 2 + dec 5 2))).

(** One iteration of the burst loop: a full [Firework] at the
    super-firework's position, with a lifespan in [[1, 4)]. *)
Definition burst_firework (self : Particle.t F) (colour : rgb) : rand G (entity F) :=
  d ← diff;
  v ← lift (Vec2.add (Particle.velocity self) (Vec2.OVec d));
  rl ← random;
  mret (EFirework (Firework.init (Vec2.clone (Particle.position self)) v colour
                                 (Some (rl * flt 3 + flt 1)))).

(** The trail spark. *)
Definition spark (self : rocket F) : rand G (entity F) :=
  dir ← lift (Vec2.normalised (Particle.velocity (base self)));
  v ← lift (Vec2.mul (Vec2.neg dir) (Vec2.ONum (dec 2 1)));
  c ← colour self;
  rl ← random;
  mret (EParticle (Particle.init (Vec2.clone (Particle.position (base self))) v c
                                 (Some (rl * flt 2)))).

(** The cadence test. *)
Definition spark_due (self : rocket F) : bool :=
  last_spark self >?
    dec 125 3 * ndiv (Vec2.length (Particle.velocity (base self))) (flt 100).

(** The draws that precede the burst loop: the colour, with channels
    from 100, and the number of children [randint(5, 10)]. *)
Definition burst_draws : rand G (rgb * Z) :=
  r ← randint 100 255;
  g ← randint 100 255;
  b ← randint 100 255;
  n ← randint 5 10;
  mret ((r, g, b), n).

(** [update] *)
Definition update (self : rocket F) (dt : F) (acceleration : Vec2.t F)
    (window : Window) : rand G (list (entity F)) :=
  '(base', survived) ← lift (Particle.update (base self) dt acceleration window);
  let self1 := mk_rocket base' (last_spark self + dt) in
  if negb survived then
    r ← randint 100 255;
    g ← randint 100 255;
    b ← randint 100 255;
    n ← randint 5 10;
    repeatM (Z.to_nat n) (burst_firework base' (r, g, b))
  else if spark_due self1 then
    let self2 := mk_rocket base' (flt 0) in
    s ← spark self2;
    mret [ESuperFirework self2; s]
  else mret [ESuperFirework self1].
End Generic.

Arguments t F : clear implicits.

(** ** The branches of [SuperFirework.update], in every arithmetic *)

Section Facts.
Context {F : Type} `{Num F} {G : Type} `{RandomSourceLaws G}.
Local Open Scope num_scope.
Implicit Types (r : rocket F) (dt : F) (a : Vec2.t F) (win : Window) (g : G).

Abbreviation stepped r dt a := (Particle.step (base r) dt a).
Abbreviation aged r dt a := (mk_rocket (stepped r dt a) (last_spark r + dt)).
Abbreviation reset r dt a := (mk_rocket (stepped r dt a) (flt 0)).

(** The duplicated code is the same code. *)
Lemma colour_eq r : colour (G:=G) r = Firework.colour r.
Proof. reflexivity. Qed.

Lemma diff_eq : diff (F:=F) (G:=G) = Firework.diff.
Proof. reflexivity. Qed.

Lemma spark_eq r : spark (G:=G) r = Firework.spark r.
Proof. reflexivity. Qed.

Lemma spark_due_eq r : spark_due r = Firework.spark_due r.
Proof. reflexivity. Qed.

Lemma super_update_dead r dt a win :
  Particle.alive (stepped r dt a) win = false ->
  update (G:=G) r dt a win ≡
  (cr ← randint 100 255; cg ← randint 100 255; cb ← randint 100 255;
   n ← randint 5 10;
   repeatM (Z.to_nat n) (burst_firework (stepped r dt a) (cr, cg, cb))).
Proof. intros Ha g. enter_update update with Ha. reflexivity. Qed.

Lemma super_update_sparking r dt a win :
  Particle.alive (stepped r dt a) win = true ->
  spark_due (aged r dt a) = true ->
  update (G:=G) r dt a win ≡
  (s ← spark (reset r dt a); mret [ESuperFirework (reset r dt a); s]).
Proof. intros Ha Hs g. enter_update update with Ha. rewrite Hs. reflexivity. Qed.

Lemma super_update_coasting r dt a win :
  Particle.alive (stepped r dt a) win = true ->
  spark_due (aged r dt a) = false ->
  update (G:=G) r dt a win ≡ mret [ESuperFirework (aged r dt a)].
Proof. intros Ha Hs g. enter_update update with Ha. rewrite Hs. reflexivity. Qed.

(** What one iteration of the burst loop appends: a fresh [Firework]. *)
Definition firework_child (parent : Particle.t F) (c : rgb) (e : entity F) : Prop :=
  exists k, e = EFirework k /\
    last_spark k = flt 0 /\
    Particle._colour (base k) = c /\
    Particle.position (base k) = Particle.position parent /\
    Particle.timer (base k) = flt 0 /\
    is_Some (Particle.lifespan (base k)).

Lemma burst_firework_post parent c :
  post (burst_firework parent c) (firework_child parent c).
Proof. child_post burst_firework. Qed.

(** C4: when the base update reports the super-firework dead, the list it
    returns holds between 5 and 10 entities, both bounds included, every
    one of them a fresh [Firework] (spark timer 0, age 0, a lifespan) at
    the super-firework's last position, all constructed with one colour
    whose channels lie in [[100, 255]]; the super-firework is not in the
    list. *)
Theorem super_update_detonates r dt a win :
  Particle.alive (stepped r dt a) win = false ->
  post (update r dt a win) (fun l =>
    (5 <= length l <= 10)%nat /\
    exists c, rgb_valid c /\ rgb_le (100, 100, 100)%Z c /\
              Forall (firework_child (stepped r dt a) c) l).
Proof.
  intros Ha g l g' Hrun. rewrite (super_update_dead r dt a win Ha) in Hrun.
  inv_bind. randint_ranges.
  split.
  - rewrite (post_repeatM_length _ _ _ _ _ Hrun). lia.
  - eexists. split; [| split;
      [| exact (post_repeatM _ _ _ (burst_firework_post _ _) _ _ _ Hrun)]];
      cbn; lia.
Qed.

(** C37: while the base update keeps it, a super-firework behaves as a
    firework does: it heads the list, alone with its spark timer advanced
    or followed by one trail spark with the timer reset. *)
Theorem super_update_ascends r dt a win :
  Particle.alive (stepped r dt a) win = true ->
  post (update r dt a win) (fun l =>
    if spark_due (aged r dt a)
    then exists s, l = [ESuperFirework (reset r dt a); s] /\
                   Firework.trail_spark (reset r dt a) s
    else l = [ESuperFirework (aged r dt a)]).
Proof.
  intros Ha g l g' Hrun. destruct (spark_due (aged r dt a)) eqn:Hs.
  - rewrite (super_update_sparking r dt a win Ha Hs) in Hrun. inv_bind.
    eexists. split; [reflexivity |]. exact (Firework.spark_post _ _ _ _ Ha0).
  - rewrite (super_update_coasting r dt a win Ha Hs) in Hrun. inv_bind.
    reflexivity.
Qed.

Lemma super_update_raises_only r dt a win :
  raises_only (update (G:=G) r dt a win) ZeroDivisionError.
Proof.
  unfold update. apply raises_only_bind; [raises_steps; raises_finish |].
  intros [b' survived]. raises_steps; raises_finish.
Qed.

(** ** When [SuperFirework.update] raises *)
Lemma burst_firework_raises_iff parent c g e :
  run (burst_firework parent c) g = Raise e <->
  Firework.centred g /\ e = ZeroDivisionError.
Proof.
  unfold burst_firework.
  rewrite run_bind_Raise_iff; [rewrite diff_eq; apply Firework.diff_raises_iff |].
  intros d. cbn [Vec2.add]. apply total_bind; [apply total_lift_Ok |]. intros v.
  apply total_bind; [auto with fw | intros rl; apply total_ret].
Qed.

Lemma super_burst_draws_total : total (burst_draws (G:=G)).
Proof.
  unfold burst_draws.
  repeat (apply total_bind; [auto with fw | intros ?]). apply total_ret.
Qed.

Lemma super_update_dead_draws r dt a win :
  Particle.alive (stepped r dt a) win = false ->
  update (G:=G) r dt a win ≡
  ('(c, n) ← burst_draws;
   repeatM (Z.to_nat n) (burst_firework (stepped r dt a) c)).
Proof.
  intros Ha g. rewrite (super_update_dead r dt a win Ha g). unfold burst_draws.
  repeat first [rewrite run_bind | rewrite randint_total | rewrite run_ret].
  reflexivity.
Qed.

Lemma super_ascent_raises_iff r dt a win g e :
  Particle.alive (stepped r dt a) win = true ->
  run (update r dt a win) g = Raise e <->
  e = ZeroDivisionError /\ spark_due (aged r dt a) = true /\
  (Vec2.length (Particle.velocity (stepped r dt a)) =? flt 0) = true.
Proof.
  intros Ha. destruct (spark_due (aged r dt a)) eqn:Hd.
  - rewrite (super_update_sparking r dt a win Ha Hd g).
    rewrite run_bind_Raise_iff by (intros s; apply total_ret).
    rewrite spark_eq, Firework.spark_raises_iff. cbn [base]. tauto.
  - rewrite (super_update_coasting r dt a win Ha Hd g), run_ret.
    split; [discriminate | intros (_ & [=] & _)].
Qed.

Lemma super_burst_raises_iff r dt a win g e :
  Particle.alive (stepped r dt a) win = false ->
  run (update r dt a win) g = Raise e <->
  e = ZeroDivisionError /\
  exists c n g0 i l gi,
    run burst_draws g = Ok ((c, n), g0) /\ (i < Z.to_nat n)%nat /\
    run (repeatM i (burst_firework (stepped r dt a) c)) g0 = Ok (l, gi) /\
    Firework.centred gi.
Proof.
  intros Ha. rewrite (super_update_dead_draws r dt a win Ha g), run_bind.
  destruct (super_burst_draws_total g) as ([c n] & g0 & ->).
  rewrite repeatM_Raise_iff. split.
  - intros (i & l & gi & Hi & Hl & [Hz ->]%burst_firework_raises_iff).
    split; [reflexivity |]. eexists c, n, g0, i, l, gi. auto.
  - intros (-> & c' & n' & g0' & i & l & gi & [= <- <- <-] & Hi & Hl & Hz).
    exists i, l, gi. rewrite burst_firework_raises_iff. auto.
Qed.

(** C40: when a super-firework stops the program.  Its [update] raises
    exactly in two cases.  While the base update keeps it: a trail spark
    is due and the length of its new velocity tests equal to zero.  When
    the base update reports it dead: the burst loop, after the draws of
    the colour and of the number of children, reaches a child whose
    direction is drawn as a vector whose length tests equal to zero.  The
    exception is [ZeroDivisionError] in both. *)
Theorem super_update_raises_iff r dt a win g e :
  run (update r dt a win) g = Raise e <->
  e = ZeroDivisionError /\
  if Particle.alive (stepped r dt a) win
  then spark_due (aged r dt a) = true /\
       (Vec2.length (Particle.velocity (stepped r dt a)) =? flt 0) = true
  else exists c n g0 i l gi,
         run burst_draws g = Ok ((c, n), g0) /\ (i < Z.to_nat n)%nat /\
         run (repeatM i (burst_firework (stepped r dt a) c)) g0 = Ok (l, gi) /\
         Firework.centred gi.
Proof.
  destruct (Particle.alive (stepped r dt a) win) eqn:Ha.
  - apply super_ascent_raises_iff, Ha.
  - apply super_burst_raises_iff, Ha.
Qed.
End Facts.

(** ** Ranges of the random quantities, over the real numbers *)

Section Real.
Context {G : Type} `{RandomSourceLaws G}.
Local Open Scope R_scope.
Implicit Types (r : rocket R) (parent : Particle.t R) (c : rgb).

(** A child of the cascade, with the ranges of its random slots. *)
Definition firework_child_real parent c (e : entity R) : Prop :=
  exists k d L, e = EFirework k /\
    last_spark k = 0 /\
    Particle._colour (base k) = c /\
    Particle.position (base k) = Particle.position parent /\
    Particle.timer (base k) = 0 /\
    Particle.lifespan (base k) = Some L /\ 1 <= L < 4 /\
    Vec2.add (Particle.velocity parent) (Vec2.OVec d) = Ok (Particle.velocity (base k)) /\
    5 / 100 <= Vec2.length d < 20 / 100.

Lemma burst_firework_real parent c :
  post (burst_firework (G:=G) parent c) (firework_child_real parent c).
Proof.
  intros g e g' Hrun. unfold burst_firework in Hrun. inv_bind.
  match goal with Hd : run diff _ = Ok (?d, _) |- _ =>
    apply Firework.diff_magnitude in Hd; eexists _, d, _ end.
  random_ranges. split; [reflexivity |]. unfold Firework.init. fields.
  do 5 (split; [reflexivity |]). split; [real; lra |].
  split; assumption.
Qed.

(** C38: over the reals, a dying super-firework is replaced by between 5
    and 10 fireworks (both bounds included), each with a lifespan in
    [[1, 4)], age 0 and the super-firework's last velocity plus an offset
    of magnitude in [[0.05, 0.2)]. *)
Theorem super_update_detonates_real r dt a win :
  Particle.alive (Particle.step (base r) dt a) win = false ->
  post (update (G:=G) r dt a win) (fun l =>
    (5 <= length l <= 10)%nat /\
    exists c, Forall (firework_child_real (Particle.step (base r) dt a) c) l).
Proof.
  intros Ha g l g' Hrun. rewrite (super_update_dead r dt a win Ha) in Hrun.
  inv_bind. randint_ranges. split.
  - rewrite (post_repeatM_length _ _ _ _ _ Hrun). lia.
  - eexists. exact (post_repeatM _ _ _ (burst_firework_real _ _) _ _ _ Hrun).
Qed.
End Real.
End SuperFirework.

(** Case analysis on the branch the [update] of a rocket of either class
    took in the run [Hrun]: trail spark, coasting ([Ha]: the base update
    kept the rocket; [Hd]: the cadence test) or burst.  In each case
    [Hrun] becomes the run of that branch, broken into its steps. *)
Tactic Notation "update_branches" constr(r) constr(dt) constr(a) constr(win)
    "in" hyp(Hrun) "as" ident(Ha) ident(Hd) :=
  destruct (Particle.alive (Particle.step (base r) dt a) win) eqn:Ha;
  [ destruct (Firework.spark_due
                (mk_rocket (Particle.step (base r) dt a) (nadd (last_spark r) dt)))
      eqn:Hd;
    [ first [ rewrite (Firework.update_sparking r dt a win Ha Hd) in Hrun
            | rewrite (SuperFirework.super_update_sparking r dt a win Ha Hd) in Hrun ]
    | first [ rewrite (Firework.update_coasting r dt a win Ha Hd) in Hrun
            | rewrite (SuperFirework.super_update_coasting r dt a win Ha Hd) in Hrun ] ]
  | first [ rewrite (Firework.update_dead r dt a win Ha) in Hrun
          | rewrite (SuperFirework.super_update_dead r dt a win Ha) in Hrun ] ];
  inv_bind.

(** ** Dispatch on the class of an entity *)

Section Dispatch.
Context {F : Type} `{Num F} {G : Type} `{RandomSource G}.

(** [e.update(dt, acceleration, window)] *)
Definition entity_update (e : entity F) (dt : F) (acceleration : Vec2.t F)
    (window : Window) : rand G (list (entity F)) :=
  match e with
  | EParticle p =>
      '(p', survived) ← lift (G:=G) (Particle.update p dt acceleration window);
      mret (if survived : bool then [EParticle p'] else [])
  | EFirework r => Firework.update r dt acceleration window
  | ESuperFirework r => SuperFirework.update r dt acceleration window
  end.

(** [e.colour] *)
Definition entity_colour (e : entity F) : rand G rgb :=
  match e with
  | EParticle p => lift (Particle.colour p)
  | EFirework r => Firework.colour r
  | ESuperFirework r => SuperFirework.colour r
  end.

Implicit Types (e : entity F) (dt : F) (a : Vec2.t F) (win : Window).

(** A plain particle's update never raises: it returns the particle when
    it survives and nothing otherwise. *)
Lemma entity_update_particle p dt a win g :
  run (entity_update (EParticle p) dt a win) g =
  Ok (if Particle.alive (Particle.step p dt a) win
      then [EParticle (Particle.step p dt a)] else [], g).
Proof.
  unfold entity_update. rewrite run_bind, Particle.update_spec, run_lift_Ok.
  reflexivity.
Qed.
End Dispatch.

Section DispatchFacts.
Context {F : Type} `{Num F} {G : Type} `{RandomSourceLaws G}.

Lemma entity_update_raises e dt a win :
  raises_only (entity_update (G:=G) e dt a win) ZeroDivisionError.
Proof.
  destruct e as [p|r|r].
  - intros g e. rewrite entity_update_particle. discriminate.
  - apply Firework.update_raises_only.
  - apply SuperFirework.super_update_raises_only.
Qed.

Lemma firework_update_length r dt a win :
  post (Firework.update (G:=G) r dt a win) (fun l => (1 <= length l <= 100)%nat).
Proof.
  intros g l g' Hrun. update_branches r dt a win in Hrun as Ha Hd.
  - cbn. lia.
  - cbn. lia.
  - randint_ranges. rewrite (post_repeatM_length _ _ _ _ _ Hrun). lia.
Qed.

Lemma super_update_length r dt a win :
  post (SuperFirework.update (G:=G) r dt a win) (fun l => (1 <= length l <= 10)%nat).
Proof.
  intros g l g' Hrun. update_branches r dt a win in Hrun as Ha Hd.
  - cbn. lia.
  - cbn. lia.
  - randint_ranges. rewrite (post_repeatM_length _ _ _ _ _ Hrun). lia.
Qed.

Lemma entity_update_length e dt a win :
  post (entity_update (G:=G) e dt a win) (fun l => (length l <= 100)%nat).
Proof.
  destruct e as [p|r|r]; intros g l g' Hrun.
  - rewrite entity_update_particle in Hrun. injection Hrun as <- _.
    destruct (Particle.alive _ _); cbn; lia.
  - apply firework_update_length in Hrun. lia.
  - apply super_update_length in Hrun. lia.
Qed.

(** C24: one update of an entity returns at most 100 entities, and a
    rocket of either class is never dropped without a replacement: its
    update returns at least one entity (itself or its burst), at most 100
    for a firework and at most 10 for a super-firework.  Only a plain
    particle can leave nothing behind. *)
Theorem entity_update_count e dt a win :
  post (entity_update (G:=G) e dt a win) (fun l =>
    match e with
    | EParticle _ => (length l <= 1)%nat
    | EFirework _ => (1 <= length l <= 100)%nat
    | ESuperFirework _ => (1 <= length l <= 10)%nat
    end).
Proof.
  destruct e as [p|r|r]; intros g l g' Hrun.
  - rewrite entity_update_particle in Hrun. injection Hrun as <- _.
    destruct (Particle.alive _ _); cbn; lia.
  - exact (firework_update_length _ _ _ _ _ _ _ Hrun).
  - exact (super_update_length _ _ _ _ _ _ _ Hrun).
Qed.
(** Membership in a list of classes written out. *)
Ltac in_classes :=
  cbn; rewrite ?elem_of_cons, ?elem_of_nil; intuition first [discriminate | lia | auto].

Lemma burst_child_class parent c e :
  Firework.burst_child parent c e -> class_of e = CParticle.
Proof. intros (p & -> & _). reflexivity. Qed.

Lemma trail_spark_class r e : Firework.trail_spark r e -> class_of e = CParticle.
Proof. intros (p & -> & _). reflexivity. Qed.

Lemma firework_child_class parent c e :
  SuperFirework.firework_child parent c e -> class_of e = CFirework.
Proof. intros (k & -> & _). reflexivity. Qed.

(** Every member of a list is of a class the class [c] constructs. *)
Definition constructed_by (c : class) (l : list (entity F)) : Prop :=
  Forall (fun e => class_of e ∈ constructs c) l.

Lemma burst_constructed c c' (P : entity F -> Prop) l :
  (forall e, P e -> class_of e = c') -> c' ∈ constructs c ->
  Forall P l -> constructed_by c l.
Proof.
  intros HP Hc Hl. eapply Forall_impl; [exact Hl |].
  intros e He. rewrite (HP e He). exact Hc.
Qed.

(** The classes in what an update returns.  An update returns the object
    itself, if at all, at the head of the list; everything else is of a
    class its class constructs. *)
Definition offspring (e : entity F) (l : list (entity F)) : Prop :=
  constructed_by (class_of e) l \/
  exists e' l', l = e' :: l' /\ class_of e' = class_of e /\
                constructed_by (class_of e) l'.

Lemma firework_update_class r dt a win :
  post (Firework.update (G:=G) r dt a win) (offspring (EFirework r)).
Proof.
  intros g l g' Hrun. update_branches r dt a win in Hrun as Ha Hd.
  - right. eexists _, _. repeat split. each_member.
    match goal with Hs : run (Firework.spark _) _ = _ |- _ =>
      rewrite (trail_spark_class _ _ (Firework.spark_post _ _ _ _ Hs)) end.
    in_classes.
  - right. eexists _, _. repeat split. each_member.
  - left. apply (post_repeatM _ _ _ (Firework.burst_particle_post _ _)) in Hrun.
    eapply burst_constructed, Hrun; [apply burst_child_class | in_classes].
Qed.

Lemma super_update_class r dt a win :
  post (SuperFirework.update (G:=G) r dt a win) (offspring (ESuperFirework r)).
Proof.
  intros g l g' Hrun. update_branches r dt a win in Hrun as Ha Hd.
  - right. eexists _, _. repeat split. each_member.
    match goal with Hs : run _ _ = Ok _ |- _ =>
      rewrite (trail_spark_class _ _ (Firework.spark_post _ _ _ _ Hs)) end.
    in_classes.
  - right. eexists _, _. repeat split. each_member.
  - left. apply (post_repeatM _ _ _ (SuperFirework.burst_firework_post _ _)) in Hrun.
    eapply burst_constructed, Hrun; [apply firework_child_class | in_classes].
Qed.

(** C14: the classes in what an update returns.  Whatever the class of an
    entity, the list its [update] returns holds the entity itself at most
    once, at the head, and otherwise only objects of the classes its class
    constructs: plain particles after a firework, fireworks and plain
    particles after a super-firework, nothing after a plain particle.  So
    no update ever returns an object that can start more generations of
    bursts than the entity updated. *)
Theorem entity_update_class e dt a win :
  post (entity_update (G:=G) e dt a win) (fun l =>
    offspring e l /\
    Forall (fun e' => (generations (class_of e') <= generations (class_of e))%nat) l).
Proof.
  assert (forall l, offspring e l ->
    Forall (fun e' => (generations (class_of e') <= generations (class_of e))%nat) l)
    as Hgen.
  { assert (forall l, constructed_by (class_of e) l ->
      Forall (fun e' => (generations (class_of e') <= generations (class_of e))%nat) l)
      as Hc by (intros l Hl; eapply Forall_impl; [exact Hl |]; intros e';
                destruct e, e'; in_classes).
    intros l [Hl | (e' & l' & -> & He' & Hl)]; [auto |].
    apply Forall_cons. rewrite He'. auto. }
  eapply post_weaken; [| intros l Hl; exact (conj Hl (Hgen l Hl))].
  destruct e as [p|r|r].
  - intros g l g' Hrun. rewrite entity_update_particle in Hrun. injection Hrun as <- _.
    destruct (Particle.alive _ _); [right; eexists _, _ | left]; repeat split; each_member.
  - apply firework_update_class.
  - apply super_update_class.
Qed.

(** C16: whatever the class of an entity, the only exception its [update]
    can raise is [ZeroDivisionError]: the type guards of [Vec2] never fire,
    and a plain particle's update raises nothing at all. *)
Theorem entity_update_raises_only (e : entity F) dt a win :
  raises_only (entity_update (G:=G) e dt a win) ZeroDivisionError /\
  (is_particle e = true -> total (entity_update (G:=G) e dt a win)).
Proof.
  split; [apply entity_update_raises |].
  - destruct e as [p|r|r]; [| discriminate | discriminate].
    intros _ g. rewrite entity_update_particle. eauto.
Qed.
End DispatchFacts.

#[export] Hint Resolve entity_update_raises : fw.

(** ** The theorems at concrete inputs

    Runs in binary64 on the tape generator.  An exhausted tape draws 0
    everywhere: [random()] is [0.0] and [randint(a, b)] is [a]. *)

Section Witnesses.
Local Open Scope Z_scope.

Definition gravity : Vec2.t float := Vec2.mk (flt 0) (nneg (dec 1 1)).
Definition win800 : Window := {| width := 800; height := 600 |}.

(** A firework with lifespan 0 (the scenario of the specification): its
    first update detonates it. *)
Definition spent : rocket float :=
  Firework.init (Vec2.mk (flt 0) (flt 1)) (Vec2.mk (flt 0) (dec 3 1))
                (255, 255, 255) (Some (flt 0)).

(** A firework in flight, one second into a life of five. *)
Definition rising : rocket float :=
  Firework.init (Vec2.mk (flt 0) (flt 1)) (Vec2.mk (dec 1 2) (dec 3 1))
                (255, 255, 255) (Some (flt 5)).

(** A firework whose upward speed is exactly cancelled by one tick of
    gravity. *)
Definition stalling : rocket float :=
  Firework.init (Vec2.mk (flt 0) (flt 1)) (Vec2.mk (flt 0) (dec 1 1))
                (255, 255, 255) (Some (flt 5)).

Definition tick : float := dec 1 2.

Lemma update_detonates_witness :
  post (Firework.update (G:=tape) spent tick gravity win800) (fun l =>
    (25 <= length l <= 100)%nat /\
    exists c, rgb_valid c /\
      Forall (Firework.burst_child (Particle.step (base spent) tick gravity) c) l).
Proof.
  apply (Firework.update_detonates spent tick gravity win800).
  vm_compute. reflexivity.
Defined.

Lemma update_ascends_witness :
  post (Firework.update (G:=tape) rising tick gravity win800) (fun l =>
    exists s,
      l = [EFirework (mk_rocket (Particle.step (base rising) tick gravity) (flt 0)); s] /\
      Firework.trail_spark
        (mk_rocket (Particle.step (base rising) tick gravity) (flt 0)) s).
Proof.
  assert (Ha : Particle.alive (Particle.step (base rising) tick gravity) win800
               = true) by (vm_compute; reflexivity).
  pose proof (Firework.update_ascends (G:=tape) rising tick gravity win800 Ha)
    as Hp.
  replace (Firework.spark_due _) with true in Hp by (vm_compute; reflexivity).
  exact Hp.
Defined.

Lemma super_update_detonates_witness :
  post (SuperFirework.update (G:=tape) spent tick gravity win800) (fun l =>
    (5 <= length l <= 10)%nat /\
    exists c, rgb_valid c /\ rgb_le (100, 100, 100) c /\
      Forall (SuperFirework.firework_child
                (Particle.step (base spent) tick gravity) c) l).
Proof.
  apply (SuperFirework.super_update_detonates spent tick gravity win800).
  vm_compute. reflexivity.
Defined.

Lemma super_update_ascends_witness :
  post (SuperFirework.update (G:=tape) rising tick gravity win800) (fun l =>
    exists s,
      l = [ESuperFirework (mk_rocket (Particle.step (base rising) tick gravity) (flt 0)); s] /\
      Firework.trail_spark
        (mk_rocket (Particle.step (base rising) tick gravity) (flt 0)) s).
Proof.
  assert (Ha : Particle.alive (Particle.step (base rising) tick gravity) win800
               = true) by (vm_compute; reflexivity).
  pose proof (SuperFirework.super_update_ascends (G:=tape) rising tick gravity
                win800 Ha) as Hp.
  replace (SuperFirework.spark_due _) with true in Hp by (vm_compute; reflexivity).
  exact Hp.
Defined.

(** The same two fireworks over the reals. *)
Definition gravity_real : Vec2.t R := Vec2.mk 0%R (- (1 / 10))%R.

Definition spent_real : rocket R :=
  Firework.init (Vec2.mk 0%R 1%R) (Vec2.mk 0%R (3 / 10)%R) (255, 255, 255)
                (Some 0%R).

Definition rising_real : rocket R :=
  Firework.init (Vec2.mk 0%R 1%R) (Vec2.mk 0%R (3 / 10)%R) (255, 255, 255)
                (Some 5%R).

Lemma spent_real_dead :
  Particle.alive (Particle.step (base spent_real) (1 / 100)%R gravity_real)
                 win800 = false.
Proof.
  apply Particle.alive_false. right. unfold Particle.expired. cbn.
  apply bool_decide_eq_true. lra.
Qed.

Lemma rising_real_alive :
  Particle.alive (Particle.step (base rising_real) (1 / 100)%R gravity_real)
                 win800 = true.
Proof.
  apply Particle.alive_true. split.
  - apply Particle.offscreen_real. rewrite Vec2.screen_space_real.
    cbn [fst snd Particle.step Particle.position Vec2.x Vec2.y]. cbn. lra.
  - apply Particle.expired_real. cbn. lra.
Qed.

Lemma update_detonates_real_witness :
  post (Firework.update (G:=tape) spent_real (1 / 100)%R gravity_real win800)
    (fun l => exists c,
       Forall (Firework.burst_child_real
                 (Particle.step (base spent_real) (1 / 100)%R gravity_real) c) l).
Proof.
  exact (Firework.update_detonates_real spent_real (1 / 100)%R gravity_real
           win800 spent_real_dead).
Defined.

Lemma super_update_detonates_real_witness :
  post (SuperFirework.update (G:=tape) spent_real (1 / 100)%R gravity_real win800)
    (fun l => (5 <= length l <= 10)%nat /\ exists c,
       Forall (SuperFirework.firework_child_real
                 (Particle.step (base spent_real) (1 / 100)%R gravity_real) c) l).
Proof.
  exact (SuperFirework.super_update_detonates_real spent_real (1 / 100)%R
           gravity_real win800 spent_real_dead).
Defined.

Lemma spark_every_tick_witness :
  post (Firework.update (G:=tape) rising_real (1 / 100)%R gravity_real win800)
    (fun l => exists s,
       l = [EFirework (mk_rocket
              (Particle.step (base rising_real) (1 / 100)%R gravity_real) 0%R); s] /\
       Firework.trail_spark_real
         (mk_rocket (Particle.step (base rising_real) (1 / 100)%R gravity_real) 0%R) s).
Proof.
  apply (Firework.spark_every_tick rising_real (1 / 100)%R gravity_real win800);
    [cbn; lra | exact rising_real_alive |].
  rewrite Vec2.length_eq. cbn.
  replace ((0 + 0 * (1 / 100)) * (0 + 0 * (1 / 100)))%R with 0%R by lra.
  rewrite Rplus_0_l, sqrt_square by lra. lra.
Defined.

Lemma update_spark_real_witness :
  post (Firework.update (G:=tape) rising_real (1 / 100)%R gravity_real win800)
    (fun l => forall s, l !! 1%nat = Some s ->
       let r' := mk_rocket (Particle.step (base rising_real) (1 / 100)%R
                                          gravity_real) 0%R in
       l = [EFirework r'; s] /\ Firework.trail_spark_real r' s /\
       (Vec2.length (Particle.velocity (base r')) / 800
          < last_spark rising_real + 1 / 100)%R).
Proof.
  exact (Firework.update_spark_real rising_real (1 / 100)%R gravity_real
           win800 rising_real_alive).
Defined.

(** The burst of [spent] on the exhausted tape, and the count theorem at
    this run. *)
Definition spent_burst : list (entity float) :=
  Eval vm_compute in
    match run (Firework.update spent tick gravity win800) ([] : tape) with
    | Ok (l, _) => l
    | Raise _ => []
    end.

Lemma entity_update_count_witness : (1 <= length spent_burst <= 100)%nat.
Proof.
  apply (entity_update_count (EFirework spent) tick gravity win800
           ([] : tape) spent_burst []).
  vm_compute. reflexivity.
Defined.

(** On the exhausted tape the burst of a firework has exactly 25 black
    particles, each with lifespan 2. *)
Example spent_burst_run :
  match run (Firework.update spent tick gravity win800) ([] : tape) with
  | Ok (l, _) =>
      length l = 25%nat /\
      Forall (fun e => Particle._colour (slots e) = (0, 0, 0) /\
                       Particle.lifespan (slots e) = Some (flt 2) /\
                       is_particle e = true) l
  | Raise _ => False
  end.
Proof.
  vm_compute. split; [reflexivity |].
  repeat constructor.
Qed.

(** In binary64 one tick of gravity of length 1 cancels the upward speed
    of [stalling] exactly: the rocket is alive, a spark is due and the
    velocity has length [0.0]. *)
Lemma ascent_raises_iff_witness :
  run (Firework.update stalling (flt 1) gravity win800) ([] : tape)
    = Raise ZeroDivisionError <->
  Firework.spark_due
    (mk_rocket (Particle.step (base stalling) (flt 1) gravity)
               (last_spark stalling + flt 1)%num) = true /\
  (Vec2.length (Particle.velocity (Particle.step (base stalling) (flt 1) gravity))
     =? flt 0)%num = true /\
  ZeroDivisionError = ZeroDivisionError.
Proof.
  apply (Firework.ascent_raises_iff stalling (flt 1) gravity win800 []
           ZeroDivisionError).
  vm_compute. reflexivity.
Defined.

Example stalling_raises :
  run (Firework.update stalling (flt 1) gravity win800) ([] : tape)
  = Raise ZeroDivisionError.
Proof. vm_compute. reflexivity. Qed.

(** The tape on which the first child of a burst is thrown in no
    direction: four draws for the colour and the size, then [2^52] twice,
    which [random()] turns into [0.5] and [0.5]. *)
Definition centre_tape : tape := [0; 0; 0; 0; 2 ^ 52; 2 ^ 52].

Lemma burst_raises_iff_witness :
  run (Firework.update spent tick gravity win800) centre_tape
    = Raise ZeroDivisionError <->
  ZeroDivisionError = ZeroDivisionError /\
  exists c n g0 i l gi,
    run Firework.burst_draws centre_tape = Ok ((c, n), g0) /\
    (i < Z.to_nat n)%nat /\
    run (repeatM i (Firework.burst_particle
                      (Particle.step (base spent) tick gravity) c)) g0
      = Ok (l, gi) /\
    Firework.centred (F:=float) gi.
Proof.
  apply (Firework.burst_raises_iff spent tick gravity win800 centre_tape
           ZeroDivisionError).
  vm_compute. reflexivity.
Defined.

(** A super-firework that dies on [centre_tape]: the first of its
    children is thrown in no direction. *)
Lemma super_update_raises_iff_witness :
  run (SuperFirework.update spent tick gravity win800) centre_tape
    = Raise ZeroDivisionError <->
  ZeroDivisionError = ZeroDivisionError /\
  exists c n g0 i l gi,
    run SuperFirework.burst_draws centre_tape = Ok ((c, n), g0) /\
    (i < Z.to_nat n)%nat /\
    run (repeatM i (SuperFirework.burst_firework
                      (Particle.step (base spent) tick gravity) c)) g0
      = Ok (l, gi) /\
    Firework.centred (F:=float) gi.
Proof.
  exact (SuperFirework.super_update_raises_iff spent tick gravity win800
           centre_tape ZeroDivisionError).
Defined.

Example burst_raises_on_centre :
  run (Firework.update spent tick gravity win800) centre_tape
  = Raise ZeroDivisionError.
Proof. vm_compute. reflexivity. Qed.

(** A trail spark can be born with lifespan 0 (when [random()] draws 0.0);
    reading its colour then divides by zero. *)
Example spark_of_lifespan_zero :
  match run (Firework.update rising tick gravity win800) ([] : tape) with
  | Ok ([_; s], _) =>
      Particle.lifespan (slots s) = Some (flt 0) /\
      Particle.colour (slots s) = Raise ZeroDivisionError
  | _ => False
  end.
Proof. vm_compute. split; reflexivity. Qed.
End Witnesses.
