(* ===== verification/Lifecycle.v ===== *)
(** * Lifecycle: what holds of an entity from its creation to its removal

    The first part is over the real numbers: [entity_ok] is the invariant
    of every entity the program creates (it has a lifespan, it is younger
    than its lifespan or has just been created, its colour is a valid
    colour), and every [update] with a non-negative [dt] returns entities
    that satisfy it.  The second part follows one particle through several
    ticks ([survive]) and bounds its life: no entity is kept by a tick at
    whose end its age has reached its lifespan, whatever the elapsed times
    were.  The third part is the deterministic side of an entity that
    survives: [entity_step] is the state its [update] leaves it in, at the
    head of the list it returns, and [flight] and [entity_flight] iterate
    it; the spacing of the trail sparks is proved on it. *)

From Stdlib Require Import ZArith Reals Lia Lra Zfloor.
From stdpp Require Import base list.
From S2P Require Import Prelude Numeric NumReal Random Vec2 Particle Firework.

(** ** The invariant of the entities, over the real numbers *)

Section Invariant.
Context {G : Type} `{RandomSourceLaws G}.
Local Open Scope R_scope.
Implicit Types (p : Particle.t R) (r : rocket R) (e : entity R) (c : rgb).

(** Younger than its lifespan. *)
Definition young p : Prop :=
  exists L, Particle.lifespan p = Some L /\ 0 <= Particle.timer p < L.

(** Created with a lifespan of 0: only a trail spark can be. *)
Definition stillborn p : Prop :=
  Particle.lifespan p = Some 0 /\ Particle.timer p = 0.

(** The slots no update changes: the lifespan is a number below 12 (the
    longest life the program gives is that of a burst particle) and the
    base colour is a valid colour. *)
Definition well_made p : Prop :=
  (exists L, Particle.lifespan p = Some L /\ L < 12) /\
  rgb_valid (Particle._colour p).

Definition particle_ok p : Prop := (young p \/ stillborn p) /\ well_made p.

(** A rocket is always young and its spark timer is never negative; a
    plain particle is young or stillborn. *)
Definition entity_ok e : Prop :=
  match e with
  | EParticle p => particle_ok p
  | EFirework r | ESuperFirework r =>
      young (base r) /\ well_made (base r) /\ 0 <= last_spark r
  end.

Lemma entity_ok_slots e : entity_ok e -> particle_ok (slots e).
Proof. destruct e; cbn; unfold particle_ok; tauto. Qed.

(** What the invariant says of the age and the lifespan. *)
Lemma entity_ok_life e :
  entity_ok e ->
  exists L, Particle.lifespan (slots e) = Some L /\
            0 <= Particle.timer (slots e) <= L /\ L < 12.
Proof.
  intros [Hage [(L & Hl & HL) _]]%entity_ok_slots. exists L.
  split; [exact Hl |].
  destruct Hage as [(L' & Hl' & Ht) | [Hl' Ht]]; rewrite Hl in Hl';
    injection Hl' as ->; lra.
Qed.

Lemma made_well p L c :
  Particle.lifespan p = Some L -> L < 12 -> Particle._colour p = c ->
  rgb_valid c -> well_made p.
Proof. intros Hl HL <- Hc. split; [eauto | exact Hc]. Qed.

Lemma fresh_ok p L :
  Particle.lifespan p = Some L -> Particle.timer p = 0 -> 0 <= L ->
  young p \/ stillborn p.
Proof.
  intros Hl Ht [HL | <-].
  - left. exists L. split; [exact Hl | lra].
  - right. split; assumption.
Qed.

(** A particle kept by a tick of non-negative length is young. *)
Lemma step_young p dt a win :
  young p \/ stillborn p -> 0 <= dt ->
  Particle.alive (Particle.step p dt a) win = true ->
  young (Particle.step p dt a).
Proof.
  intros Hp Hdt [_ He]%Particle.alive_true. apply Particle.expired_real in He.
  assert (0 <= Particle.timer p) as Ht
    by (destruct Hp as [(L & _ & Ht) | [_ ->]]; lra).
  cbn in He. destruct (Particle.lifespan p) as [L|] eqn:Hl.
  - exists L. cbn. split; [exact Hl | real; lra].
  - destruct Hp as [(L & HL & _) | [HL _]]; congruence.
Qed.

Lemma burst_child_ok parent c e :
  rgb_valid c -> Firework.burst_child_real parent c e -> entity_ok e.
Proof.
  intros Hc (p & d & L & -> & Hcol & _ & Ht & Hl & HL & _). cbn.
  split; [apply (fresh_ok p L); auto; lra |].
  apply (made_well p L c); auto; lra.
Qed.

Lemma trail_spark_ok r e : Firework.trail_spark_real r e -> entity_ok e.
Proof.
  intros (p & L & -> & _ & Ht & Hl & HL & _ & _ & Hc). cbn.
  split; [apply (fresh_ok p L); auto; lra |].
  apply (made_well p L (Particle._colour p) Hl); auto; lra.
Qed.

Lemma firework_child_ok parent c e :
  rgb_valid c -> SuperFirework.firework_child_real parent c e -> entity_ok e.
Proof.
  intros Hc (k & d & L & -> & Hs & Hcol & _ & Ht & Hl & HL & _). cbn.
  split; [exists L; split; [exact Hl | lra] |].
  split; [apply (made_well _ L c); auto; lra | lra].
Qed.

(** The rocket an update keeps. *)
Lemma survivor_ok r dt a win s :
  entity_ok (EFirework r) -> 0 <= dt -> 0 <= s ->
  Particle.alive (Particle.step (base r) dt a) win = true ->
  entity_ok (EFirework (mk_rocket (Particle.step (base r) dt a) s)).
Proof.
  intros (Hy & Hc & _) Hdt Hs Ha. cbn [entity_ok base last_spark].
  split; [| split; [exact Hc | exact Hs]].
  apply (step_young _ _ _ win); auto.
Qed.

Lemma firework_update_ok r dt a win :
  entity_ok (EFirework r) -> 0 <= dt ->
  post (Firework.update (G:=G) r dt a win) (Forall entity_ok).
Proof.
  intros Hr Hdt g l g' Hrun.
  assert (0 <= last_spark r + dt) as Hs by (cbn in Hr; lra).
  update_branches r dt a win in Hrun as Ha Hd.
  - each_member.
    + apply (survivor_ok r dt a win 0); auto; lra.
    + eapply trail_spark_ok, Firework.spark_real; eassumption.
  - each_member. apply (survivor_ok r dt a win); auto.
  - randint_ranges.
    eapply Forall_impl;
      [exact (post_repeatM _ _ _ (Firework.burst_particle_real _ _) _ _ _ Hrun) |].
    intros e. apply burst_child_ok. cbn. lia.
Qed.

Lemma super_update_ok r dt a win :
  entity_ok (ESuperFirework r) -> 0 <= dt ->
  post (SuperFirework.update (G:=G) r dt a win) (Forall entity_ok).
Proof.
  intros Hr Hdt g l g' Hrun.
  assert (0 <= last_spark r + dt) as Hs by (cbn in Hr; lra).
  update_branches r dt a win in Hrun as Ha Hd.
  - each_member.
    + apply (survivor_ok r dt a win 0); auto; lra.
    + eapply trail_spark_ok, Firework.spark_real; eassumption.
  - each_member. apply (survivor_ok r dt a win); auto.
  - randint_ranges.
    eapply Forall_impl;
      [exact (post_repeatM _ _ _ (SuperFirework.burst_firework_real _ _) _ _ _ Hrun) |].
    intros e. apply firework_child_ok. cbn. lia.
Qed.

Lemma entity_update_ok e dt a win :
  entity_ok e -> 0 <= dt ->
  post (entity_update (G:=G) e dt a win) (Forall entity_ok).
Proof.
  destruct e as [p|r|r]; intros He Hdt;
    [| apply firework_update_ok; assumption | apply super_update_ok; assumption].
  intros g l g' Hrun. rewrite entity_update_particle in Hrun.
  injection Hrun as <- _.
  destruct (Particle.alive _ _) eqn:Ha; each_member. split.
  - left. apply (step_young _ _ _ win); [apply He | assumption ..].
  - apply He.
Qed.
End Invariant.

(** ** One particle through several ticks *)

Section Survival.
Context {F : Type} `{Num F}.

(** The particle after the ticks [dts], or [None] once an update has
    dropped it: what remains of it in the driver's collection. *)
Fixpoint survive (p : Particle.t F) (dts : list F) (a : Vec2.t F)
    (win : Window) : option (Particle.t F) :=
  match dts with
  | [] => Some p
  | dt :: dts' =>
      match Particle.update p dt a win with
      | Ok (p', true) => survive p' dts' a win
      | _ => None
      end
  end.

Lemma survive_cons p dt dts a win :
  survive p (dt :: dts) a win =
  if Particle.alive (Particle.step p dt a) win
  then survive (Particle.step p dt a) dts a win else None.
Proof. cbn [survive]. rewrite Particle.update_spec. reflexivity. Qed.

Lemma survive_app p dts1 dts2 a win :
  survive p (dts1 ++ dts2) a win =
  p' ← survive p dts1 a win; survive p' dts2 a win.
Proof.
  revert p. induction dts1 as [|dt dts1 IH]; intros p; [reflexivity |].
  rewrite <- app_comm_cons, !survive_cons.
  destruct (Particle.alive _ _); [apply IH | reflexivity].
Qed.

(** The particle after each of the ticks [dts], whether it is kept or
    not. *)
Fixpoint path (p : Particle.t F) (dts : list F) (a : Vec2.t F)
    : list (Particle.t F) :=
  match dts with
  | [] => []
  | dt :: dts' => Particle.step p dt a :: path (Particle.step p dt a) dts' a
  end.

(** A particle is still in the collection after the ticks [dts]
    exactly when every one of these ticks found it alive (on screen and
    younger than its lifespan) after moving it, and then it is in the state
    the last tick left; the first tick that finds it dead removes it for
    good. *)
Theorem survive_iff p dts a win p' :
  survive p dts a win = Some p' <->
  Forall (fun q => Particle.alive q win = true) (path p dts a) /\
  last (p :: path p dts a) = Some p'.
Proof.
  revert p. induction dts as [|dt dts IH]; intros p.
  - cbn. split; [intros [= <-]; split; [constructor | reflexivity] |].
    intros [_ [= <-]]. reflexivity.
  - rewrite survive_cons. cbn [path]. rewrite Forall_cons.
    change (last (p :: ?q :: ?l)) with (last (q :: l)).
    destruct (Particle.alive _ _); [rewrite IH; tauto |].
    split; [discriminate | intros [[[=] _] _]].
Qed.
End Survival.

Section BoundedLife.
Local Open Scope R_scope.
Implicit Types (p : Particle.t R) (dts : list R) (a : Vec2.t R) (win : Window).

(** The time a list of ticks spans. *)
Definition elapsed dts : R := foldr Rplus 0 dts.

Lemma elapsed_repeat dt n : elapsed (repeat dt n) = INR n * dt.
Proof.
  induction n as [|n IH]; [cbn; lra |].
  rewrite S_INR. cbn [repeat elapsed foldr]. fold (elapsed (repeat dt n)).
  rewrite IH. lra.
Qed.

(** A particle that is kept has aged by the time elapsed and has kept its
    lifespan and its colour; after at least one tick it is younger than
    its lifespan. *)
Lemma survive_slots p dts a win p' :
  survive p dts a win = Some p' ->
  Particle.timer p' = Particle.timer p + elapsed dts /\
  Particle.lifespan p' = Particle.lifespan p /\
  Particle._colour p' = Particle._colour p /\
  (dts <> [] -> forall L, Particle.lifespan p = Some L -> Particle.timer p' < L).
Proof.
  revert p. induction dts as [|dt dts IH]; intros p.
  - intros [= <-]. cbn. split; [lra | tauto].
  - rewrite survive_cons.
    destruct (Particle.alive _ _) eqn:Ha; [| discriminate].
    intros Hs. destruct (IH _ Hs) as (Ht & Hl & Hc & Hy). cbn in Ht, Hl, Hc.
    split; [cbn [elapsed foldr]; fold (elapsed dts); real; lra |]. do 2 (split; [assumption |]).
    intros _ L HL. destruct dts as [|d dts]; [| apply Hy; [discriminate | exact HL]].
    injection Hs as <-. apply Particle.alive_true in Ha as [_ He].
    apply Particle.expired_real in He. cbn in He. rewrite HL in He. exact He.
Qed.

(** The number of ticks of length [dt] that span more than [t]. *)
Definition ticks_to_span (t dt : R) : nat := S (Z.to_nat (Zfloor (t / dt))).

Lemma ticks_to_span_spans t dt : 0 < dt -> t < INR (ticks_to_span t dt) * dt.
Proof.
  intros Hdt. unfold ticks_to_span. rewrite S_INR, INR_IZR_INZ.
  pose proof (Zfloor_bound (t / dt)) as [_ Hq].
  assert (IZR (Zfloor (t / dt)) <= IZR (Z.of_nat (Z.to_nat (Zfloor (t / dt)))))
    by (apply IZR_le; lia).
  apply (Rmult_lt_compat_r dt) in Hq; [| exact Hdt].
  replace (t / dt * dt) with t in Hq by (field; lra). nra.
Qed.

(** C17: no particle outlives its lifespan.  Whatever the elapsed times of
    the ticks were (positive, zero or negative), a particle with lifespan
    [L] is not in the collection at the end of a tick at which its age has
    reached [L]. *)
Theorem lifespan_bounds_life p dts a win L :
  Particle.lifespan p = Some L -> dts <> [] ->
  L <= Particle.timer p + elapsed dts ->
  survive p dts a win = None.
Proof.
  intros HL Hne Hle. destruct (survive p dts a win) as [p'|] eqn:Hs; [| reflexivity].
  apply survive_slots in Hs as (Ht & _ & _ & Hy). specialize (Hy Hne L HL). lra.
Qed.

(** At a constant frame time [dt > 0], a particle of age [t] and
    lifespan [L] is gone after [floor((L - t) / dt) + 1] ticks at the
    latest, wherever it flies. *)
Theorem dies_within_ticks p dt a win L :
  Particle.lifespan p = Some L -> 0 < dt ->
  survive p (repeat dt (ticks_to_span (L - Particle.timer p) dt)) a win = None.
Proof.
  intros HL Hdt.
  destruct (survive p _ a win) as [p'|] eqn:Hs; [| reflexivity].
  apply survive_slots in Hs as (Ht & _ & _ & Hy).
  rewrite elapsed_repeat in Ht.
  pose proof (ticks_to_span_spans (L - Particle.timer p) dt Hdt).
  specialize (Hy ltac:(discriminate) L HL). lra.
Qed.
End BoundedLife.

(** ** A rocket through the ticks it survives *)

Section Flight.
Context {F : Type} `{Num F}.
Local Open Scope num_scope.
Implicit Types (r : rocket F) (dt : F) (a : Vec2.t F) (win : Window).

(** The slots [update] leaves in a rocket it keeps: the base slots
    stepped, the spark timer advanced and then reset if a spark is due. *)
Definition rocket_step r dt a : rocket F :=
  let r1 := mk_rocket (Particle.step (base r) dt a) (last_spark r + dt) in
  if Firework.spark_due r1 then mk_rocket (base r1) (flt 0) else r1.

(** Whether the tick emits a trail spark. *)
Definition sparks r dt a : bool :=
  Firework.spark_due (mk_rocket (Particle.step (base r) dt a) (last_spark r + dt)).

(** The rocket after the ticks [dts], all of which it survives. *)
Definition flight r dts a : rocket F :=
  foldl (fun r dt => rocket_step r dt a) r dts.

(** None of the ticks [dts] emits a spark. *)
Fixpoint coasts r dts a : bool :=
  match dts with
  | [] => true
  | dt :: dts' => negb (sparks r dt a) && coasts (rocket_step r dt a) dts' a
  end.

(** One tick of an entity that survives it: a plain particle is stepped,
    a rocket of either class takes a [rocket_step]; the class is kept. *)
Definition entity_step (e : entity F) dt a : entity F :=
  match e with
  | EParticle p => EParticle (Particle.step p dt a)
  | EFirework r => EFirework (rocket_step r dt a)
  | ESuperFirework r => ESuperFirework (rocket_step r dt a)
  end.

(** The entity after the ticks [dts], all of which it survives: its
    trajectory, in which nothing is random. *)
Definition entity_flight (e : entity F) dts a : entity F :=
  foldl (fun e dt => entity_step e dt a) e dts.

Lemma rocket_step_base r dt a :
  base (rocket_step r dt a) = Particle.step (base r) dt a.
Proof. unfold rocket_step. destruct (Firework.spark_due _); reflexivity. Qed.

Lemma entity_step_slots (e : entity F) dt a :
  slots (entity_step e dt a) = Particle.step (slots e) dt a.
Proof. destruct e; cbn [entity_step slots]; auto using rocket_step_base. Qed.

Lemma entity_step_class (e : entity F) dt a :
  class_of (entity_step e dt a) = class_of e.
Proof. destruct e; reflexivity. Qed.

Context {G : Type} `{RandomSource G}.

(** [rocket_step] and [sparks] are what [Firework.update] does to
    a rocket it keeps, whatever is drawn: the list starts with the rocket
    in the state [rocket_step] computes and has a second element, the
    spark, exactly when [sparks] says so. *)
Lemma update_refines_rocket_step r dt a win :
  Particle.alive (Particle.step (base r) dt a) win = true ->
  post (Firework.update (G:=G) r dt a win) (fun l =>
    head l = Some (EFirework (rocket_step r dt a)) /\
    length l = if sparks r dt a then 2%nat else 1%nat).
Proof.
  intros Ha. unfold rocket_step, sparks.
  destruct (Firework.spark_due _) eqn:Hd.
  - rewrite (Firework.update_sparking r dt a win Ha Hd).
    eapply post_bind; [apply post_True |]. intros s _. apply post_ret. auto.
  - rewrite (Firework.update_coasting r dt a win Ha Hd). apply post_ret. auto.
Qed.

(** The same holds of [SuperFirework.update]. *)
Lemma super_update_refines_rocket_step r dt a win :
  Particle.alive (Particle.step (base r) dt a) win = true ->
  post (SuperFirework.update (G:=G) r dt a win) (fun l =>
    head l = Some (ESuperFirework (rocket_step r dt a)) /\
    length l = if sparks r dt a then 2%nat else 1%nat).
Proof.
  intros Ha. unfold rocket_step, sparks.
  destruct (Firework.spark_due _) eqn:Hd.
  - rewrite (SuperFirework.super_update_sparking r dt a win Ha Hd).
    eapply post_bind; [apply post_True |]. intros s _. apply post_ret. auto.
  - rewrite (SuperFirework.super_update_coasting r dt a win Ha Hd).
    apply post_ret. auto.
Qed.

(** Whatever its class, an entity that survives a tick is the first
    element of the list its [update] returns, in the state [entity_step]
    computes. *)
Lemma entity_update_head (e : entity F) dt a win :
  Particle.alive (Particle.step (slots e) dt a) win = true ->
  post (entity_update (G:=G) e dt a win) (fun l =>
    head l = Some (entity_step e dt a)).
Proof.
  intros Ha. destruct e as [p|r|r]; cbn [slots] in Ha.
  - intros g l g'. rewrite entity_update_particle, Ha. intros [= <- _]. reflexivity.
  - eapply post_weaken; [apply (update_refines_rocket_step r dt a win Ha) |].
    intros l [Hl _]. exact Hl.
  - eapply post_weaken; [apply (super_update_refines_rocket_step r dt a win Ha) |].
    intros l [Hl _]. exact Hl.
Qed.
End Flight.

Section Cadence.
Local Open Scope R_scope.
Implicit Types (r : rocket R) (dts : list R) (a : Vec2.t R).

(** While it coasts, the spark timer accumulates the elapsed time. *)
Lemma coasts_timer r dts a :
  coasts r dts a = true ->
  last_spark (flight r dts a) = last_spark r + elapsed dts.
Proof.
  revert r. induction dts as [|dt dts IH]; intros r; [cbn; lra |].
  cbn [coasts flight foldl elapsed foldr]. fold (elapsed dts).
  intros [Hs Hc]%andb_true_iff. apply negb_true_iff in Hs.
  fold (flight (rocket_step r dt a) dts a). rewrite (IH _ Hc).
  unfold rocket_step. unfold sparks in Hs. rewrite Hs. cbn. real. lra.
Qed.

(** C31: the trail sparks of a rocket are spaced out.  If a rocket has
    just emitted a spark (its spark timer is 0), coasts through the ticks
    [dts] and emits its next spark at the tick [dt] after them, then the
    time elapsed between the two sparks exceeds [0.125 * (speed / 100)],
    for the speed the rocket has when it emits the second. *)
Theorem spark_spacing r dts dt a :
  last_spark r = 0 -> coasts r dts a = true ->
  sparks (flight r dts a) dt a = true ->
  125 / 1000 *
    (Vec2.length (Particle.velocity
       (Particle.step (base (flight r dts a)) dt a)) / 100)
  < elapsed (dts ++ [dt]).
Proof.
  intros H0 Hc Hs. unfold sparks in Hs. apply Firework.spark_due_real in Hs.
  cbn [base last_spark] in Hs. rewrite (coasts_timer r dts a Hc), H0 in Hs.
  unfold elapsed. rewrite foldr_app. cbn [foldr].
  assert (forall x l, foldr Rplus x l = foldr Rplus 0 l + x) as Hf
    by (intros x l; induction l as [|y l IHl]; cbn; lra).
  rewrite Hf. fold (elapsed dts). revert Hs. real. lra.
Qed.
End Cadence.

(** ** The theorems at concrete inputs *)

Section Witnesses.
Local Open Scope R_scope.

(** A particle of lifespan 2 at rest in the middle of the window. *)
Definition cinder : Particle.t R :=
  Particle.init (Vec2.mk 0 1) (Vec2.mk 0 0) (255, 128, 0)%Z (Some 2).

Definition still : Vec2.t R := Vec2.mk 0 0.

Lemma lifespan_bounds_life_witness :
  survive cinder [1; 1] still win800 = None.
Proof.
  apply (lifespan_bounds_life cinder [1; 1] still win800 2);
    [reflexivity | discriminate | cbn; lra].
Defined.

Lemma dies_within_ticks_witness :
  survive cinder (repeat (1 / 100) (ticks_to_span (2 - 0) (1 / 100))) still win800
  = None.
Proof.
  apply (dies_within_ticks cinder (1 / 100) still win800 2); [reflexivity | lra].
Defined.

Lemma update_refines_rocket_step_witness :
  post (Firework.update (G:=tape) rising_real (1 / 100) gravity_real win800)
    (fun l =>
       head l = Some (EFirework (rocket_step rising_real (1 / 100) gravity_real)) /\
       length l = if sparks rising_real (1 / 100) gravity_real then 2%nat else 1%nat).
Proof.
  exact (update_refines_rocket_step rising_real (1 / 100) gravity_real win800
           rising_real_alive).
Defined.

(** A tick of length 0 never emits a spark. *)
Lemma rising_real_coasts : sparks rising_real 0 gravity_real = false.
Proof.
  unfold sparks. apply not_true_iff_false. rewrite Firework.spark_due_real.
  cbn [base last_spark].
  pose proof (Vec2.length_nonneg
    (Particle.velocity (Particle.step (base rising_real) 0 gravity_real))).
  cbn [rising_real Firework.init last_spark]. real. lra.
Qed.

Lemma spark_spacing_witness :
  125 / 1000 *
    (Vec2.length (Particle.velocity
       (Particle.step (base (flight rising_real [0] gravity_real)) (1 / 100)
                      gravity_real)) / 100)
  < elapsed ([0] ++ [1 / 100]).
Proof.
  apply (spark_spacing rising_real [0] (1 / 100) gravity_real).
  - reflexivity.
  - cbn [coasts]. rewrite rising_real_coasts. reflexivity.
  - unfold flight. cbn [foldl]. unfold rocket_step.
    fold (sparks rising_real 0 gravity_real). rewrite rising_real_coasts.
    unfold sparks. apply Firework.spark_due_real. cbn [base last_spark].
    apply Rle_lt_trans with (1 / 800); [| cbn; real; lra].
    apply Rmult_le_compat_r; [lra |]. apply Vec2.length_le; [lra |].
    cbn. real. nra.
Defined.
End Witnesses.
