(* ===== verification/Simulation.v ===== *)
(** * Simulation: the driver ([__main__.py])

    [World] is the part of the [FireworksWindow] object the program itself
    reads and writes: the window's size, the particle collection and the
    last [dt].  [update] is the function pyglet's clock calls with the
    elapsed time: it stores [dt], replaces the collection by the flattened
    results of every entity's [update] (in list order, with the constant
    acceleration [(0, -0.1)]) and then, when [random() > 0.9], appends one
    new rocket.  [main_world] is the window [main] builds: between 5 and 20
    rockets.  [new_firework] is the constructor expression the source
    writes twice (in [update] and in [main]): the class is chosen first,
    then the arguments are evaluated left to right.

    An exception raised inside [update] leaves pyglet's event loop: the
    model returns [Raise] and says nothing of the state after it.  [ticks]
    feeds a list of elapsed times to [update], as the clock does.  The
    theorems give the exception a tick can raise and exactly when, the
    size and the order of the new collection, the trajectory of the entity
    at its head, the window [main] builds and the invariant of the
    reachable states.  What is drawn of a state is in [Render]; the
    interleaving of ticks, frames and resizes is in [Session]. *)

From Stdlib Require Import ZArith Reals Lia Lra Floats.
From stdpp Require Import base list.
From S2P Require Import Prelude Numeric NumReal NumFloat Random Vec2 Particle Firework Lifecycle.

Module Main.

(** The two classes a rocket can be launched as. *)
Inductive rocket_class : Set := ClsFirework | ClsSuperFirework.

#[export] Instance rocket_class_eq_dec : EqDecision rocket_class.
Proof. solve_decision. Defined.

(** [firework_set = [Firework, Firework, SuperFirework]] *)
Definition firework_set : list rocket_class :=
  [ClsFirework; ClsFirework; ClsSuperFirework].

Section Generic.
Context {F : Type} `{Num F} {G : Type} `{RandomSource G}.
Local Open Scope num_scope.

(** The state of the [FireworksWindow]. *)
Record World : Type := mk_world {
  window : Window;
  particles : list (entity F);
  dt : F
}.

(** [FireworksWindow.__init__]: the given particles and [dt = 1]. *)
Definition FireworksWindow_init (ps : list (entity F)) (win : Window) : World :=
  mk_world win ps (flt 1).

(** Calling a class of [firework_set]. *)
Definition construct (c : rocket_class) (position speed : Vec2.t F)
    (colour : rgb) (lifespan : option F) : entity F :=
  match c with
  | ClsFirework => EFirework (Firework.init position speed colour lifespan)
  | ClsSuperFirework => ESuperFirework (SuperFirework.init position speed colour lifespan)
  end.

(** [choice(firework_set)(Vec2(random() * 1.5 - 0.75, 0),
     Vec2(random() * 0.1 - 0.05, random() * 0.25 + 0.25),
     (255, 255, 255), randint(1, 5))] *)
Definition new_firework : rand G (entity F) :=
  c ← choice firework_set;
  rx ← random;
  rvx ← random;
  rvy ← random;
  ls ← randint 1 5;
  mret (construct c (Vec2.mk (rx * dec 15 1 - dec 75 2) (flt 0))
                    (Vec2.mk (rvx * dec 1 1 - dec 5 2) (rvy * dec 25 2 + dec 25 2))
                    (255, 255, 255)%Z (Some (flt ls))).

(** The acceleration every update is called with: [Vec2(0, -0.1)]. *)
Definition tick_acceleration : Vec2.t F := Vec2.mk (flt 0) (- dec 1 1).

(** [update(dt)] *)
Definition update (w : World) (dt : F) : rand G World :=
  ls ← mapM (fun p => entity_update p dt tick_acceleration (window w)) (particles w);
  let particles' := flatten ls in
  u ← random;
  if u >? dec 9 1 then
    e ← new_firework;
    mret (mk_world (window w) (particles' ++ [e]) dt)
  else mret (mk_world (window w) particles' dt).

(** The window [main] creates: [randint(5, 20)] new rockets. *)
Definition main_world (win : Window) : rand G World :=
  n ← randint 5 20;
  ps ← repeatM (Z.to_nat n) new_firework;
  mret (FireworksWindow_init ps win).

(** The clock calling [update] with successive elapsed times. *)
Fixpoint ticks (w : World) (dts : list F) : rand G World :=
  match dts with
  | [] => mret w
  | d :: dts' => w' ← update w d; ticks w' dts'
  end.

End Generic.

Arguments World F : clear implicits.

(** ** The tick and the start, in every arithmetic *)

Section Facts.
Context {F : Type} `{Num F} {G : Type} `{RandomSourceLaws G}.
Local Open Scope num_scope.
Implicit Types (w : World F) (e : entity F) (win : Window) (dt : F).

(** What the launch expression constructs: a rocket of one of the two
    classes, white, on the ground line, with an integer lifespan between 1
    and 5, both included. *)
Definition launched e : Prop :=
  exists c rx rvx rvy ls,
    e = construct c (Vec2.mk (rx * dec 15 1 - dec 75 2) (flt 0))
                  (Vec2.mk (rvx * dec 1 1 - dec 5 2) (rvy * dec 25 2 + dec 25 2))
                  (255, 255, 255)%Z (Some (flt ls)) /\
    (1 <= ls <= 5)%Z.

Lemma new_firework_post : post (new_firework (G:=G)) launched.
Proof.
  intros g e g' Hrun. unfold new_firework in Hrun. inv_bind. randint_ranges.
  eexists _, _, _, _, _. split; [reflexivity | lia].
Qed.

(** The launch never raises: [firework_set] is not empty. *)
Lemma new_firework_total : total (new_firework (F:=F) (G:=G)).
Proof.
  unfold new_firework.
  apply total_bind; [intros g; apply choice_total; discriminate |]. intros c.
  repeat (apply total_bind; [auto with fw | intros ?]). apply total_ret.
Qed.

Lemma launched_rocket e : launched e -> is_particle e = false.
Proof. intros ([] & ? & ? & ? & ? & -> & _); reflexivity. Qed.

Lemma new_firework_raises E : raises_only (new_firework (F:=F) (G:=G)) E.
Proof. apply total_raises_only, new_firework_total. Qed.

Lemma update_raises w dt : raises_only (update (G:=G) w dt) ZeroDivisionError.
Proof.
  pose proof (new_firework_raises ZeroDivisionError).
  unfold update. raises_steps.
Qed.

Lemma update_fields w dt :
  post (update (G:=G) w dt) (fun w' => window w' = window w /\ Main.dt w' = dt).
Proof.
  intros g w' g' Hrun. unfold update in Hrun. inv_bind.
  case_if in Hrun; inv_bind; split; reflexivity.
Qed.

(** A property of every member of the new collection follows from the
    property of what every update returns and of what a launch
    constructs. *)
Lemma update_members (P : entity F -> Prop) w dt :
  (forall e, e ∈ particles w ->
     post (entity_update (G:=G) e dt tick_acceleration (window w)) (Forall P)) ->
  post (new_firework (G:=G)) P ->
  post (update (G:=G) w dt) (fun w' => Forall P (particles w')).
Proof.
  intros Hupd Hnew g w' g' Hrun. unfold update in Hrun. inv_bind.
  match goal with Hm : run (mapM _ _) _ = _ |- _ =>
    apply (post_mapM_each _ _ _ Hupd), Forall_concat_intro in Hm end.
  case_if in Hrun; inv_bind; cbn [particles]; [| assumption].
  apply Forall_app. split; [assumption |]. each_member.
  eapply Hnew; eassumption.
Qed.

(** C9: the only exception a tick can raise is [ZeroDivisionError]: the
    launch never fails to choose a class and no vector operation meets an
    operand of a wrong type.  When the collection holds plain particles
    only, the tick raises nothing. *)
Theorem tick_raises_only w dt :
  raises_only (update (G:=G) w dt) ZeroDivisionError /\
  (Forall (fun e => is_particle e = true) (particles w) ->
   total (update (G:=G) w dt)).
Proof.
  split; [apply update_raises |]. intros Hp. unfold update.
  apply total_bind; [| intros ls].
  - apply total_mapM. intros e He g.
    rewrite Forall_forall in Hp. specialize (Hp e He).
    destruct e as [p| |]; [| discriminate ..].
    rewrite entity_update_particle. eauto.
  - apply total_bind; [auto with fw |]. intros u.
    apply total_if; [| apply total_ret].
    apply total_bind; [apply new_firework_total | intros; apply total_ret].
Qed.

(** C7: a tick keeps the window, stores the elapsed time it was called
    with, and returns a collection of at most [100 * n + 1] entities when
    it was given [n]: each entity is replaced by at most 100, and at most
    one rocket is launched. *)
Theorem update_population w dt :
  post (update (G:=G) w dt) (fun w' =>
    window w' = window w /\ Main.dt w' = dt /\
    (length (particles w') <= 100 * length (particles w) + 1)%nat).
Proof.
  intros g w' g' Hrun.
  destruct (update_fields w dt g w' g' Hrun) as [Hw Hd].
  do 2 (split; [assumption |]).
  unfold update in Hrun. inv_bind.
  match goal with Hm : run (mapM _ _) _ = _ |- _ =>
    pose proof (post_mapM_length _ _ _ _ _ Hm) as Hn;
    apply (post_mapM_each _ _ (fun l => length l <= 100)%nat) in Hm;
      [apply length_concat_le in Hm | intros; apply entity_update_length] end.
  unfold flatten in *.
  case_if in Hrun; inv_bind; cbn [particles]; rewrite ?length_app; cbn; lia.
Qed.

Lemma main_world_total win : total (main_world (F:=F) (G:=G) win).
Proof.
  unfold main_world. apply total_bind; [auto with fw |]. intros n.
  apply total_bind; [| intros; apply total_ret].
  apply total_repeatM, new_firework_total.
Qed.

Lemma main_world_fields win :
  post (main_world (G:=G) win) (fun w => window w = win /\ Main.dt w = flt 1).
Proof. intros g w g' Hrun. unfold main_world in Hrun. inv_bind. auto. Qed.

(** C11: [main] never raises; the window it creates has [dt = 1] and holds
    between 5 and 20 rockets, both bounds included, each built by the
    launch expression (so each lifespan is an integer from 1 to 5, and 5
    does occur). *)
Theorem main_world_spec win :
  total (main_world (F:=F) (G:=G) win) /\
  post (main_world (G:=G) win) (fun w =>
    window w = win /\ Main.dt w = flt 1 /\
    (5 <= length (particles w) <= 20)%nat /\ Forall launched (particles w)).
Proof.
  split; [apply main_world_total |].
  - intros g w g' Hrun. unfold main_world in Hrun. inv_bind. randint_ranges.
    cbn. do 2 (split; [reflexivity |]).
    match goal with Hm : run (repeatM _ _) _ = _ |- _ =>
      rewrite (post_repeatM_length _ _ _ _ _ Hm);
      apply (post_repeatM _ _ _ new_firework_post) in Hm end.
    split; [lia | assumption].
Qed.

(** ** The order of the collection *)

(** [l] is what the update of [e] returns in this window, from some state
    of the generator. *)
Definition returned win dt e (l : list (entity F)) : Prop :=
  exists g g', run (entity_update e dt tick_acceleration win) g = Ok (l, g').

(** What a tick appends after the results of the updates: nothing, or
    one launched rocket. *)
Definition launch (tail : list (entity F)) : Prop :=
  tail = [] \/ exists e, tail = [e] /\ launched e.

Lemma tick_Ok_inv w dt g w' g' :
  run (update w dt) g = Ok (w', g') ->
  exists ls tail,
    w' = mk_world (window w) (flatten ls ++ tail) dt /\
    Forall2 (returned (window w) dt) (particles w) ls /\ launch tail.
Proof.
  intros Hrun. unfold update in Hrun. inv_bind.
  match goal with Hm : run (mapM _ _) _ = _ |- _ =>
    apply (post_mapM _ _ (returned (window w) dt)) in Hm;
      [| intros ? _ ? ? ? He; eexists _, _; exact He] end.
  case_if in Hrun; inv_bind.
  - eexists _, [_]. repeat split; [assumption |]. right. eexists. split; [reflexivity |].
    eapply new_firework_post; eassumption.
  - eexists _, []. rewrite app_nil_r. repeat split; [assumption | left; reflexivity].
Qed.

(** C35: a tick keeps the order of the collection.  The new collection
    is the concatenation, in the order of the old one, of the lists the
    updates of its entities returned, followed by at most one rocket, the
    one the tick launched; the window is kept and [dt] stored. *)
Theorem update_in_order w dt :
  post (update (G:=G) w dt) (fun w' =>
    exists ls tail,
      w' = mk_world (window w) (flatten ls ++ tail) dt /\
      Forall2 (returned (window w) dt) (particles w) ls /\ launch tail).
Proof. intros g w' g'. apply tick_Ok_inv. Qed.

(** What follows the updates of the entities in a tick never raises. *)
Lemma launch_total w dt (ls : list (list (entity F))) :
  total (u ← random (F:=F) (G:=G);
         if u >? dec 9 1
         then e ← new_firework;
              mret (mk_world (window w) (flatten ls ++ [e]) dt)
         else mret (mk_world (window w) (flatten ls) dt)).
Proof.
  apply total_bind; [auto with fw |]. intros u.
  apply total_if; [| apply total_ret].
  apply total_bind; [apply new_firework_total | intros; apply total_ret].
Qed.

(** C36: a tick raises exactly when the update of one of its entities
    does.  The entities before it in the collection have been updated, it
    raises from the state of the generator they left, and nothing after
    it is updated or launched; the entity is a rocket and the exception is
    [ZeroDivisionError].  The launch itself never raises. *)
Theorem tick_raises_iff w dt g (err : PyError) :
  run (update w dt) g = Raise err <->
  exists l1 x l2 ls gi,
    particles w = l1 ++ x :: l2 /\
    is_particle x = false /\ err = ZeroDivisionError /\
    run (mapM (fun p => entity_update p dt tick_acceleration (window w)) l1) g
      = Ok (ls, gi) /\
    run (entity_update x dt tick_acceleration (window w)) gi = Raise err.
Proof.
  unfold update. rewrite run_bind_Raise_iff by apply launch_total.
  rewrite mapM_Raise_iff. split.
  - intros (l1 & x & l2 & ls & gi & Hl & Hl1 & Hx).
    exists l1, x, l2, ls, gi. repeat split; try assumption.
    + destruct x as [p| |]; [| reflexivity ..].
      rewrite entity_update_particle in Hx. discriminate.
    + exact (entity_update_raises _ _ _ _ _ _ Hx).
  - intros (l1 & x & l2 & ls & gi & Hl & _ & _ & Hl1 & Hx). eauto 10.
Qed.

(** The first entity of the collection, if it survives the tick, is the
    first entity of the new collection, one [entity_step] further. *)
Lemma update_head e rest win dt0 dt :
  Particle.alive (Particle.step (slots e) dt tick_acceleration) win = true ->
  post (update (G:=G) (mk_world win (e :: rest) dt0) dt) (fun w' =>
    exists rest', w' = mk_world win (entity_step e dt tick_acceleration :: rest') dt).
Proof.
  intros Ha g w' g' (ls & tail & -> & Hls & _)%tick_Ok_inv.
  cbn [window particles] in *.
  apply Forall2_cons_inv_l in Hls as (l & ls' & (g1 & g2 & Hl) & _ & ->).
  apply (entity_update_head e dt _ win Ha) in Hl.
  destruct l as [|e' l]; [discriminate |]. injection Hl as ->.
  eexists. unfold flatten. cbn [concat]. rewrite <- !app_comm_cons. reflexivity.
Qed.

(** C32: the head of the collection flies its own trajectory.  As long as
    the updates keep it (its base update finds it on screen and younger
    than its lifespan at every tick), the first entity of the collection
    stays the first, and after the ticks [dts] it is in the state
    [entity_flight] computes from the elapsed times alone: whatever the
    generator draws, whatever the rest of the collection does, however
    many sparks it has emitted and rockets were launched. *)
Theorem ticks_head_flight e rest win dt0 dts :
  is_Some (survive (slots e) dts tick_acceleration win) ->
  post (ticks (G:=G) (mk_world win (e :: rest) dt0) dts) (fun w' =>
    window w' = win /\
    head (particles w') = Some (entity_flight e dts tick_acceleration)).
Proof.
  revert e rest dt0. induction dts as [|dt dts IH]; intros e rest dt0 Hs.
  - apply post_ret. auto.
  - rewrite survive_cons in Hs.
    destruct (Particle.alive _ _) eqn:Ha; [| destruct Hs; discriminate].
    cbn [ticks]. eapply post_bind; [apply (update_head e rest win dt0 dt Ha) |].
    intros w' [rest' ->]. apply IH. rewrite entity_step_slots. exact Hs.
Qed.
End Facts.

(** ** The invariant of the collection, over the real numbers *)

Section Invariant.
Context {G : Type} `{RandomSourceLaws G}.
Local Open Scope R_scope.
Implicit Types (w : World R) (e : entity R) (win : Window).

(** The launch expression over the reals: where the rocket starts and how
    fast. *)
Definition launched_real e : Prop :=
  exists r ls, (e = EFirework r \/ e = ESuperFirework r) /\
    last_spark r = 0 /\ Particle.timer (base r) = 0 /\
    Particle._colour (base r) = (255, 255, 255)%Z /\
    Particle.lifespan (base r) = Some (IZR ls) /\ (1 <= ls <= 5)%Z /\
    - (3 / 4) <= Vec2.x (Particle.position (base r)) < 3 / 4 /\
    Vec2.y (Particle.position (base r)) = 0 /\
    - (1 / 20) <= Vec2.x (Particle.velocity (base r)) < 1 / 20 /\
    1 / 4 <= Vec2.y (Particle.velocity (base r)) < 1 / 2.

Lemma new_firework_real : post (new_firework (G:=G)) launched_real.
Proof.
  intros g e g' Hrun. unfold new_firework in Hrun. inv_bind.
  match goal with Hc : run (choice _) _ = _ |- _ => apply choice_In in Hc end.
  randint_ranges. random_ranges.
  eexists (mk_rocket _ _), _.
  split; [destruct a; [left | right]; reflexivity |].
  cbn. real. repeat split; try reflexivity; try lia; lra.
Qed.

Lemma launched_ok e : launched_real e -> entity_ok e.
Proof.
  intros (r & ls & He & Hs & Ht & Hc & Hl & Hr & _).
  assert (entity_ok (EFirework r)) as Hok; [| destruct He as [-> | ->]; exact Hok].
  assert (1 <= IZR ls <= 5) by (split; apply IZR_le; lia).
  split; [exists (IZR ls); split; [exact Hl | lra] |].
  split; [| lra].
  apply (made_well _ (IZR ls) (255, 255, 255)%Z Hl); [lra | exact Hc | cbn; lia].
Qed.

(** Every entity of the collection satisfies the entity invariant. *)
Definition world_ok w : Prop := Forall entity_ok (particles w).

Lemma new_firework_ok : post (new_firework (G:=G)) entity_ok.
Proof. eapply post_weaken; [apply new_firework_real | apply launched_ok]. Qed.

(** A tick of non-negative length preserves the invariant. *)
Lemma update_ok w dt : world_ok w -> 0 <= dt -> post (update (G:=G) w dt) world_ok.
Proof.
  intros Hw Hdt. apply update_members; [| apply new_firework_ok].
  intros e He. apply entity_update_ok; [| exact Hdt].
  unfold world_ok in Hw. rewrite Forall_forall in Hw. auto.
Qed.

(** [main] establishes it. *)
Lemma main_world_ok win : post (main_world (G:=G) win) world_ok.
Proof.
  intros g w g' Hrun. unfold main_world in Hrun. inv_bind.
  eapply (post_repeatM _ _ _ new_firework_ok); eassumption.
Qed.

(** The states of the window the program can be in at the end of a tick:
    the one [main] builds, and those a tick of non-negative length makes
    of a reachable one.  The generator is in any state at each step. *)
Inductive reachable : World R -> Prop :=
  | reach_main win g w g' :
      run (main_world win) g = Ok (w, g') -> reachable w
  | reach_update w dt g w' g' :
      reachable w -> 0 <= dt -> run (update w dt) g = Ok (w', g') ->
      reachable w'.

(** Rule induction on the reachable states: a property that [main]
    establishes and every tick of non-negative length preserves holds of
    every reachable state. *)
Lemma reachable_invariant (P : World R -> Prop) :
  (forall win, post (main_world (G:=G) win) P) ->
  (forall w dt, P w -> 0 <= dt -> post (update (G:=G) w dt) P) ->
  forall w, reachable w -> P w.
Proof.
  intros Hmain Hupd w.
  induction 1 as [win g w g' Hrun | w dt g w' g' _ IH Hdt Hrun].
  - exact (Hmain win g w g' Hrun).
  - exact (Hupd w dt IH Hdt g w' g' Hrun).
Qed.

(** C8: in every reachable state of the window, every entity has a
    lifespan below 12 and a valid base colour; every rocket is younger
    than its lifespan and its spark timer is not negative; every plain
    particle is younger than its lifespan unless it is a trail spark
    created with lifespan 0 in the last tick. *)
Theorem reachable_ok w : reachable w -> world_ok w.
Proof. apply reachable_invariant; [exact main_world_ok | exact update_ok]. Qed.

(** C30: nothing stays for long.  Every entity of a reachable state has a
    lifespan below 12 and an age that is not negative, so at a constant
    frame time [dt > 0] it has left the collection after
    [floor(12 / dt) + 1] further ticks at the latest, wherever it flies
    and whatever the acceleration: a particle is gone, a rocket has been
    replaced by its burst. *)
Theorem reachable_bounded_life w e dt a :
  reachable w -> e ∈ particles w -> 0 < dt ->
  survive (slots e) (repeat dt (ticks_to_span 12 dt)) a (window w) = None.
Proof.
  intros Hw He Hdt.
  assert (world_ok w) as Hok
    by (revert Hw; apply reachable_invariant; [exact main_world_ok | exact update_ok]).
  unfold world_ok in Hok. rewrite Forall_forall in Hok.
  destruct (entity_ok_life e (Hok e He)) as (L & Hl & Ht & HL).
  destruct (survive _ _ a _) as [p'|] eqn:Hs; [| reflexivity].
  apply survive_slots in Hs as (Ht' & _ & _ & Hy). rewrite elapsed_repeat in Ht'.
  pose proof (ticks_to_span_spans 12 dt Hdt).
  specialize (Hy ltac:(discriminate) L Hl). lra.
Qed.

(** The invariant holds after any number of ticks of non-negative
    lengths. *)
Theorem ticks_ok w dts :
  world_ok w -> Forall (Rle 0) dts -> post (ticks (G:=G) w dts) world_ok.
Proof.
  intros Hw Hdts. revert w Hw.
  induction Hdts as [|dt dts Hdt _ IH]; intros w Hw; cbn [ticks].
  - apply post_ret, Hw.
  - eapply post_bind; [apply (update_ok w dt Hw Hdt) | exact IH].
Qed.
End Invariant.

(** ** The theorems at concrete inputs *)

Section Witnesses.
Local Open Scope R_scope.

(** The window [main] builds, over the reals, when every draw is 0. *)
Definition start_real : World R :=
  match run (main_world (F:=R) (G:=tape) win800) [] with
  | Ok (w, _) => w
  | Raise _ => FireworksWindow_init [] win800
  end.

Lemma start_real_run :
  exists g', run (main_world (F:=R) (G:=tape) win800) [] = Ok (start_real, g').
Proof.
  unfold start_real.
  destruct (main_world_total (F:=R) (G:=tape) win800 []) as (w & g' & ->).
  eauto.
Qed.

Lemma start_real_reachable : reachable (G:=tape) start_real.
Proof. destruct start_real_run as [g' Hrun]. exact (reach_main win800 [] _ g' Hrun). Qed.

Lemma start_real_ok : world_ok start_real.
Proof. destruct start_real_run as [g' Hrun]. exact (main_world_ok win800 [] _ g' Hrun). Qed.

Lemma reachable_ok_witness : world_ok start_real.
Proof. exact (reachable_ok (G:=tape) start_real start_real_reachable). Defined.

Lemma ticks_ok_witness :
  post (ticks (G:=tape) start_real [1 / 100; 0; 1 / 50]) world_ok.
Proof.
  apply (ticks_ok start_real [1 / 100; 0; 1 / 50] start_real_ok).
  each_member; lra.
Defined.

(** A window with a dying and a flying firework, in binary64, and a tape
    on which the burst draws 0 everywhere, the trail spark gets a lifespan
    of 1 and the tick then launches a super-firework with lifespan 5. *)
Definition show_world : World float :=
  FireworksWindow_init [EFirework spent; EFirework rising] win800.

Definition launch_tape : tape :=
  repeat 0%Z 105 ++ [2 ^ 52; 8106479329266894; 2; 0; 0; 0; 4]%Z.

Definition next_world : World float :=
  Eval vm_compute in
    match run (update show_world tick) launch_tape with
    | Ok (w, _) => w
    | Raise _ => show_world
    end.

Lemma update_population_witness :
  window next_world = window show_world /\ Main.dt next_world = tick /\
  (length (particles next_world) <= 100 * length (particles show_world) + 1)%nat.
Proof.
  apply (update_population show_world tick launch_tape next_world []).
  vm_compute. reflexivity.
Defined.

Lemma tick_raises_only_witness :
  raises_only (update (G:=tape) show_world tick) ZeroDivisionError /\
  (Forall (fun e => is_particle e = true) (particles show_world) ->
   total (update (G:=tape) show_world tick)).
Proof. exact (tick_raises_only show_world tick). Defined.

Lemma update_in_order_witness :
  post (update (G:=tape) show_world tick) (fun w' =>
    exists ls tail,
      w' = mk_world (window show_world) (flatten ls ++ tail) tick /\
      Forall2 (returned (window show_world) tick) (particles show_world) ls /\
      launch tail).
Proof. exact (update_in_order show_world tick). Defined.

Lemma tick_raises_iff_witness :
  run (update (mk_world win800 [EFirework rising; EFirework stalling] (flt 1))
              (flt 1)) ([] : tape)
    = Raise ZeroDivisionError <->
  exists l1 x l2 ls gi,
    [EFirework rising; EFirework stalling] = l1 ++ x :: l2 /\
    is_particle x = false /\ ZeroDivisionError = ZeroDivisionError /\
    run (mapM (fun p => entity_update p (flt 1) tick_acceleration win800) l1)
        ([] : tape) = Ok (ls, gi) /\
    run (entity_update x (flt 1) tick_acceleration win800) gi
      = Raise ZeroDivisionError.
Proof.
  exact (tick_raises_iff
           (mk_world win800 [EFirework rising; EFirework stalling] (flt 1))
           (flt 1) [] ZeroDivisionError).
Defined.

(** The flying firework at the head of a collection survives two ticks of
    a hundredth of a second, in binary64. *)
Lemma ticks_head_flight_witness :
  post (ticks (G:=tape) (mk_world win800 [EFirework rising; EFirework spent] (flt 1))
              [tick; tick])
    (fun w' =>
       window w' = win800 /\
       head (particles w') =
       Some (entity_flight (EFirework rising) [tick; tick] tick_acceleration)).
Proof.
  apply (ticks_head_flight (EFirework rising) [EFirework spent] win800 (flt 1)
           [tick; tick]).
  vm_compute. eexists. reflexivity.
Defined.

Lemma main_world_spec_witness :
  total (main_world (F:=float) (G:=tape) win800) /\
  post (main_world (F:=float) (G:=tape) win800) (fun w =>
    window w = win800 /\ Main.dt w = flt 1 /\
    (5 <= length (particles w) <= 20)%nat /\ Forall launched (particles w)).
Proof. exact (main_world_spec win800). Defined.

(** The first rocket of [start_real]. *)
Definition first_rocket : entity R :=
  match particles start_real with
  | e :: _ => e
  | [] => EFirework (Firework.init (Vec2.mk 0 0) (Vec2.mk 0 0) (0, 0, 0)%Z None)
  end.

Lemma first_rocket_in : first_rocket ∈ particles start_real.
Proof.
  assert (exists e l, particles start_real = e :: l) as (e & l & Hl)
    by (eexists _, _; reflexivity).
  unfold first_rocket. rewrite Hl. left.
Qed.

Lemma reachable_bounded_life_witness :
  survive (slots first_rocket) (repeat (1 / 60) (ticks_to_span 12 (1 / 60)))
          tick_acceleration (window start_real) = None.
Proof.
  apply (reachable_bounded_life (G:=tape) start_real first_rocket (1 / 60)
           tick_acceleration start_real_reachable first_rocket_in).
  lra.
Defined.

(** ** Runs in binary64 *)

(** The upper bounds of the [randint] calls are reached, in
    binary64 on the tape.  [main] can build 20 rockets: [randint(5, 20)]
    returns 20 on the tape whose first draw is 15.  A rocket can be
    launched with lifespan 5: the rocket launched at the end of the tick
    on [launch_tape] is a super-firework with lifespan [5.0].  A
    super-firework can burst into 10 fireworks: on the tape that draws 5
    for the count, [randint(5, 10)] returns 10 and the update returns
    exactly 10 entities, all of class [Firework]. *)
Example upper_bounds_are_reached :
  match run (main_world (F:=float) win800) ([15%Z] : tape) with
  | Ok (w, _) => length (particles w) = 20%nat
  | Raise _ => False
  end /\
  (exists r, last (particles next_world) = Some (ESuperFirework r) /\
             Particle.lifespan (base r) = Some (flt 5)) /\
  match run (SuperFirework.update spent tick tick_acceleration win800)
            ([0; 0; 0; 5]%Z : tape) with
  | Ok (l, _) => length l = 10%nat /\ forallb is_firework l = true
  | Raise _ => False
  end.
Proof.
  split; [| split; [eexists |]]; vm_compute; [| split | split]; reflexivity.
Qed.

(** The launch test [random() > 0.9] is strict and compares with the
    binary64 number nearest to 0.9, which is [8106479329266893 / 2^53]: the
    draw of exactly that many 53-bit units launches nothing, the next one
    launches a rocket. *)
Example launch_threshold :
  let empty := FireworksWindow_init (F:=float) [] win800 in
  (exists w g, run (update empty tick) ([8106479329266893%Z] : tape) = Ok (w, g) /\
               particles w = []) /\
  (exists w g, run (update empty tick) ([8106479329266894%Z] : tape) = Ok (w, g) /\
               length (particles w) = 1%nat).
Proof. split; eexists _, _; vm_compute; split; reflexivity. Qed.
End Witnesses.
End Main.
