(* ===== verification/Render.v ===== *)
(** * Render: the frame [FireworksWindow.on_draw] hands to pyglet

    [on_draw] reads the state of the window and changes none of it.  It
    computes the request of [pyglet.graphics.draw]: the vertex count
    [3 * len(particles)], the primitive [GL_TRIANGLES], the flattened
    triangles under the format ["v2f"] and the flattened colours under the
    format ["c3B"] (each entity's [colour] is read three times, once per
    vertex, and each read of a rocket's colour draws a random number).
    Then it builds the overlay: the text
    ['{:,} particles, {:.0f}fps, {}x{}'] filled with the size of the
    collection, [1/dt] (999 when [dt] is zero), the width and the height,
    set in Times New Roman 12 and anchored by its top centre at the middle
    of the upper edge.  [Frame] is the pair of both requests; what pyglet
    and OpenGL do with them is outside the program.

    [parse_label] is the reader of the overlay text the round trip is
    stated with; [components] and [primitive_size] say how pyglet reads
    the two attribute formats and the primitive; [rockets] counts the
    entities whose colour is drawn at random, three draws per frame
    each. *)

From Stdlib Require Import ZArith Reals Lia Lra Floats Ascii.
From stdpp Require Import base list strings.
From S2P Require Import Prelude Numeric NumReal NumFloat Format Random Vec2 Particle Firework.
From S2P Require Import Lifecycle Simulation.

Import Main.

#[local] Arguments String.append !_ _ / : simpl nomatch.

(** The primitives a vertex list can be drawn as. *)
Inductive primitive : Set := GL_POINTS | GL_LINES | GL_TRIANGLES.

(** The number of vertices of one primitive. *)
Definition primitive_size (m : primitive) : Z :=
  match m with GL_POINTS => 1 | GL_LINES => 2 | GL_TRIANGLES => 3 end.

(** The number of components per vertex of an attribute format: the
    number after the usage letter (["v2f"]: 2, ["c3B"]: 3). *)
Definition components (format : string) : Z :=
  match format with
  | String _ count =>
      match read_N false count with Some (n, _) => Z.of_N n | None => 0 end
  | EmptyString => 0
  end.

(** The arguments of [pyglet.text.Label]. *)
Record Label : Set := mk_label {
  text : string;
  font_name : string;
  font_size : Z;
  label_x : Z;
  label_y : Z;
  anchor_x : string;
  anchor_y : string
}.

#[export] Instance Label_eq_dec : EqDecision Label.
Proof. solve_decision. Defined.

Section Generic.
Context {F : Type} `{Num F} {G : Type} `{RandomSource G}.
Local Open Scope num_scope.

(** What [on_draw] hands to pyglet: the arguments of
    [pyglet.graphics.draw] and the label. *)
Record Frame : Type := mk_frame {
  vertex_count : Z;
  mode : primitive;
  vertex_format : string;
  vertexes : list F;
  colour_format : string;
  colours : list Z;
  label : Label
}.

(** [flatten([p.colour, p.colour, p.colour])]: three reads of the
    property. *)
Definition colour3 (p : entity F) : rand G (list Z) :=
  c1 ← entity_colour p;
  c2 ← entity_colour p;
  c3 ← entity_colour p;
  let tuple '(r, g, b) := [r; g; b] in
  mret (flatten [tuple c1; tuple c2; tuple c3]).

(** [1/self.dt if self.dt else 999] *)
Definition shown_fps (dt : F) : F :=
  if dt =? flt 0 then flt 999 else ndiv (flt 1) dt.

(** ['{:,} particles, {:.0f}fps, {}x{}'.format(n, fps, width, height)] *)
Definition label_text (n : Z) (fps : F) (width height : Z) : string :=
  format_grouped n +:+ " particles, " +:+ format_fixed0 fps +:+ "fps, " +:+
  format_int width +:+ "x" +:+ format_int height.

(** The label of the overlay. *)
Definition overlay (w : World F) : Label :=
  mk_label (label_text (Z.of_nat (length (particles w))) (shown_fps (dt w))
                       (width (window w)) (height (window w)))
           "Times New Roman" 12
           (width (window w) / 2) (height (window w))
           "center" "top".

(** [on_draw] *)
Definition on_draw (w : World F) : rand G Frame :=
  vs ← mapM (fun p => lift (Vec2.as_tri (Particle.position (slots p))
                                        (window w) Vec2.default_size))
            (particles w);
  cs ← mapM colour3 (particles w);
  let n := Z.of_nat (length (particles w)) in
  mret (mk_frame (n * 3) GL_TRIANGLES "v2f" (flatten vs) "c3B" (flatten cs)
                 (overlay w)).
End Generic.

Arguments Frame F : clear implicits.

(** Reads the four fields of an overlay text. *)
Definition parse_label (s : string) : option (Z * fixed0 * Z * Z) :=
  '(n, s) ← read_int true s;
  s ← expect " particles, " s;
  '(x, s) ← read_fixed0 s;
  s ← expect "fps, " s;
  '(w, s) ← read_int false s;
  s ← expect "x" s;
  '(h, s) ← read_int false s;
  if decide (s = "") then Some (n, x, w, h) else None.

(** ** What [on_draw] hands over, in every arithmetic *)

Section Drawing.
Context {F : Type} `{Num F} {G : Type} `{RandomSourceLaws G}.
Local Open Scope num_scope.
Implicit Types (w : World F) (e : entity F) (p : Particle.t F).

(** A plain particle whose lifespan is zero: its colour cannot be read. *)
Definition undrawable e : bool :=
  match e with
  | EParticle p =>
      match Particle.lifespan p with Some ls => ls =? flt 0 | None => false end
  | _ => false
  end.

Lemma colour_undrawable p g :
  undrawable (EParticle p) = true ->
  run (entity_colour (G:=G) (EParticle p)) g = Raise ZeroDivisionError.
Proof.
  cbn. destruct (Particle.lifespan p) as [ls|] eqn:Hl; [| discriminate].
  intros Hz. rewrite (Particle.colour_Some p ls Hl).
  unfold py_truediv. rewrite Hz. reflexivity.
Qed.

Lemma colour_drawable e : undrawable e = false -> total (entity_colour (G:=G) e).
Proof.
  destruct e as [p|r|r]; cbn; intros Hd;
    [| apply total_bind; [auto with fw | intros; apply total_ret] ..].
  destruct (Particle.lifespan p) as [ls|] eqn:Hl.
  - rewrite (Particle.colour_Some p ls Hl). unfold py_truediv.
    rewrite Hd. apply total_lift_Ok.
  - rewrite (Particle.colour_immortal p Hl). apply total_lift_Ok.
Qed.

Lemma entity_colour_raises e :
  raises_only (entity_colour (G:=G) e) ZeroDivisionError.
Proof.
  destruct (undrawable e) eqn:Hd.
  - destruct e as [p| |]; [| discriminate ..].
    intros g e. rewrite (colour_undrawable p g Hd). congruence.
  - apply total_raises_only, colour_drawable, Hd.
Qed.

Lemma colour3_length e : post (colour3 (G:=G) e) (fun l => length l = 9%nat).
Proof.
  intros g l g' Hrun. unfold colour3 in Hrun. inv_bind.
  repeat match goal with c : (Z * Z * Z)%type |- _ => destruct c as [[? ?] ?] end.
  reflexivity.
Qed.

Lemma colour3_total e : undrawable e = false -> total (colour3 (G:=G) e).
Proof.
  intros Hd. unfold colour3.
  do 3 (apply total_bind; [apply colour_drawable, Hd | intros ?]).
  apply total_ret.
Qed.

Lemma colour3_undrawable p g b g' :
  undrawable (EParticle p) = true ->
  run (colour3 (G:=G) (EParticle p)) g <> Ok (b, g').
Proof.
  intros Hd Hrun. unfold colour3 in Hrun.
  apply run_bind_Ok_inv in Hrun as (c & g1 & Hc & _).
  pose proof (colour_undrawable p g Hd). unfold rgb in *. congruence.
Qed.

Lemma on_draw_raises w : raises_only (on_draw (G:=G) w) ZeroDivisionError.
Proof.
  pose proof entity_colour_raises. unfold on_draw, colour3. raises_steps.
Qed.

Lemma on_draw_total w :
  existsb undrawable (particles w) = false -> total (on_draw (G:=G) w).
Proof.
  intros Hd. unfold on_draw.
  apply total_bind; [| intros vs; apply total_bind; [| intros; apply total_ret]].
  - apply total_mapM. intros e _. rewrite Vec2.as_tri_Ok. apply total_lift_Ok.
  - apply total_mapM. intros e He. apply colour3_total.
    destruct (undrawable e) eqn:Hu; [| reflexivity].
    rewrite <- Hd. symmetry. apply existsb_exists. exists e.
    split; [apply list_elem_of_In, He | exact Hu].
Qed.

Lemma on_draw_not_Ok w g f g' :
  existsb undrawable (particles w) = true -> run (on_draw (G:=G) w) g <> Ok (f, g').
Proof.
  intros (e & He & Hu)%existsb_exists Hrun. unfold on_draw in Hrun. inv_bind.
  match goal with Hm : run (mapM colour3 _) _ = _ |- _ =>
    apply mapM_Ok_each in Hm; rewrite Forall_forall in Hm;
    destruct (Hm e) as (g1 & b & g2 & Hc); [apply list_elem_of_In, He |] end.
  destruct e as [p| |]; [| discriminate ..].
  exact (colour3_undrawable p g1 b g2 Hu Hc).
Qed.

(** C10: drawing a frame raises exactly when the collection holds a plain
    particle whose lifespan is zero, and what it raises then is
    [ZeroDivisionError]; the rockets, whose colour is drawn at random, and
    the triangles never raise. *)
Theorem on_draw_raises_iff w g (err : PyError) :
  run (on_draw (G:=G) w) g = Raise err <->
  err = ZeroDivisionError /\ existsb undrawable (particles w) = true.
Proof.
  split.
  - intros Hrun. split; [exact (on_draw_raises w g err Hrun) |].
    destruct (existsb undrawable (particles w)) eqn:Hd; [reflexivity |].
    destruct (on_draw_total w Hd g) as (f & g' & Hf). congruence.
  - intros [-> Hd]. destruct (run (on_draw w) g) as [[f g']|err] eqn:Hrun.
    + destruct (on_draw_not_Ok w g f g' Hd Hrun).
    + f_equal. exact (on_draw_raises w g err Hrun).
Qed.

(** C26: the request fits what pyglet draws: for [n] entities it
    announces [3 n] vertices, that is [n] whole triangles; the vertex
    buffer holds as many numbers per vertex as the format ["v2f"] says and
    the colour buffer as many as the format ["c3B"] says; the label is the
    overlay of the state. *)
Theorem on_draw_frame w :
  post (on_draw (G:=G) w) (fun f =>
    vertex_count f = (primitive_size (mode f) * Z.of_nat (length (particles w)))%Z /\
    Z.of_nat (length (vertexes f)) = (components (vertex_format f) * vertex_count f)%Z /\
    Z.of_nat (length (colours f)) = (components (colour_format f) * vertex_count f)%Z /\
    label f = overlay w).
Proof.
  intros g f g' Hrun. unfold on_draw in Hrun. inv_bind. cbn.
  repeat match goal with Hm : run (mapM _ _) _ = _ |- _ =>
    pose proof (post_mapM_length _ _ _ _ _ Hm);
    first [ apply (post_mapM_each _ _ (fun l => length l = 9%nat)) in Hm;
              [| intros; apply colour3_length]
          | apply (post_mapM_each _ _ (fun l => length l = 6%nat)) in Hm;
              [| intros x _; rewrite Vec2.as_tri_Ok; apply post_lift;
                 intros l [= <-]; reflexivity] ];
    apply length_concat_eq in Hm end.
  unfold flatten. cbv beta in *. repeat split; try reflexivity; lia.
Qed.
End Drawing.

(** ** The colours of a frame, over the real numbers *)

Section DrawingReal.
Context {G : Type} `{RandomSourceLaws G}.
Local Open Scope R_scope.
Implicit Types (w : World R) (e : entity R) (p : Particle.t R).

Definition byte (c : Z) : Prop := (0 <= c <= 255)%Z.

(** The colour read from a particle that is younger than its lifespan is
    a valid colour. *)
Lemma young_colour_valid p c :
  young p -> rgb_valid (Particle._colour p) -> Particle.colour p = Ok c ->
  rgb_valid c.
Proof.
  intros (L & Hl & Ht) Hv.
  assert (L <> 0) as HL by (apply Rgt_not_eq; lra).
  rewrite (Particle.colour_real p L Hl HL).
  intros [= <-].
  pose proof (Particle.life_left_bounds p L ltac:(lra) ltac:(lra)) as Hb.
  destruct (Particle._colour p) as [[r g] b]. unfold rgb_valid in *. cbn [fst snd].
  pose proof (Particle.scale_bounds _ r Hb). pose proof (Particle.scale_bounds _ g Hb).
  pose proof (Particle.scale_bounds _ b Hb). rewrite <- !Particle.scale_real. lia.
Qed.

Lemma entity_colour_valid e :
  entity_ok e -> post (entity_colour (G:=G) e) rgb_valid.
Proof.
  destruct e as [p|r|r]; intros He.
  - apply post_lift. intros c Hc. destruct He as [[Hy | [Hl _]] [_ Hv]].
    + exact (young_colour_valid p c Hy Hv Hc).
    + rewrite (Particle.colour_Some p 0 Hl), truediv_real_zero in Hc.
      discriminate Hc.
  - eapply post_weaken; [apply (Firework.colour_gold r) |].
    intros [[cr cg] cb]. unfold rgb_le, rgb_valid. lia.
  - eapply post_weaken; [apply (Firework.colour_gold r) |].
    intros [[cr cg] cb]. unfold rgb_le, rgb_valid. lia.
Qed.

Lemma colour3_bytes e : entity_ok e -> post (colour3 (G:=G) e) (Forall byte).
Proof.
  intros He g l g' Hrun. unfold colour3 in Hrun. inv_bind.
  repeat match goal with Hc : run (entity_colour _) _ = Ok (?c, _) |- _ =>
    apply (entity_colour_valid e He) in Hc; destruct c as [[? ?] ?] end.
  unfold rgb_valid in *. cbn. each_member; unfold byte; lia.
Qed.

(** When every entity satisfies the invariant, every number of the
    colour buffer of a frame is a byte, as the format [c3B] requires. *)
Lemma on_draw_bytes w :
  world_ok w -> post (on_draw (G:=G) w) (fun f => Forall byte (colours f)).
Proof.
  intros Hw g f g' Hrun. unfold on_draw in Hrun. inv_bind. cbn [colours].
  apply Forall_concat_intro.
  match goal with Hm : run (mapM colour3 _) _ = _ |- _ =>
    refine (post_mapM_each _ _ _ _ _ _ _ Hm) end.
  intros e He. apply colour3_bytes.
  unfold world_ok in Hw. rewrite Forall_forall in Hw. auto.
Qed.
End DrawingReal.

(** ** The overlay *)

Section Overlay.
Context {F : Type} `{Num F} {G : Type} `{RandomSource G}.
Local Open Scope num_scope.
Implicit Types (n width height : Z) (fps : F) (w : World F).

(** Every field of the text is read back by its reader. *)
Lemma parse_label_text n fps width height :
  parse_label (label_text n fps width height) = Some (n, nfix0 fps, width, height).
Proof.
  unfold parse_label, label_text, format_fixed0.
  rewrite read_int_grouped by reflexivity. cbn [mbind option_bind].
  rewrite expect_app. cbn [mbind option_bind].
  rewrite read_fixed0_str by reflexivity. cbn [mbind option_bind].
  rewrite expect_app. cbn [mbind option_bind].
  rewrite read_int_format by reflexivity. cbn [mbind option_bind].
  rewrite expect_app. cbn [mbind option_bind].
  rewrite read_int_format_end. reflexivity.
Qed.

(** Two overlay texts are equal only when they show the same numbers. *)
Lemma label_text_inj n fps width height n' fps' width' height' :
  label_text n fps width height = label_text n' fps' width' height' ->
  n = n' /\ nfix0 fps = nfix0 fps' /\ width = width' /\ height = height'.
Proof.
  intros Ht. apply (f_equal parse_label) in Ht.
  rewrite !parse_label_text in Ht. injection Ht as -> -> -> ->. auto.
Qed.

(** C13: the overlay text can be read back.  Reading the text written
    for a count, a frame rate, a width and a height returns the count (the
    commas removed), the rounded frame rate with its sign, the width and
    the height, with nothing left over; so two overlay texts are equal
    only when they show the same four numbers. *)
Theorem label_roundtrip n fps width height :
  parse_label (label_text n fps width height) = Some (n, nfix0 fps, width, height) /\
  forall n' (fps' : F) width' height',
    label_text n fps width height = label_text n' fps' width' height' ->
    n = n' /\ nfix0 fps = nfix0 fps' /\ width = width' /\ height = height'.
Proof. split; [apply parse_label_text | intros *; apply label_text_inj]. Qed.

(** The label is anchored at the middle of the upper edge, rounded down
    to a whole pixel. *)
Lemma overlay_anchor w :
  (width (window w) - 1 <= 2 * label_x (overlay w) <= width (window w))%Z /\
  label_y (overlay w) = height (window w) /\
  (anchor_x (overlay w), anchor_y (overlay w)) = ("center", "top").
Proof.
  cbn. split; [| auto].
  pose proof (Z.div_mod (width (window w)) 2 ltac:(lia)).
  pose proof (Z.mod_pos_bound (width (window w)) 2 ltac:(lia)). lia.
Qed.

(** C27: the overlay of a frame shows the state it was drawn from: read
    back, its text gives the window's width and height, the frame rate
    [1/dt] of the last tick as [.0f] rounds it (999 when that tick took no
    time), and the number of entities, which is a third of the number of
    vertices the frame announces. *)
Theorem on_draw_overlay w :
  post (on_draw (G:=G) w) (fun f =>
    exists n, parse_label (text (label f))
                = Some (n, nfix0 (shown_fps (dt w)), width (window w), height (window w)) /\
              vertex_count f = (n * 3)%Z /\ n = Z.of_nat (length (particles w))).
Proof.
  intros g f g' Hrun. unfold on_draw in Hrun. inv_bind.
  eexists. split; [apply parse_label_text | split; reflexivity].
Qed.

(** A frame of plain particles draws no random number: only the colour of
    a rocket does. *)
Lemma entity_colour_silent (e : entity F) :
  is_particle e = true -> silent (entity_colour (G:=G) e).
Proof. destruct e; [intros _; apply silent_lift | discriminate ..]. Qed.

Lemma on_draw_silent w :
  Forall (fun e => is_particle e = true) (particles w) -> silent (on_draw (G:=G) w).
Proof.
  intros Hp. rewrite Forall_forall in Hp. unfold on_draw.
  apply silent_bind; [apply silent_mapM; intros; apply silent_lift | intros vs].
  apply silent_bind; [| intros; apply silent_ret].
  apply silent_mapM. intros e He. unfold colour3.
  repeat (apply silent_bind; [apply entity_colour_silent, Hp, He | intros ?]).
  apply silent_ret.
Qed.
End Overlay.

(** ** The random numbers a frame takes *)

Section FrameDraws.
Context {F : Type} `{Num F}.
Implicit Types (e : entity F) (w : World F).

(** The number of draws one read of an entity's colour makes. *)
Definition colour_draws e : nat := if is_particle e then 0 else 1.

(** The number of rockets of a collection. *)
Definition rockets (l : list (entity F)) : nat := sum_list (colour_draws <$> l).

Lemma takes_eq {A} (m : rand tape A) n n' : n = n' -> takes m n -> takes m n'.
Proof. intros ->. auto. Qed.

Lemma entity_colour_takes e : takes (entity_colour e) (colour_draws e).
Proof.
  destruct e as [p|r|r]; cbn [entity_colour colour_draws is_particle].
  - apply takes_silent, silent_lift.
  - apply (takes_bind _ _ 1 0); [apply takes_random | intros; apply takes_ret].
  - apply (takes_bind _ _ 1 0); [apply takes_random | intros; apply takes_ret].
Qed.

Lemma colour3_takes e : takes (colour3 e) (3 * colour_draws e).
Proof.
  unfold colour3. apply (takes_eq _ (colour_draws e + (colour_draws e + (colour_draws e + 0))));
    [lia |].
  repeat (apply takes_bind; [apply entity_colour_takes | intros ?]). apply takes_ret.
Qed.

(** C28: a frame is paid for in random numbers.  Drawing a frame takes
    exactly three numbers from the generator for every rocket of the
    collection (one for each of the three reads of its colour) and none
    for a plain particle; the simulation's next draw is that many numbers
    further down the tape. *)
Theorem on_draw_takes w : takes (on_draw w) (3 * rockets (particles w)).
Proof.
  unfold on_draw. apply (takes_bind _ _ 0); [| intros vs].
  - apply takes_silent, silent_mapM. intros; apply silent_lift.
  - apply (takes_eq _ (sum_list ((fun e => 3 * colour_draws e)%nat <$> particles w) + 0)).
    + exact (eq_trans (Nat.add_0_r _) (sum_list_scale 3 colour_draws (particles w))).
    + apply takes_bind; [apply takes_mapM, colour3_takes | intros; apply takes_ret].
Qed.
End FrameDraws.

(** ** The frame rate shown, over the real numbers *)

Section OverlayReal.
Local Open Scope R_scope.
Implicit Types dt : R.

Lemma shown_fps_real dt : dt <> 0 -> shown_fps dt = 1 / dt.
Proof.
  intros Hdt. unfold shown_fps. cbn.
  rewrite bool_decide_eq_false_2 by exact Hdt. reflexivity.
Qed.

Lemma shown_fps_zero : shown_fps 0 = 999.
Proof. unfold shown_fps. cbn. rewrite bool_decide_eq_true_2 by reflexivity. reflexivity. Qed.

(** C29: for a tick that took time, the overlay shows the frame rate
    [1/dt] to the nearest integer, without a sign: the number shown is
    within a half of [1/dt]. *)
Theorem overlay_fps_nearest dt :
  0 < dt ->
  exists m : N, nfix0 (shown_fps dt) = Fixed false m /\
                Rabs (IZR (Z.of_N m) - 1 / dt) <= 1 / 2.
Proof.
  intros Hdt. rewrite shown_fps_real by lra.
  assert (0 < 1 / dt) as Hq by (apply Rdiv_lt_0_compat; lra).
  exists (Z.to_N (Rnearest_even (Rabs (1 / dt)))). split.
  - change (nfix0 (1 / dt)) with (Rfixed0 (1 / dt)). unfold Rfixed0.
    rewrite bool_decide_eq_false_2 by lra. reflexivity.
  - rewrite (Rabs_pos_eq (1 / dt)) by lra. rewrite Z2N.id by (apply Rnearest_even_nonneg; lra).
    apply Rnearest_even_close.
Qed.
End OverlayReal.

(** ** The theorems at concrete inputs *)

Section Witnesses.
Local Open Scope R_scope.

Lemma overlay_fps_nearest_witness :
  exists m : N, nfix0 (shown_fps (1 / 60)) = Fixed false m /\
                Rabs (IZR (Z.of_N m) - 1 / (1 / 60)) <= 1 / 2.
Proof. apply (overlay_fps_nearest (1 / 60)). lra. Defined.

Lemma on_draw_raises_iff_witness :
  run (on_draw (G:=tape) next_world) [] = Raise ZeroDivisionError <->
  ZeroDivisionError = ZeroDivisionError /\
  existsb undrawable (particles next_world) = true.
Proof. exact (on_draw_raises_iff next_world [] ZeroDivisionError). Defined.

Definition next_frame : Frame float :=
  Eval vm_compute in
    match run (on_draw next_world) ([] : tape) with
    | Ok (f, _) => f
    | Raise _ => mk_frame 0 GL_TRIANGLES "" [] "" [] (overlay next_world)
    end.

Lemma on_draw_frame_witness :
  vertex_count next_frame
    = (primitive_size (mode next_frame) * Z.of_nat (length (particles next_world)))%Z /\
  Z.of_nat (length (vertexes next_frame))
    = (components (vertex_format next_frame) * vertex_count next_frame)%Z /\
  Z.of_nat (length (colours next_frame))
    = (components (colour_format next_frame) * vertex_count next_frame)%Z /\
  label next_frame = overlay next_world.
Proof.
  apply (on_draw_frame next_world ([] : tape) next_frame []).
  vm_compute. reflexivity.
Defined.

(** Every frame of the window [main] builds has byte colours. *)
Lemma start_frame_bytes :
  post (on_draw (G:=tape) start_real) (fun f => Forall byte (colours f)).
Proof. exact (on_draw_bytes start_real start_real_ok). Qed.

(** ** Runs in binary64 *)

(** A frame can fail to draw.  On the exhausted tape every draw is
    0, so the trail spark the flying firework emits during the tick gets
    the lifespan [0.0 * 2]; the tick itself returns, and the next
    [on_draw] divides by that lifespan and raises [ZeroDivisionError]. *)
Example stillborn_spark_stops_drawing :
  match run (update show_world tick) ([] : tape) with
  | Ok (w, g) =>
      existsb undrawable (particles w) = true /\
      run (on_draw w) g = Raise ZeroDivisionError
  | Raise _ => False
  end.
Proof. vm_compute. split; reflexivity. Qed.

(** The frame drawn of the window [main] builds, before any tick: five
    rockets on the exhausted tape, [dt] still the 1 of [__init__], so the
    overlay shows one frame per second. *)
Example first_frame_overlay :
  match run (w ← main_world (F:=float) win800; on_draw w) ([] : tape) with
  | Ok (f, _) =>
      label f = mk_label "5 particles, 1fps, 800x600" "Times New Roman" 12
                         400 600 "center" "top" /\
      vertex_count f = 15%Z
  | Raise _ => False
  end.
Proof. vm_compute. split; reflexivity. Qed.

(** The texts of the overlay in binary64: a tick of 16 ms is shown as
    62fps (1/0.016 is 62.5, and the tie goes to the even neighbour), a tick
    that took no time as 999fps, and from a thousand entities on the count
    gets its comma. *)
Example overlay_texts :
  let shows (n : nat) (dt : float) (win : Window) :=
    text (overlay (mk_world win (repeat (EParticle (slots (EFirework rising))) n) dt)) in
  (shows 29%nat (dec 16 3) win800, shows 0%nat (flt 0) win800,
   shows 1234%nat (dec 1 2) {| width := 1281; height := 720 |})
  = ("29 particles, 62fps, 800x600", "0 particles, 999fps, 800x600",
     "1,234 particles, 100fps, 1281x720").
Proof. vm_compute. reflexivity. Qed.
End Witnesses.
