(* ===== verification/Session.v ===== *)
(** * Session: the event loop

    [main] builds the window, schedules [update] on pyglet's clock and
    enters [pyglet.app.run()].  From then on pyglet calls back into the
    program: the clock calls [update(dt)], a redraw calls [on_draw()], and,
    the window being created with [resizable=True], the user can change
    its width and height between two callbacks.  The program does not
    choose the order; the model takes it as a list of [event]s.

    [handle] runs one callback on the state of the window, [run_events] a
    list of them, collecting the frames drawn, and [main] is the whole
    program on a given list.  All callbacks share the one generator of
    the [random] module, so a frame that draws a rocket's colour changes
    what the next tick draws.

    The file shows what a session can raise and what it preserves, that
    ticks alone are [Main.ticks], and, over the reals, that a resize
    commutes with a tick and that every state of a session is shadowed by
    a state of [Main.reachable]; two runs in binary64 show where the
    implementation departs from that picture. *)

From Stdlib Require Import ZArith Reals Lia Lra Floats.
From stdpp Require Import base list strings.
From S2P Require Import Prelude Numeric NumReal NumFloat Format Random Vec2 Particle Firework.
From S2P Require Import Lifecycle Simulation Render.

Import Main.

Section Generic.
Context {F : Type} `{Num F} {G : Type} `{RandomSource G}.

(** What pyglet's event loop calls the program with. *)
Inductive event : Type :=
  | Tick (dt : F)
  | Draw
  | Resize (width height : Z).

(** The window after the user has resized it: the program's own
    attributes are untouched. *)
Definition resize (w : World F) (width height : Z) : World F :=
  mk_world {| width := width; height := height |} (particles w) (dt w).

(** One callback: the new state and the frames drawn (none or one). *)
Definition handle (w : World F) (ev : event) : rand G (World F * list (Frame F)) :=
  match ev with
  | Tick dt => w' ← update w dt; mret (w', [])
  | Draw => f ← on_draw w; mret (w, [f])
  | Resize width height => mret (resize w width height, [])
  end.

(** [pyglet.app.run()] on a given sequence of events. *)
Fixpoint run_events (w : World F) (evs : list event)
    : rand G (World F * list (Frame F)) :=
  match evs with
  | [] => mret (w, [])
  | ev :: evs' =>
      r1 ← handle w ev;
      r2 ← run_events r1.1 evs';
      mret (r2.1, r1.2 ++ r2.2)
  end.

(** [main()]: build the window, then serve the events. *)
Definition main (win : Window) (evs : list event) : rand G (World F * list (Frame F)) :=
  w ← main_world win;
  run_events w evs.

(** The number of redraws in a sequence of events. *)
Fixpoint draws (evs : list event) : nat :=
  match evs with
  | [] => 0
  | Draw :: evs' => S (draws evs')
  | _ :: evs' => draws evs'
  end.

(** The size of the window after a sequence of events. *)
Definition resized (win : Window) (evs : list event) : Window :=
  foldl (fun win ev =>
           match ev with
           | Resize width height => {| width := width; height := height |}
           | _ => win
           end) win evs.
End Generic.

Arguments event F : clear implicits.

(** ** Sequences of events, in every arithmetic *)

Section Facts.
Context {F : Type} `{Num F} {G : Type} `{RandomSourceLaws G}.
Implicit Types (w : World F) (ev : event F) (evs : list (event F)) (win : Window).

Lemma handle_raises w ev : raises_only (handle (G:=G) w ev) ZeroDivisionError.
Proof.
  pose proof (update_raises (G:=G) w). pose proof (on_draw_raises (G:=G) w).
  destruct ev; cbn [handle]; raises_steps.
Qed.

Lemma run_events_raises w evs :
  raises_only (run_events (G:=G) w evs) ZeroDivisionError.
Proof.
  revert w. induction evs as [|ev evs IH]; intros w; cbn [run_events].
  - apply raises_only_ret.
  - pose proof (handle_raises w ev). raises_steps.
Qed.

(** What one callback does to the window and how many frames it draws. *)
Lemma handle_shape w ev :
  post (handle (G:=G) w ev) (fun r =>
    window r.1 = resized (window w) [ev] /\ length r.2 = draws [ev]).
Proof.
  intros g r g' Hrun. destruct ev; cbn [handle] in Hrun; inv_bind; cbn.
  - match goal with Hu : run (update _ _) _ = _ |- _ =>
      apply update_fields in Hu as [-> _] end. auto.
  - auto.
  - auto.
Qed.

Lemma resized_cons win ev evs : resized win (ev :: evs) = resized (resized win [ev]) evs.
Proof. reflexivity. Qed.

Lemma draws_cons ev evs : draws (ev :: evs) = (draws [ev] + draws evs)%nat.
Proof. destruct ev; reflexivity. Qed.

(** The window at the end has the size of the last resize (or its first
    size), and one frame has been drawn for every redraw. *)
Lemma run_events_shape w evs :
  post (run_events (G:=G) w evs) (fun r =>
    window r.1 = resized (window w) evs /\ length r.2 = draws evs).
Proof.
  revert w. induction evs as [|ev evs IH]; intros w; cbn [run_events].
  - apply post_ret. auto.
  - eapply post_bind; [apply handle_shape |]. intros r1 [Hw1 Hf1].
    eapply post_bind; [apply IH |]. intros r2 [Hw2 Hf2]. apply post_ret.
    cbn [fst snd]. rewrite resized_cons, draws_cons, length_app, <- Hw1. auto.
Qed.

(** Serving two sequences one after the other is serving their
    concatenation. *)
Lemma run_events_app w evs1 evs2 :
  run_events (G:=G) w (evs1 ++ evs2) ≡
  (r1 ← run_events w evs1; r2 ← run_events r1.1 evs2; mret (r2.1, r1.2 ++ r2.2)).
Proof.
  revert w. induction evs1 as [|ev evs1 IH]; intros w; cbn [run_events app].
  - rewrite rand_bind_ret_l. cbn [fst snd app].
    intros g. rewrite run_bind. destruct (run _ g) as [[[w' fs] g']|]; reflexivity.
  - rewrite rand_bind_assoc. apply rand_bind_ext. intros r1.
    rewrite (IH r1.1), !rand_bind_assoc.
    apply rand_bind_ext. intros r2.
    rewrite rand_bind_ret_l, rand_bind_assoc. cbn [fst snd].
    apply rand_bind_ext. intros r3.
    rewrite rand_bind_ret_l. cbn [fst snd]. rewrite app_assoc. reflexivity.
Qed.

(** Ticks alone are what [ticks] models: no frame is drawn. *)
Lemma run_events_ticks w (dts : list F) :
  run_events (G:=G) w (Tick <$> dts) ≡ (w' ← ticks w dts; mret (w', [])).
Proof.
  revert w. induction dts as [|dt dts IH]; intros w; cbn [run_events ticks fmap list_fmap].
  - rewrite rand_bind_ret_l. reflexivity.
  - cbn [handle]. rewrite !rand_bind_assoc.
    apply rand_bind_ext. intros w1.
    rewrite rand_bind_ret_l. cbn [fst snd]. rewrite (IH w1), rand_bind_assoc.
    apply rand_bind_ext. intros w2.
    rewrite !rand_bind_ret_l. reflexivity.
Qed.
End Facts.

(** ** Resizing, over the real numbers *)

Section Resizing.
Context {G : Type} `{RandomSourceLaws G}.
Local Open Scope R_scope.
Implicit Types (w : World R) (e : entity R) (win : Window) (dt : R).

(** The window an entity is updated in plays no part as long as its
    width is positive. *)
Lemma entity_update_window e dt a win win' :
  (0 < width win)%Z -> (0 < width win')%Z ->
  entity_update (G:=G) e dt a win = entity_update e dt a win'.
Proof.
  intros Hw Hw'.
  destruct e; cbn [entity_update]; unfold Firework.update, SuperFirework.update;
    rewrite (Particle.update_window _ _ _ win win' Hw Hw'); reflexivity.
Qed.

Lemma mapM_ext {A B} (f f' : A -> rand G B) (l : list A) :
  (forall x, f x = f' x) -> mapM f l = mapM f' l.
Proof.
  intros Hf. induction l as [|x l IH]; cbn [mapM]; [reflexivity |].
  rewrite Hf, IH. reflexivity.
Qed.

(** A tick in another window of positive width: the same run, in the
    other window. *)
Lemma update_in_window w win' dt :
  (0 < width (window w))%Z -> (0 < width win')%Z ->
  update (G:=G) (mk_world win' (particles w) (Main.dt w)) dt ≡
  (w' ← update w dt; mret (mk_world win' (particles w') (Main.dt w'))).
Proof.
  intros Hw Hw'. unfold update. cbn [window particles].
  rewrite (mapM_ext _ (fun p => entity_update p dt tick_acceleration (window w)))
    by (intros e; apply entity_update_window; assumption).
  rewrite rand_bind_assoc. apply rand_bind_ext. intros ls.
  rewrite rand_bind_assoc. apply rand_bind_ext. intros u.
  destruct (nltb _ u).
  - rewrite rand_bind_assoc. apply rand_bind_ext. intros e.
    rewrite rand_bind_ret_l. reflexivity.
  - rewrite rand_bind_ret_l. reflexivity.
Qed.

(** C21: resizing commutes with the simulation.  Over the real numbers
    and between windows of positive width, a tick in the resized window is
    the tick in the old window followed by the resize: the same random
    numbers are drawn, the same entities are kept, burst and launched.
    What is on screen is decided in world coordinates. *)
Theorem tick_commutes_with_resize w dt width height :
  (0 < Vec2.width (window w))%Z -> (0 < width)%Z ->
  update (G:=G) (resize w width height) dt ≡
  (w' ← update w dt; mret (resize w' width height)).
Proof.
  intros Hw Hw'.
  change (resize w width height)
    with (mk_world {| width := width; height := height |} (particles w) (Main.dt w)).
  rewrite (update_in_window w {| width := width; height := height |} dt Hw Hw').
  reflexivity.
Qed.
End Resizing.

(** ** The invariant through a session, over the real numbers *)

Section Invariant.
Context {G : Type} `{RandomSourceLaws G}.
Local Open Scope R_scope.
Implicit Types (w : World R) (ev : event R) (evs : list (event R)) (win : Window).

(** The clock never reports a negative time. *)
Definition clocked ev : Prop :=
  match ev with Tick dt => 0 <= dt | _ => True end.

(** Every colour of every frame is a byte. *)
Definition frames_ok (fs : list (Frame R)) : Prop :=
  Forall (fun f => Forall byte (colours f)) fs.

Lemma frames_ok_app fs1 fs2 : frames_ok fs1 -> frames_ok fs2 -> frames_ok (fs1 ++ fs2).
Proof. intros H1 H2. apply Forall_app. auto. Qed.

Lemma handle_ok w ev :
  world_ok w -> clocked ev ->
  post (handle (G:=G) w ev) (fun r => world_ok r.1 /\ frames_ok r.2).
Proof.
  intros Hw Hev g r g' Hrun. destruct ev; cbn [handle] in Hrun; inv_bind; cbn [fst snd].
  - split; [| apply Forall_nil_2].
    match goal with Hu : run (update _ _) _ = _ |- _ =>
      exact (update_ok w _ Hw Hev _ _ _ Hu) end.
  - split; [exact Hw |]. each_member.
    match goal with Hd : run (on_draw _) _ = _ |- _ =>
      exact (on_draw_bytes w Hw _ _ _ Hd) end.
  - split; [exact Hw | apply Forall_nil_2].
Qed.

Lemma run_events_ok w evs :
  world_ok w -> Forall clocked evs ->
  post (run_events (G:=G) w evs) (fun r => world_ok r.1 /\ frames_ok r.2).
Proof.
  intros Hw Hevs. revert w Hw.
  induction Hevs as [|ev evs Hev _ IH]; intros w Hw; cbn [run_events].
  - apply post_ret. split; [exact Hw | apply Forall_nil_2].
  - eapply post_bind; [apply (handle_ok w ev Hw Hev) |]. intros r1 [Hw1 Hf1].
    eapply post_bind; [apply (IH _ Hw1) |]. intros r2 [Hw2 Hf2].
    apply post_ret. split; [exact Hw2 | apply frames_ok_app; assumption].
Qed.

(** C12: the whole program keeps the invariant and draws valid colours.
    Whatever the order of ticks, redraws and resizes, as long as no tick
    has a negative length: the state [main] ends in satisfies the entity
    invariant, every number of the colour buffer of every frame drawn on
    the way is a byte, the window has the size of the last resize and one
    frame has been drawn for every redraw. *)
Theorem main_ok win evs :
  Forall clocked evs ->
  post (main (G:=G) win evs) (fun r =>
    world_ok r.1 /\ frames_ok r.2 /\
    window r.1 = resized win evs /\ length r.2 = draws evs).
Proof.
  intros Hevs g r g' Hrun. unfold main in Hrun. inv_bind.
  match goal with Hm : run (main_world _) _ = _, He : run (run_events _ _) _ = _ |- _ =>
    pose proof (main_world_ok win _ _ _ Hm) as Hw;
    destruct (run_events_ok _ evs Hw Hevs _ _ _ He) as [Hw' Hf];
    destruct (run_events_shape _ evs _ _ _ He) as [Hwin Hn];
    apply main_world_fields in Hm as (Hwin0 & _) end.
  rewrite <- Hwin0. auto.
Qed.
End Invariant.

(** ** A session is simulated by the ticks alone, over the real numbers *)

Section Refinement.
Context {G : Type} `{RandomSourceLaws G}.
Local Open Scope R_scope.
Implicit Types (w : World R) (ev : event R) (evs : list (event R)) (win : Window).

(** Two states of the window that differ in the size of the window at
    most. *)
Definition same_state w w' : Prop :=
  particles w = particles w' /\ Main.dt w = Main.dt w'.

#[export] Instance same_state_equivalence : Equivalence same_state.
Proof.
  split; [intros w; split; reflexivity | intros w w' [Hp Hd]; split; congruence |].
  intros w1 w2 w3 [Hp Hd] [Hp' Hd']. split; congruence.
Qed.

(** The events of a session in windows of positive width, with a clock
    that does not run backwards. *)
Definition sized ev : Prop :=
  match ev with
  | Tick dt => 0 <= dt
  | Draw => True
  | Resize width _ => (0 < width)%Z
  end.

(** The state is shadowed by a state the ticks alone reach. *)
Definition shadowed w : Prop :=
  (0 < width (window w))%Z /\
  exists w', reachable (G:=G) w' /\ same_state w w' /\ (0 < width (window w'))%Z.

Lemma same_state_window w w' :
  same_state w w' -> w = mk_world (window w) (particles w') (Main.dt w').
Proof. destruct w. intros [Hp Hd]. cbn in *. congruence. Qed.

Lemma tick_shadowed w dt : shadowed w -> 0 <= dt -> post (update (G:=G) w dt) shadowed.
Proof.
  intros (Hw & w0 & Hr & Hs & Hw0) Hdt g w1 g1 Hrun.
  destruct (update_fields w dt _ _ _ Hrun) as [Hwin _].
  rewrite (same_state_window w w0 Hs), (update_in_window w0 (window w) dt Hw0 Hw) in Hrun.
  inv_bind. split; [cbn; exact Hw |].
  match goal with Hu : run (update w0 dt) _ = Ok (?w', _) |- _ =>
    exists w'; destruct (update_fields w0 dt _ _ _ Hu) as [Hwin' _];
    split; [exact (reach_update w0 dt _ _ _ Hr Hdt Hu) |];
    split; [split; reflexivity | rewrite Hwin'; exact Hw0] end.
Qed.

Lemma handle_shadowed w ev :
  shadowed w -> sized ev -> post (handle (G:=G) w ev) (fun r => shadowed r.1).
Proof.
  intros Hw Hev g r g' Hrun. destruct ev; cbn [handle] in Hrun; inv_bind; cbn [fst].
  - match goal with Hu : run (update _ _) _ = _ |- _ =>
      exact (tick_shadowed w _ Hw Hev _ _ _ Hu) end.
  - exact Hw.
  - destruct Hw as (_ & w0 & Hr & Hs & Hw0). split; [exact Hev |].
    exists w0. split; [exact Hr | split; [exact Hs | exact Hw0]].
Qed.

Lemma run_events_shadowed w evs :
  shadowed w -> Forall sized evs ->
  post (run_events (G:=G) w evs) (fun r => shadowed r.1).
Proof.
  intros Hw Hevs. revert w Hw.
  induction Hevs as [|ev evs Hev _ IH]; intros w Hw; cbn [run_events].
  - apply post_ret. exact Hw.
  - eapply post_bind; [apply (handle_shadowed w ev Hw Hev) |]. intros r1 Hw1.
    eapply post_bind; [apply (IH _ Hw1) |]. intros r2 Hw2.
    apply post_ret. exact Hw2.
Qed.

(** C25: redraws and resizes add no states.  Over the real numbers, in
    windows of positive width and with a clock that does not run
    backwards, the state a session ends in is, up to the size of the
    window, a state the ticks alone reach from [main]: the event loop is
    simulated by the transition system of the ticks, so everything that
    holds of the reachable states of the simulation holds of the
    particles of every session. *)
Theorem session_simulated_by_ticks win evs :
  (0 < width win)%Z -> Forall sized evs ->
  post (main (G:=G) win evs) (fun r =>
    exists w, reachable (G:=G) w /\ same_state r.1 w).
Proof.
  intros Hwin Hevs g r g' Hrun. unfold main in Hrun. inv_bind.
  match goal with Hm : run (main_world _) _ = Ok (?w0, _),
                  He : run (run_events _ _) _ = _ |- _ =>
    destruct (main_world_fields win _ _ _ Hm) as [Hw0 _];
    assert (shadowed w0) as Hs
      by (rewrite <- Hw0 in Hwin; split; [exact Hwin |]; exists w0;
          split; [exact (reach_main win _ _ _ Hm) | split; [reflexivity | exact Hwin]]);
    destruct (run_events_shadowed w0 evs Hs Hevs _ _ _ He) as (_ & w & Hr & Hsame & _) end.
  exists w. auto.
Qed.
End Refinement.

(** ** The theorems at concrete inputs *)

Section Witnesses.
Local Open Scope R_scope.

(** A window holding one flying firework, over the reals. *)
Definition rising_world : World R := FireworksWindow_init [EFirework rising_real] win800.

Lemma tick_commutes_with_resize_witness :
  update (G:=tape) (resize rising_world 1024 768) (1 / 100) ≡
  (w' ← update rising_world (1 / 100); mret (resize w' 1024 768)).
Proof. apply (tick_commutes_with_resize rising_world (1 / 100) 1024 768); cbn; lia. Defined.

Lemma main_ok_witness :
  let evs := [Tick (1 / 100); Draw; Resize 1024 768; Tick 0; Draw] in
  post (main (G:=tape) win800 evs) (fun r =>
    world_ok r.1 /\ frames_ok r.2 /\
    window r.1 = resized win800 evs /\ length r.2 = draws evs).
Proof.
  apply (main_ok win800 [Tick (1 / 100); Draw; Resize 1024 768; Tick 0; Draw]).
  each_member; cbn; lra || exact I.
Defined.

Lemma session_simulated_by_ticks_witness :
  post (main (G:=tape) win800 [Tick (1 / 100); Draw; Resize 1024 768; Tick (1 / 50)])
       (fun r => exists w, reachable (G:=tape) w /\ same_state r.1 w).
Proof.
  apply (session_simulated_by_ticks win800
           [Tick (1 / 100); Draw; Resize 1024 768; Tick (1 / 50)]); [cbn; lia |].
  each_member; cbn; lra || lia || exact I.
Defined.

(** ** Runs in binary64 *)

(** A window holding one flying firework. *)
Definition lone_rocket : World float := FireworksWindow_init [EFirework rising] win800.

(** What is left of a run: the number of entities, the texts of the
    overlays drawn, and the number of draws left on the tape. *)
Definition summary (r : result (World float * list (Frame float) * tape))
    : option (nat * list string * nat) :=
  match r with
  | Ok (w, fs, g) => Some (length (particles w), (fun f => text (label f)) <$> fs, length g)
  | Raise _ => None
  end.

(** Drawing is not a pure observation.  The colour of a rocket is
    drawn at random each time it is read, from the generator the
    simulation uses; so on one and the same tape two ticks leave three
    entities, while the same two ticks with a redraw between them leave
    four: the redraw has consumed three draws and the second tick
    launches a rocket it would not have launched. *)
Example redraw_changes_the_simulation :
  let tape9 : tape := [0; 2 ^ 52; 0; 0; 2 ^ 52; 0; 0; 2 ^ 52; 8106479329266894]%Z in
  summary (run (run_events lone_rocket [Tick tick; Tick tick]) tape9)
    = Some (3%nat, [], 3%nat) /\
  summary (run (run_events lone_rocket [Tick tick; Draw; Tick tick]) tape9)
    = Some (4%nat, ["2 particles, 100fps, 800x600"], 0%nat).
Proof. vm_compute. split; reflexivity. Qed.

(** The overlay follows the state: before the first tick it shows the
    [dt = 1] of [__init__], after a tick of 16 ms the rounded quotient 62
    and the new count, after a resize the new size. *)
Example overlay_follows_the_events :
  summary (run (run_events lone_rocket
                  [Draw; Tick (dec 16 3); Draw; Resize 1024 768; Draw])
               ([0; 0; 0; 0; 2 ^ 52; 0]%Z : tape))
  = Some (2%nat, ["1 particles, 1fps, 800x600"; "2 particles, 62fps, 800x600";
                  "2 particles, 62fps, 1024x768"], 0%nat).
Proof. vm_compute. reflexivity. Qed.

(** A particle at rest one unit in the last place to the right of the
    strip [-1 <= x <= 1]. *)
Definition edge : Particle.t float :=
  Particle.init (Vec2.mk 0x1.0000000000001p0%float (flt 1)) (Vec2.mk (flt 0) (flt 0))
                (255, 255, 255)%Z None.

(** In binary64 the window does play a part.  The particle [edge]
    lies outside the strip; a window 800 pixels wide drops it, but in a
    window 1024 pixels wide its screen abscissa [x * 1024 / 2 + 512] rounds
    to exactly 1024 and the test [x > window.width] keeps it. *)
Example resize_changes_binary64 :
  Particle.alive edge win800 = false /\
  Particle.alive edge {| width := 1024; height := 768 |} = true /\
  run (update (FireworksWindow_init [EParticle edge] win800) (flt 0)) ([] : tape)
    = Ok (mk_world win800 [] (flt 0), []) /\
  run (update (resize (FireworksWindow_init [EParticle edge] win800) 1024 768) (flt 0))
      ([] : tape)
    = Ok (mk_world {| width := 1024; height := 768 |} [EParticle edge] (flt 0), []).
Proof. vm_compute. repeat split; reflexivity. Qed.
End Witnesses.
