(* ===== verification/Scenarios.v ===== *)
(** * Scenarios: runs of the program at concrete inputs

    The scenarios of the specification and a few runs of the driver,
    evaluated in binary64 on the tape generator, next to what exact
    arithmetic says of the same inputs.  Where the two differ the
    difference is stated: it is the rounding of the accumulated age. *)

From Stdlib Require Import ZArith Reals Lia Lra Floats.
From stdpp Require Import base list.
From S2P Require Import Prelude Numeric NumReal NumFloat Random Vec2 Particle Firework.
From S2P Require Import Lifecycle Simulation.

Import Main.

(** ** A particle that falls out of the window *)

Section Falling.

(** An immortal particle at rest at the origin. *)
Definition lone : Particle.t float :=
  Particle.init (Vec2.mk (flt 0) (flt 0)) (Vec2.mk (flt 0) (flt 0))
                (255, 255, 255)%Z None.

Definition window2 : Window := {| width := 2; height := 2 |}.

Definition lone_world : World float := FireworksWindow_init [EParticle lone] window2.

(** The scenario of the specification: an immortal particle at rest
    at the origin, updated with [dt = 1] under the acceleration
    [(0, -0.1)] in a 2 x 2 window, gets the velocity and the position
    [(0, -0.1)], projects below the window and is dropped; the tick of the
    driver leaves an empty collection. *)
Example lone_falls_out :
  Particle.update lone (flt 1) tick_acceleration window2 =
    Ok (Particle.mk (Vec2.mk (flt 0) (nneg (dec 1 1)))
                    (Vec2.mk (flt 0) (nneg (dec 1 1)))
                    (255, 255, 255)%Z None (flt 1), false) /\
  run (update lone_world (flt 1)) ([] : tape) =
    Ok (mk_world window2 [] (flt 1), []).
Proof. split; vm_compute; reflexivity. Qed.
End Falling.

(** ** The accumulated age in binary64 and in exact arithmetic *)

Section Ageing.

(** A particle of lifespan 1 at rest in the middle of the window, in both
    arithmetics. *)
Definition glow : Particle.t float :=
  Particle.init (Vec2.mk (flt 0) (flt 1)) (Vec2.mk (flt 0) (flt 0))
                (255, 128, 0)%Z (Some (flt 1)).

Definition glow_real : Particle.t R :=
  Particle.init (Vec2.mk 0%R 1%R) (Vec2.mk 0%R 0%R) (255, 128, 0)%Z (Some 1%R).

Definition no_acceleration {F} `{Num F} : Vec2.t F := Vec2.mk (flt 0) (flt 0).

(** Ten ticks of [0.1] add up to 1 in exact arithmetic, so a
    particle of lifespan 1 is dropped by the tenth tick; in binary64 the
    ten additions give [0.9999999999999999], the particle survives the
    tenth tick and is dropped by the eleventh. *)
Example glow_outlives_its_lifespan :
  survive glow_real (repeat (1 / 10)%R 10) no_acceleration win800 = None /\
  (Particle.timer <$> survive glow (repeat (dec 1 1) 10) no_acceleration win800)
    = Some 0x1.fffffffffffffp-1%float /\
  survive glow (repeat (dec 1 1) 11) no_acceleration win800 = None.
Proof.
  split; [| split; vm_compute; reflexivity].
  destruct (survive glow_real _ _ _) as [p'|] eqn:Hs; [| reflexivity].
  apply survive_slots in Hs as (Ht & _ & _ & Hy).
  rewrite elapsed_repeat in Ht. specialize (Hy ltac:(discriminate) 1%R eq_refl).
  cbn in Ht. lra.
Qed.
End Ageing.

(** ** Three ticks of the driver *)

Section Driving.

(** Three ticks of a hundredth of a second on the window holding a
    dying and a flying firework, every draw being 0 except the lifespans
    of the trail sparks: the first tick replaces the dying firework by its
    burst of 25 particles and gives the flying one its first spark; the
    next two add one spark each; nothing is launched and nothing is
    dropped, so the collection grows from 2 to 27, 28 and 29 entities. *)
Example three_ticks :
  let tape1 : tape := repeat 0%Z 105 ++ [2 ^ 52]%Z in
  let tape2 : tape := [0; 2 ^ 52]%Z in
  match run (update show_world tick) tape1 with
  | Ok (w1, _) =>
      match run (ticks w1 [tick; tick]) (tape2 ++ [0%Z] ++ tape2) with
      | Ok (w3, _) =>
          length (particles w1) = 27%nat /\ length (particles w3) = 29%nat /\
          Main.dt w3 = tick
      | Raise _ => False
      end
  | Raise _ => False
  end.
Proof. vm_compute. repeat split. Qed.
End Driving.
